(** * Technology scanner: the analyser of [src/analyser/index.ts]

    A shallow embedding of the detection engine: the provider contract, the
    rule model, the bounded index walk, the content cache, the manifest
    extractors that work by plain string operations, rule evaluation and
    result assembly; with them the Cargo extractor, the reporter of
    [src/scan/reporter.ts] and the input parser of [src/scan/input.ts];
    followed by the properties the specification states about the engine,
    and by further properties of the code. *)

From Stdlib Require Import NArith ZArith List String Ascii Bool Lia.
From stdpp Require Import base option list gmap sets.

Set Warnings "-clear-no-such-hyp,-register-all".

Local Open Scope N_scope.

(** ** JavaScript strings

    A JavaScript string is a sequence of UTF-16 code units; a code unit is
    a number below 65536, kept here as an [N]. *)

Abbreviation jsstring := (list N).

(** An ASCII literal as a JavaScript string. *)
Definition js (s : string) : jsstring :=
  map N_of_ascii (list_ascii_of_string s).

(** ECMAScript [LineTerminator]: LF, CR, U+2028, U+2029. The regular
    expression atom [.] (without the [s] flag) matches every code unit but
    these. *)
Definition isLineTerminator (c : N) : bool :=
  (c =? 10) || (c =? 13) || (c =? 8232) || (c =? 8233).

(** ECMAScript [WhiteSpace]: TAB, VT, FF, SP, NBSP, U+FEFF and the space
    separators of Unicode. *)
Definition isWhiteSpace (c : N) : bool :=
  (c =? 9) || (c =? 11) || (c =? 12) || (c =? 32) || (c =? 160)
  || (c =? 5760) || ((8192 <=? c) && (c <=? 8202))
  || (c =? 8239) || (c =? 8287) || (c =? 12288) || (c =? 65279).

(** What [String.prototype.trim] removes: white space and line
    terminators. *)
Definition isTrimmable (c : N) : bool :=
  isWhiteSpace c || isLineTerminator c.

Fixpoint trimStart (s : jsstring) : jsstring :=
  match s with
  | [] => []
  | c :: r => if isTrimmable c then trimStart r else s
  end.

Definition trimEnd (s : jsstring) : jsstring :=
  rev (trimStart (rev s)).

(** [s.trim()] *)
Definition trim (s : jsstring) : jsstring :=
  trimEnd (trimStart s).

(** [s.startsWith(prefix)] *)
Fixpoint startsWith (s prefix : jsstring) {struct prefix} : bool :=
  match prefix, s with
  | [], _ => true
  | _ :: _, [] => false
  | p :: ps, c :: cs => (c =? p) && startsWith cs ps
  end.

(** [s.includes(pat)]: [pat] occurs in [s] at some position. *)
Fixpoint includes (s pat : jsstring) : bool :=
  startsWith s pat
  || match s with
     | [] => false
     | _ :: r => includes r pat
     end.

(** [s.lastIndexOf(c)] for a one-unit search string: the greatest index
    holding [c], or [-1]. *)
Fixpoint lastIndexOf_from (i : Z) (s : jsstring) (c : N) (found : Z) : Z :=
  match s with
  | [] => found
  | x :: r => lastIndexOf_from (i + 1)%Z r c (if x =? c then i else found)
  end.

Definition lastIndexOf (s : jsstring) (c : N) : Z :=
  lastIndexOf_from 0%Z s c (-1)%Z.

(** [s.substring(start)] for [0 <= start]. *)
Definition substring (s : jsstring) (start : Z) : jsstring :=
  drop (Z.to_nat start) s.

(** A string is truthy when it is not empty. *)
Definition truthy (s : jsstring) : bool :=
  match s with [] => false | _ :: _ => true end.

(** [s.split(/\r?\n/)]: a separator is LF, or CR immediately followed by
    LF. The separator never matches the empty string, so the empty input
    gives one empty piece. *)
Fixpoint splitLines (s : jsstring) : list jsstring :=
  match s with
  | [] => [[]]
  | c :: r =>
      if c =? 10 then [] :: splitLines r
      else
        match r with
        | d :: r' =>
            if (c =? 13) && (d =? 10) then [] :: splitLines r'
            else
              match splitLines r with
              | piece :: pieces => (c :: piece) :: pieces
              | [] => [[c]]
              end
        | [] => [[c]]
        end
  end.

(** [s.split(re)] for a regular expression [re] that is one character
    class: a separator is any single code unit of the class. *)
Fixpoint splitOn (sep : N -> bool) (s : jsstring) : list jsstring :=
  match s with
  | [] => [[]]
  | c :: r =>
      if sep c then [] :: splitOn sep r
      else
        match splitOn sep r with
        | piece :: pieces => (c :: piece) :: pieces
        | [] => [[c]]
        end
  end.

(** [arr[0]] of an array of strings, read where the array is known to
    have a first element ([split] never returns an empty array here). *)
Definition first (pieces : list jsstring) : jsstring :=
  match pieces with
  | [] => []
  | p :: _ => p
  end.

(** [l.replace(/#.*$/, '')]: the first match is removed. Without the [m]
    flag [$] is the end of the string and [.] stops at a line
    terminator, so the match starts at the leftmost [#] that has no line
    terminator after it, and runs to the end. *)
Fixpoint stripComment (l : jsstring) : jsstring :=
  match l with
  | [] => []
  | c :: r =>
      if (c =? 35) && forallb (fun d => negb (isLineTerminator d)) r
      then []
      else c :: stripComment r
  end.

(** The character class [[><=!~;\[]]. *)
Definition isSpecifierStart (c : N) : bool :=
  (c =? 62) || (c =? 60) || (c =? 61) || (c =? 33) || (c =? 126)
  || (c =? 59) || (c =? 91).

(** ** Manifest extractors written with plain string operations *)

(** [extractPythonDeps]: names of a requirements file. *)
Definition extractPythonDeps (content : jsstring) : list jsstring :=
  List.filter truthy
    (map (fun l => trim (first (splitOn isSpecifierStart l)))
       (List.filter (fun l => truthy l && negb (startsWith l (js "-")))
          (map (fun l => trim (stripComment l))
             (splitLines content)))).

(** [extractEnvVarNames]: variable names of a dotenv file. *)
Definition extractEnvVarNames (content : jsstring) : list jsstring :=
  List.filter truthy
    (map (fun l => trim (first (splitOn (fun c => c =? 61) l)))
       (List.filter (fun l => truthy l && negb (startsWith l (js "#")))
          (map trim (splitLines content)))).

(** ** Provider contract ([src/provider/index.ts]) *)

Record ProviderFile := {
  pf_path : jsstring;
  pf_name : jsstring;
  pf_isDirectory : bool
}.

(** A thrown value, kept as the text [String(err)] prints. *)
Abbreviation exn := (list N).

(** How an awaited call settles: fulfilled with a value, or rejected. *)
Inductive result (A : Type) : Type :=
| Ok (a : A)
| Throw (e : exn).
Arguments Ok {A} a.
Arguments Throw {A} e.

(** The three capabilities. The repository does not change during a scan,
    so each one is a function of its argument. *)
Record Provider := {
  listFiles : jsstring -> result (list ProviderFile);
  readFile : jsstring -> result jsstring;
  exists_ : jsstring -> result bool
}.

(** ** Rule model ([src/rules/types.ts], [src/payload/index.ts]) *)

Module TechType.
Inductive t : Set :=
| language | framework | ui_framework | ui | runtime | tool | builder
| linter | test | ci | hosting | cloud | db | orm | queue | storage | ai
| analytics | monitoring | auth | payment | notification | cms | saas
| iac | security | automation | ssg | package_manager | validation
| app | network | unknown.
End TechType.

Module DepType.
Inductive t : Set := npm | python | docker | golang | ruby | rust | php.
End DepType.

(** A compiled regular expression, given by the search [test] runs.
    The expressions of a rule carry neither the [g] nor the [y] flag, so
    [test] keeps no position between calls. *)
Module RegExp.
Record t := { test : jsstring -> bool }.
End RegExp.

(** [string | RegExp] *)
Inductive Pattern :=
| Str (s : jsstring)
| Re (r : RegExp.t).

Record RuleDependency := {
  dep_type : DepType.t;
  dep_name : Pattern
}.

Record ContentPattern := {
  cp_file : jsstring;
  cp_patterns : list Pattern
}.

Record RuleMatch := {
  files : option (list jsstring);
  extensions : option (list jsstring);
  contentPatterns : option (list ContentPattern)
}.

Record Rule := {
  rule_id : jsstring;
  rule_name : jsstring;
  rule_type : TechType.t;
  rule_match : option RuleMatch;
  dependencies : option (list RuleDependency);
  dotenv : option (list jsstring)
}.

(** A node of the payload. The analyser never sets the optional [childs]
    of a node, so it is left out. *)
Record PayloadNode := {
  node_name : jsstring;
  node_type : TechType.t
}.

Record Payload := { childs : list PayloadNode }.

(** ** The state of one scan

    The objects [analyser] creates and mutates in place (the three sets and
    the content cache), the provider calls made so far and the warnings
    logged so far, oldest first. *)

Inductive IOCall :=
| CallListFiles (dir : jsstring)
| CallReadFile (filePath : jsstring)
| CallExists (filePath : jsstring).

Record Scan := {
  allPaths : gset jsstring;
  allFileNames : gset jsstring;
  extensionSet : gset jsstring;
  contentCache : gmap jsstring (option jsstring);
  calls : list IOCall;
  warnings : list jsstring
}.

Definition newScan : Scan :=
  {| allPaths := ∅; allFileNames := ∅; extensionSet := ∅;
     contentCache := ∅; calls := []; warnings := [] |}.

(** An [async] computation: it runs from a state and settles. *)
Definition Async (A : Type) : Type := Scan -> Scan * result A.

Definition ret {A} (a : A) : Async A := fun st => (st, Ok a).

Definition bind {A B} (m : Async A) (k : A -> Async B) : Async B :=
  fun st =>
    match m st with
    | (st', Ok a) => k a st'
    | (st', Throw e) => (st', Throw e)
    end.

(** [try { body } catch (err) { handler }]: what [body] did to the state
    before it threw stays done. *)
Definition tryCatch {A} (body : Async A) (handler : exn -> Async A) : Async A :=
  fun st =>
    match body st with
    | (st', Ok a) => (st', Ok a)
    | (st', Throw e) => handler e st'
    end.

Declare Scope async_scope.
Delimit Scope async_scope with async.
Bind Scope async_scope with Async.
Notation "x <- m ;; k" := (bind m (fun x => k))
  (at level 100, m at next level, right associativity) : async_scope.
Notation "m ;; k" := (bind m (fun _ => k))
  (at level 100, right associativity) : async_scope.
Local Open Scope async_scope.

Definition modify (f : Scan -> Scan) : Async unit :=
  fun st => (f st, Ok tt).

Definition get {A} (f : Scan -> A) : Async A :=
  fun st => (st, Ok (f st)).

Definition recordCall (c : IOCall) : Async unit :=
  modify (fun st =>
    {| allPaths := allPaths st; allFileNames := allFileNames st;
       extensionSet := extensionSet st; contentCache := contentCache st;
       calls := calls st ++ [c]; warnings := warnings st |}).

(** [await provider.listFiles(dir)] *)
Definition awaitListFiles (provider : Provider) (dir : jsstring)
  : Async (list ProviderFile) :=
  recordCall (CallListFiles dir) ;; fun st => (st, listFiles provider dir).

(** [await provider.readFile(filePath)] *)
Definition awaitReadFile (provider : Provider) (filePath : jsstring)
  : Async jsstring :=
  recordCall (CallReadFile filePath) ;; fun st => (st, readFile provider filePath).

(** [await provider.exists(filePath)] *)
Definition awaitExists (provider : Provider) (filePath : jsstring)
  : Async bool :=
  recordCall (CallExists filePath) ;; fun st => (st, exists_ provider filePath).

(** [allPaths.add(p)] *)
Definition addPath (p : jsstring) : Async unit :=
  modify (fun st =>
    {| allPaths := {[p]} ∪ allPaths st; allFileNames := allFileNames st;
       extensionSet := extensionSet st; contentCache := contentCache st;
       calls := calls st; warnings := warnings st |}).

(** [allFileNames.add(n)] *)
Definition addFileName (n : jsstring) : Async unit :=
  modify (fun st =>
    {| allPaths := allPaths st; allFileNames := {[n]} ∪ allFileNames st;
       extensionSet := extensionSet st; contentCache := contentCache st;
       calls := calls st; warnings := warnings st |}).

(** [extensions.add(e)] *)
Definition addExtension (e : jsstring) : Async unit :=
  modify (fun st =>
    {| allPaths := allPaths st; allFileNames := allFileNames st;
       extensionSet := {[e]} ∪ extensionSet st; contentCache := contentCache st;
       calls := calls st; warnings := warnings st |}).

(** [contentCache.set(filePath, v)] *)
Definition cacheSet (filePath : jsstring) (v : option jsstring) : Async unit :=
  modify (fun st =>
    {| allPaths := allPaths st; allFileNames := allFileNames st;
       extensionSet := extensionSet st;
       contentCache := <[filePath := v]> (contentCache st);
       calls := calls st; warnings := warnings st |}).

(** [consola.warn(msg)] *)
Definition warn (msg : jsstring) : Async unit :=
  modify (fun st =>
    {| allPaths := allPaths st; allFileNames := allFileNames st;
       extensionSet := extensionSet st; contentCache := contentCache st;
       calls := calls st; warnings := warnings st ++ [msg] |}).

(** ** Repository index ([analyser], step 1) *)

(** The loop over [rootFiles]; [dirs] is the array of directory names
    to walk, returned when the loop ends. *)
Fixpoint indexRoot (rootFiles : list ProviderFile) (dirs : list jsstring)
  : Async (list jsstring) :=
  match rootFiles with
  | [] => ret dirs
  | f :: rest =>
      addPath (pf_path f) ;;
      addFileName (pf_name f) ;;
      if pf_isDirectory f then indexRoot rest (dirs ++ [pf_name f])
      else
        let dotIdx := lastIndexOf (pf_name f) 46 in
        (if (0 <? dotIdx)%Z
         then addExtension (substring (pf_name f) dotIdx)
         else ret tt) ;;
        indexRoot rest dirs
  end.

(** The loop over [grandchildren]. *)
Fixpoint indexGrandchildren (grandchildren : list ProviderFile) : Async unit :=
  match grandchildren with
  | [] => ret tt
  | gc :: rest => addPath (pf_path gc) ;; indexGrandchildren rest
  end.

(** The loop over [children]. *)
Fixpoint indexChildren (provider : Provider) (children : list ProviderFile)
  : Async unit :=
  match children with
  | [] => ret tt
  | c :: rest =>
      addPath (pf_path c) ;;
      addFileName (pf_name c) ;;
      (if pf_isDirectory c
       then tryCatch
              (grandchildren <- awaitListFiles provider (pf_path c) ;;
               indexGrandchildren grandchildren)
              (fun _ => ret tt)
       else ret tt) ;;
      indexChildren provider rest
  end.

(** The loop over [dirs]. *)
Fixpoint walkDirs (provider : Provider) (dirs : list jsstring) : Async unit :=
  match dirs with
  | [] => ret tt
  | dir :: rest =>
      tryCatch
        (children <- awaitListFiles provider dir ;;
         indexChildren provider children)
        (fun _ => ret tt) ;;
      walkDirs provider rest
  end.

(** ** Content cache ([analyser], step 2) *)

(** [readCached]; [None] is [null]. *)
Definition readCached (provider : Provider) (filePath : jsstring)
  : Async (option jsstring) :=
  cache <- get contentCache ;;
  match cache !! filePath with
  | Some cached => ret cached
  | None =>
      tryCatch
        (content <- awaitReadFile provider filePath ;;
         cacheSet filePath (Some content) ;;
         ret (Some content))
        (fun _ => cacheSet filePath None ;; ret None)
  end.

(** ** Dependency table and variable names ([analyser], steps 3 and 4) *)

(** The extractors that parse JSON or run a regular expression with
    captures. What they compute is the JavaScript engine's business; each
    is a total function of the text (the JSON ones catch their own
    errors), and the scan is stated for any such functions.
    [pyprojectDependencies] is capture 1 of the [[project]] match,
    [dockerfileFrom] lists capture 1 of every [FROM] match. *)
Record Extractors := {
  extractNpmDeps : jsstring -> list jsstring;
  extractRubyDeps : jsstring -> list jsstring;
  extractGoDeps : jsstring -> list jsstring;
  extractCargoDeps : jsstring -> list jsstring;
  extractComposerDeps : jsstring -> list jsstring;
  extractDockerImages : jsstring -> list jsstring;
  pyprojectDependencies : jsstring -> option jsstring;
  dockerfileFrom : jsstring -> list jsstring
}.

(** [Record<DepType, string[]>] *)
Definition DepsMap : Type := DepType.t -> list jsstring.

(** [if (c) ... ] on a [string | null]: taken for a non-empty string. *)
Definition whenText {A} (c : option jsstring) (f : jsstring -> A) (otherwise : A) : A :=
  match c with
  | Some text => if truthy text then f text else otherwise
  | None => otherwise
  end.

(** [for (const f of names) { const c = await readCached(f);
    if (c) acc.push(...extract(c)); }] *)
Fixpoint collectFrom (provider : Provider) (names : list jsstring)
    (extract : jsstring -> list jsstring) (acc : list jsstring)
  : Async (list jsstring) :=
  match names with
  | [] => ret acc
  | f :: rest =>
      c <- readCached provider f ;;
      collectFrom provider rest extract
        (whenText c (fun text => acc ++ extract text) acc)
  end.

Definition requirementsFiles : list jsstring :=
  [js "requirements.txt"; js "requirements-dev.txt"; js "requirements-base.txt"].

Definition composeFiles : list jsstring :=
  [js "docker-compose.yml"; js "docker-compose.yaml"; js "compose.yml";
   js "compose.yaml"].

Definition envFiles : list jsstring :=
  [js ".env"; js ".env.local"; js ".env.example"; js ".env.development";
   js ".env.production"; js ".env.test"].

(** [s.replace(re, '')] with [re] the global search for the double
    quote (code unit 34): every double quote is removed. *)
Definition removeQuotes (s : jsstring) : jsstring :=
  List.filter (fun c => negb (c =? 34)) s.

(** [s.split(':')[0]] *)
Definition stripTag (s : jsstring) : jsstring :=
  first (splitOn (fun c => c =? 58) s).

Definition extractDependencies (ex : Extractors) (provider : Provider)
  : Async DepsMap :=
  pkgJson <- readCached provider (js "package.json") ;;
  let npm := whenText pkgJson (extractNpmDeps ex) [] in
  python <- collectFrom provider requirementsFiles extractPythonDeps [] ;;
  pyproject <- readCached provider (js "pyproject.toml") ;;
  let python :=
    whenText pyproject
      (fun text =>
         match pyprojectDependencies ex text with
         | Some depSection => python ++ extractPythonDeps (removeQuotes depSection)
         | None => python
         end)
      python in
  gemfile <- readCached provider (js "Gemfile") ;;
  let ruby := whenText gemfile (extractRubyDeps ex) [] in
  gomod <- readCached provider (js "go.mod") ;;
  let golang := whenText gomod (extractGoDeps ex) [] in
  cargoToml <- readCached provider (js "Cargo.toml") ;;
  let rust := whenText cargoToml (extractCargoDeps ex) [] in
  composerJson <- readCached provider (js "composer.json") ;;
  let php := whenText composerJson (extractComposerDeps ex) [] in
  docker <- collectFrom provider composeFiles (extractDockerImages ex) [] ;;
  dockerfile <- readCached provider (js "Dockerfile") ;;
  let docker :=
    whenText dockerfile
      (fun text => docker ++ map stripTag (dockerfileFrom ex text))
      docker in
  ret (fun t =>
         match t with
         | DepType.npm => npm
         | DepType.python => python
         | DepType.ruby => ruby
         | DepType.golang => golang
         | DepType.rust => rust
         | DepType.docker => docker
         | DepType.php => php
         end).

(** ** Rule evaluation ([evaluateRule])

    Each loop returns [true] when it ran [return true], and [false] when
    it ran to its end. *)

(** 1. File existence *)
Fixpoint filesLoop (provider : Provider) (rootNames allPaths : gset jsstring)
    (fs : list jsstring) : Async bool :=
  match fs with
  | [] => ret false
  | f :: rest =>
      if bool_decide (f ∈ rootNames) || bool_decide (f ∈ allPaths)
      then ret true
      else
        found <- awaitExists provider f ;;
        if found then ret true
        else filesLoop provider rootNames allPaths rest
  end.

(** 2. Extension *)
Fixpoint extensionsLoop (extensionSet : gset jsstring) (exts : list jsstring)
  : bool :=
  match exts with
  | [] => false
  | ext :: rest =>
      if bool_decide (ext ∈ extensionSet) then true
      else extensionsLoop extensionSet rest
  end.

(** 3. Content patterns *)
Fixpoint patternsLoop (content : jsstring) (patterns : list Pattern) : bool :=
  match patterns with
  | [] => false
  | pat :: rest =>
      match pat with
      | Str s => if includes content s then true else patternsLoop content rest
      | Re r => if RegExp.test r content then true else patternsLoop content rest
      end
  end.

Fixpoint contentPatternsLoop (readCached : jsstring -> Async (option jsstring))
    (cps : list ContentPattern) : Async bool :=
  match cps with
  | [] => ret false
  | cp :: rest =>
      content <- readCached (cp_file cp) ;;
      match content with
      | None => contentPatternsLoop readCached rest
      | Some text =>
          if patternsLoop text (cp_patterns cp) then ret true
          else contentPatternsLoop readCached rest
      end
  end.

(** 4. Dependency matching *)
Fixpoint pkgLoop (depName : Pattern) (pkgList : list jsstring) : bool :=
  match pkgList with
  | [] => false
  | pkg :: rest =>
      match depName with
      | Str s => if bool_decide (pkg = s) then true else pkgLoop depName rest
      | Re r => if RegExp.test r pkg then true else pkgLoop depName rest
      end
  end.

Fixpoint dependenciesLoop (depsMap : DepsMap) (deps : list RuleDependency)
  : bool :=
  match deps with
  | [] => false
  | dep :: rest =>
      let pkgList := depsMap (dep_type dep) in
      if (length pkgList =? 0)%nat then dependenciesLoop depsMap rest
      else if pkgLoop (dep_name dep) pkgList then true
      else dependenciesLoop depsMap rest
  end.

(** 5. dotenv prefix matching *)
Fixpoint dotenvLoop (envVarNames : list jsstring) (prefixes : list jsstring)
  : bool :=
  match prefixes with
  | [] => false
  | prefix :: rest =>
      if existsb (fun v => startsWith v prefix) envVarNames then true
      else dotenvLoop envVarNames rest
  end.

Definition evaluateRule (rule : Rule)
    (allPaths extensionSet rootNames : gset jsstring)
    (readCached : jsstring -> Async (option jsstring))
    (provider : Provider) (depsMap : DepsMap) (envVarNames : list jsstring)
  : Async bool :=
  let m := rule_match rule in
  hit <- match m ≫= files with
         | Some fs => filesLoop provider rootNames allPaths fs
         | None => ret false
         end ;;
  if hit then ret true else
  if match m ≫= extensions with
     | Some exts => extensionsLoop extensionSet exts
     | None => false
     end
  then ret true else
  hit <- match m ≫= contentPatterns with
         | Some cps => contentPatternsLoop readCached cps
         | None => ret false
         end ;;
  if hit then ret true else
  if match dependencies rule with
     | Some deps => dependenciesLoop depsMap deps
     | None => false
     end
  then ret true else
  if match dotenv rule with
     | Some prefixes =>
         (0 <? length envVarNames)%nat && dotenvLoop envVarNames prefixes
     | None => false
     end
  then ret true else
  ret false.

(** ** Result assembly ([analyser], step 5) *)

(** The text of the warning: [Rule ], the rule's id between double
    quotes (code unit 34), [ threw: ] and the thrown value. *)
Definition warningText (rule : Rule) (err : exn) : jsstring :=
  js "Rule " ++ [34] ++ rule_id rule ++ [34] ++ js " threw: " ++ err.

Definition nodeOf (rule : Rule) : PayloadNode :=
  {| node_name := rule_name rule; node_type := rule_type rule |}.

(** The loop over [rules]; [matched] is the array built so far. *)
Fixpoint evaluateRules (rules : list Rule) (provider : Provider)
    (depsMap : DepsMap) (envVarNames : list jsstring)
    (matched : list PayloadNode) : Async (list PayloadNode) :=
  match rules with
  | [] => ret matched
  | rule :: rest =>
      matched' <-
        tryCatch
          (paths <- get allPaths ;;
           exts <- get extensionSet ;;
           names <- get allFileNames ;;
           hit <- evaluateRule rule paths exts names (readCached provider)
                    provider depsMap envVarNames ;;
           ret (if hit : bool then matched ++ [nodeOf rule] else matched))
          (fun err => warn (warningText rule err) ;; ret matched) ;;
      evaluateRules rest provider depsMap envVarNames matched'
  end.

(** [analyser]; the catalog [rules] is the imported constant of the
    source. *)
Definition analyser (ex : Extractors) (rules : list Rule) (provider : Provider)
  : Async Payload :=
  rootFiles <- awaitListFiles provider (js ".") ;;
  dirs <- indexRoot rootFiles [] ;;
  walkDirs provider dirs ;;
  depsMap <- extractDependencies ex provider ;;
  envVarNames <- collectFrom provider envFiles extractEnvVarNames [] ;;
  matched <- evaluateRules rules provider depsMap envVarNames [] ;;
  ret {| childs := matched |}.

(** ** The provider on the local disk ([src/provider/fs.ts]) *)

(** What Node gives [FSProvider]: [path.resolve], [path.posix.join],
    and, from [fs-extra], [pathExists] (never rejects), [readdir] with
    file types, and [readFile]. *)
Record Dirent := {
  dirent_name : jsstring;
  dirent_isDirectory : bool
}.

Record Host := {
  path_resolve : jsstring -> jsstring -> jsstring;
  path_posix_join : jsstring -> jsstring -> jsstring;
  fs_pathExists : jsstring -> bool;
  fs_readdir : jsstring -> result (list Dirent);
  fs_readFile : jsstring -> result jsstring
}.

Definition FSProvider (host : Host) (root : jsstring) : Provider :=
  {| listFiles dir :=
       let target := path_resolve host root dir in
       if negb (fs_pathExists host target) then Ok []
       else
         match fs_readdir host target with
         | Throw e => Throw e
         | Ok entries =>
             Ok (map
                   (fun e =>
                      {| pf_path :=
                           path_posix_join host
                             (if bool_decide (dir = js ".") then js "" else dir)
                             (dirent_name e);
                         pf_name := dirent_name e;
                         pf_isDirectory := dirent_isDirectory e |})
                   (List.filter
                      (fun e => negb (startsWith (dirent_name e) (js ".")))
                      entries))
         end;
     readFile filePath := fs_readFile host (path_resolve host root filePath);
     exists_ filePath :=
       Ok (fs_pathExists host (path_resolve host root filePath)) |}.

(** ** Vocabulary of the properties *)

(** What a read of [filePath] leaves in the cache: the text, or [null]
    when the provider rejects. *)
Definition readResult (provider : Provider) (filePath : jsstring)
  : option jsstring :=
  match readFile provider filePath with
  | Ok content => Some content
  | Throw _ => None
  end.

(** The entries a directory listing contributes: none when it rejects. *)
Definition childrenOf (provider : Provider) (dir : jsstring)
  : list ProviderFile :=
  match listFiles provider dir with
  | Ok children => children
  | Throw _ => []
  end.

(** The extension the index records for a file name: the text from the
    last dot on, when that dot is not the first character. *)
Definition extensionOf (name : jsstring) : option jsstring :=
  let dotIdx := lastIndexOf name 46 in
  if (0 <? dotIdx)%Z then Some (substring name dotIdx) else None.

Definition rootExtension (f : ProviderFile) : option jsstring :=
  if pf_isDirectory f then None else extensionOf (pf_name f).

(** Number of [readFile] calls for [filePath] among the calls made. *)
Definition isReadOf (filePath : jsstring) (c : IOCall) : bool :=
  match c with
  | CallReadFile p => bool_decide (p = filePath)
  | _ => false
  end.

Definition readCount (filePath : jsstring) (cs : list IOCall) : nat :=
  length (List.filter (isReadOf filePath) cs).

(** The cache holds, for each path it knows, what the provider answers
    for that path. *)
Definition cacheSound (provider : Provider) (st : Scan) : Prop :=
  forall p v, contentCache st !! p = Some v -> v = readResult provider p.

(** Every path read so far is in the cache, and was read once. *)
Definition readsMemoized (st : Scan) : Prop :=
  forall p, (0 < readCount p (calls st))%nat ->
            is_Some (contentCache st !! p) /\ readCount p (calls st) = 1%nat.

Definition cacheInv (provider : Provider) (st : Scan) : Prop :=
  cacheSound provider st /\ readsMemoized st.

(** The five strategies of a rule, each as a computation of its own. *)
Definition markerFilesStrategy (rule : Rule) (provider : Provider)
    (rootNames allPaths : gset jsstring) : Async bool :=
  match rule_match rule ≫= files with
  | Some fs => filesLoop provider rootNames allPaths fs
  | None => ret false
  end.

Definition extensionsStrategy (rule : Rule) (extensionSet : gset jsstring)
  : Async bool :=
  ret match rule_match rule ≫= extensions with
      | Some exts => extensionsLoop extensionSet exts
      | None => false
      end.

Definition contentPatternsStrategy (rule : Rule)
    (readCached : jsstring -> Async (option jsstring)) : Async bool :=
  match rule_match rule ≫= contentPatterns with
  | Some cps => contentPatternsLoop readCached cps
  | None => ret false
  end.

Definition dependenciesStrategy (rule : Rule) (depsMap : DepsMap) : Async bool :=
  ret match dependencies rule with
      | Some deps => dependenciesLoop depsMap deps
      | None => false
      end.

Definition dotenvStrategy (rule : Rule) (envVarNames : list jsstring)
  : Async bool :=
  ret match dotenv rule with
      | Some prefixes =>
          (0 <? length envVarNames)%nat && dotenvLoop envVarNames prefixes
      | None => false
      end.

Definition strategiesOf (rule : Rule)
    (allPaths extensionSet rootNames : gset jsstring)
    (readCached : jsstring -> Async (option jsstring))
    (provider : Provider) (depsMap : DepsMap) (envVarNames : list jsstring)
  : list (Async bool) :=
  [ markerFilesStrategy rule provider rootNames allPaths;
    extensionsStrategy rule extensionSet;
    contentPatternsStrategy rule readCached;
    dependenciesStrategy rule depsMap;
    dotenvStrategy rule envVarNames ].

(** Strategies tried in order, stopping at the first that is satisfied. *)
Fixpoint firstSatisfied (strategies : list (Async bool)) : Async bool :=
  match strategies with
  | [] => ret false
  | s :: rest =>
      satisfied <- s ;;
      if satisfied then ret true else firstSatisfied rest
  end.

(** [allUnsatisfied ss st st']: run in order from [st], every strategy of
    [ss] returns [false], and the state is then [st']. *)
Inductive allUnsatisfied : list (Async bool) -> Scan -> Scan -> Prop :=
| unsat_nil st : allUnsatisfied [] st st
| unsat_cons s ss st st1 st2 :
    s st = (st1, Ok false) ->
    allUnsatisfied ss st1 st2 ->
    allUnsatisfied (s :: ss) st st2.

(** A rule that declares no strategy. *)
Definition declaresNoStrategy (rule : Rule) : Prop :=
  rule_match rule ≫= files = None
  /\ rule_match rule ≫= extensions = None
  /\ rule_match rule ≫= contentPatterns = None
  /\ dependencies rule = None
  /\ dotenv rule = None.

(** The outcome of a rule as a function of the repository alone. *)
Fixpoint filesOutcome (provider : Provider) (rootNames allPaths : gset jsstring)
    (fs : list jsstring) : result bool :=
  match fs with
  | [] => Ok false
  | f :: rest =>
      if bool_decide (f ∈ rootNames) || bool_decide (f ∈ allPaths) then Ok true
      else
        match exists_ provider f with
        | Ok true => Ok true
        | Ok false => filesOutcome provider rootNames allPaths rest
        | Throw e => Throw e
        end
  end.

Fixpoint contentOutcome (provider : Provider) (cps : list ContentPattern)
  : bool :=
  match cps with
  | [] => false
  | cp :: rest =>
      match readResult provider (cp_file cp) with
      | None => contentOutcome provider rest
      | Some text =>
          patternsLoop text (cp_patterns cp) || contentOutcome provider rest
      end
  end.

Definition ruleOutcome (provider : Provider)
    (allPaths extensionSet rootNames : gset jsstring)
    (depsMap : DepsMap) (envVarNames : list jsstring) (rule : Rule)
  : result bool :=
  match
    match rule_match rule ≫= files with
    | Some fs => filesOutcome provider rootNames allPaths fs
    | None => Ok false
    end
  with
  | Throw e => Throw e
  | Ok true => Ok true
  | Ok false =>
      Ok (match rule_match rule ≫= extensions with
          | Some exts => extensionsLoop extensionSet exts
          | None => false
          end
          || match rule_match rule ≫= contentPatterns with
             | Some cps => contentOutcome provider cps
             | None => false
             end
          || match dependencies rule with
             | Some deps => dependenciesLoop depsMap deps
             | None => false
             end
          || match dotenv rule with
             | Some prefixes =>
                 (0 <? length envVarNames)%nat
                 && dotenvLoop envVarNames prefixes
             | None => false
             end)
  end.

Definition isOkTrue (r : result bool) : bool :=
  match r with
  | Ok true => true
  | _ => false
  end.

(** The warning a rule leaves, if its evaluation throws. *)
Definition warningOf (outcome : Rule -> result bool) (rule : Rule)
  : option jsstring :=
  match outcome rule with
  | Throw err => Some (warningText rule err)
  | Ok _ => None
  end.

(** Steps 1 to 4 of [analyser]: the index is in the state, the dependency
    table and the variable names are returned. *)
Definition prepare (ex : Extractors) (provider : Provider)
  : Async (DepsMap * list jsstring) :=
  rootFiles <- awaitListFiles provider (js ".") ;;
  dirs <- indexRoot rootFiles [] ;;
  walkDirs provider dirs ;;
  depsMap <- extractDependencies ex provider ;;
  envVarNames <- collectFrom provider envFiles extractEnvVarNames [] ;;
  ret (depsMap, envVarNames).

(** The requirements extractor, line by line, in the words of its
    description. *)
Fixpoint takeUntil (stop : N -> bool) (s : jsstring) : jsstring :=
  match s with
  | [] => []
  | c :: r => if stop c then [] else c :: takeUntil stop r
  end.

Definition requirementName (line : jsstring) : option jsstring :=
  let l := trim (stripComment line) in
  if truthy l && negb (startsWith l (js "-")) then
    let name := trim (takeUntil isSpecifierStart l) in
    if truthy name then Some name else None
  else None.

(** What [collectFrom] gathers from the files [names]. *)
Definition textsOf (provider : Provider) (names : list jsstring)
    (extract : jsstring -> list jsstring) : list jsstring :=
  concat (map (fun f => whenText (readResult provider f) extract []) names).

(** The dependency table as a function of what the provider reads. *)
Definition dependencyTable (ex : Extractors) (provider : Provider) : DepsMap :=
  fun t =>
    match t with
    | DepType.npm =>
        whenText (readResult provider (js "package.json")) (extractNpmDeps ex) []
    | DepType.python =>
        let python := textsOf provider requirementsFiles extractPythonDeps in
        whenText (readResult provider (js "pyproject.toml"))
          (fun text =>
             match pyprojectDependencies ex text with
             | Some depSection =>
                 python ++ extractPythonDeps (removeQuotes depSection)
             | None => python
             end)
          python
    | DepType.ruby =>
        whenText (readResult provider (js "Gemfile")) (extractRubyDeps ex) []
    | DepType.golang =>
        whenText (readResult provider (js "go.mod")) (extractGoDeps ex) []
    | DepType.rust =>
        whenText (readResult provider (js "Cargo.toml")) (extractCargoDeps ex) []
    | DepType.docker =>
        let docker := textsOf provider composeFiles (extractDockerImages ex) in
        whenText (readResult provider (js "Dockerfile"))
          (fun text => docker ++ map stripTag (dockerfileFrom ex text))
          docker
    | DepType.php =>
        whenText (readResult provider (js "composer.json"))
          (extractComposerDeps ex) []
    end.

(** The names of the entries one level below the root: the children of
    the root directories whose listing succeeds. *)
Definition secondLevel (provider : Provider) (rootFiles : list ProviderFile)
  : list ProviderFile :=
  concat (map (childrenOf provider)
            (map pf_name (List.filter pf_isDirectory rootFiles))).

(** The entries listed below the directories among [children]. *)
Definition grandchildrenOf (provider : Provider) (children : list ProviderFile)
  : list ProviderFile :=
  concat (map (fun c => if pf_isDirectory c
                        then childrenOf provider (pf_path c)
                        else [])
            children).

(** The entries two levels below the root. *)
Definition thirdLevel (provider : Provider) (rootFiles : list ProviderFile)
  : list ProviderFile :=
  grandchildrenOf provider (secondLevel provider rootFiles).

(** [sameIndex st st']: the three sets and the warnings of [st'] are
    those of [st]. *)
Definition sameIndex (st st' : Scan) : Prop :=
  allPaths st' = allPaths st
  /\ allFileNames st' = allFileNames st
  /\ extensionSet st' = extensionSet st
  /\ warnings st' = warnings st.

(** [sameCache st st']: the cache of [st'] is that of [st], and no
    [readFile] call was made in between. *)
Definition sameCache (st st' : Scan) : Prop :=
  contentCache st' = contentCache st
  /\ forall p, readCount p (calls st') = readCount p (calls st).

(** ** Vocabulary of the further properties *)

(** [emits Q m]: whatever the state, the provider calls [m] adds to the
    log all satisfy [Q], and [m] removes none. *)
Definition emits {A} (Q : IOCall -> Prop) (m : Async A) : Prop :=
  forall st, exists extra,
    calls (m st).1 = calls st ++ extra /\ Forall Q extra.

(** The directories a call log lists, in order. *)
Definition listDirsOf (cs : list IOCall) : list jsstring :=
  omap (fun c => match c with CallListFiles dir => Some dir | _ => None end) cs.

(** The listings of the walk below one root directory: the directory,
    then each of its children that is a directory. *)
Definition listingsBelow (provider : Provider) (dir : jsstring) : list jsstring :=
  dir :: map pf_path (List.filter pf_isDirectory (childrenOf provider dir)).

(** The listings of a whole scan, in order. *)
Definition scanListings (provider : Provider) (rootFiles : list ProviderFile)
  : list jsstring :=
  js "." :: concat (map (listingsBelow provider)
                      (map pf_name (List.filter pf_isDirectory rootFiles))).

(** The files steps 3 and 4 of [analyser] ask the cache for, in order. *)
Definition manifestFiles : list jsstring :=
  js "package.json" :: requirementsFiles
  ++ [js "pyproject.toml"; js "Gemfile"; js "go.mod"; js "Cargo.toml";
      js "composer.json"]
  ++ composeFiles ++ js "Dockerfile" :: envFiles.

(** The provider calls the evaluation of [rule] may make: an existence
    check for one of its marker files that the index does not hold, or a
    read of the target file of one of its content patterns. *)
Definition ruleCall (rootNames allPaths : gset jsstring) (rule : Rule)
    (c : IOCall) : Prop :=
  (exists fs f, rule_match rule ≫= files = Some fs /\ f ∈ fs
                /\ (f ∉ rootNames) /\ (f ∉ allPaths) /\ c = CallExists f)
  \/ (exists cps cp, rule_match rule ≫= contentPatterns = Some cps /\ cp ∈ cps
                     /\ c = CallReadFile (cp_file cp)).

(** [readsExactly L m]: run where none of [L] is cached, [m] returns,
    having read the files of [L] once each, in order, and nothing else;
    the cache is unchanged elsewhere. *)
Definition readsExactly {A} (L : list jsstring) (m : Async A) : Prop :=
  forall st,
    (forall p, p ∈ L -> contentCache st !! p = None) ->
    exists st' a,
      m st = (st', Ok a)
      /\ calls st' = calls st ++ map CallReadFile L
      /\ (forall q, q ∉ L -> contentCache st' !! q = contentCache st !! q).

(** The dotenv extractor, line by line. *)
Definition envVarName (line : jsstring) : option jsstring :=
  let l := trim line in
  if truthy l && negb (startsWith l (js "#")) then
    let name := trim (takeUntil (fun c => c =? 61) l) in
    if truthy name then Some name else None
  else None.

(** ** The Cargo extractor ([extractCargoDeps])

    Its three regular expressions are anchored at the start of the line
    and are read here by what they match. *)
Module Cargo.

(** A letter of a pattern under the [i] flag, for a pattern letter [p]
    in ASCII lower case: the code units that canonicalise as [p] does are
    [p] and its ASCII capital. *)
Definition sameLetter (c p : N) : bool := (c =? p) || (c + 32 =? p).

Fixpoint startsWithLetters (s pat : jsstring) {struct pat} : bool :=
  match pat, s with
  | [], _ => true
  | _ :: _, [] => false
  | p :: ps, c :: cs => sameLetter c p && startsWithLetters cs ps
  end.

(** What follows the first place where [pat] occurs in [s], in either
    case of each letter. *)
Fixpoint afterLetters (pat s : jsstring) : option jsstring :=
  if startsWithLetters s pat then Some (drop (length pat) s)
  else
    match s with
    | [] => None
    | _ :: r => afterLetters pat r
    end.

(** [/^\[.*dependencies.*\]/i.test(line)]: the atom [.] stops at a line
    terminator, so the match lies before the first one. *)
Definition isDependenciesHeader (line : jsstring) : bool :=
  match line with
  | [] => false
  | c :: r =>
      (c =? 91)
      && match afterLetters (js "dependencies") (takeUntil isLineTerminator r) with
         | Some rest => existsb (fun d => d =? 93) rest
         | None => false
         end
  end.

(** [/^\[/.test(line)] *)
Definition isHeader (line : jsstring) : bool := startsWith line (js "[").

(** [line.match(/^(\S+)\s*=/)] with the group [\S+] tried at [k] code
    units, then at fewer: the greedy group gives back one unit at a time
    until [\s*=] matches what follows. The class [\s] is white space and
    line terminators, what [trimStart] removes. *)
Fixpoint matchKey (line : jsstring) (k : nat) : option jsstring :=
  match k with
  | O => None
  | S k' =>
      if startsWith (trimStart (drop k line)) (js "=") then Some (take k line)
      else matchKey line k'
  end.

(** Group 1 of the match, or [None] for [null]: the group first takes
    every unit before the first one of [\s]. *)
Definition key (line : jsstring) : option jsstring :=
  matchKey line (length (takeUntil isTrimmable line)).

(** The loop over the lines, with its flag [inDeps] and its array
    [names]. *)
Fixpoint loop (inDeps : bool) (names : list jsstring) (lines : list jsstring)
  : list jsstring :=
  match lines with
  | [] => names
  | line :: rest =>
      if isDependenciesHeader line then loop true names rest
      else if isHeader line then loop false names rest
      else if inDeps then
        match key line with
        | Some name => loop inDeps (names ++ [name]) rest
        | None => loop inDeps names rest
        end
      else loop inDeps names rest
  end.

(** [extractCargoDeps] *)
Definition extractCargoDeps (content : jsstring) : list jsstring :=
  loop false [] (splitLines content).

(** A manifest written out section by section: the header
    [[<title>]], then one line [<name> = <value>] for each entry. *)
Definition section (title : jsstring) (entries : list (jsstring * jsstring))
  : jsstring :=
  js "[" ++ title ++ js "]" ++ [10]
  ++ concat (map (fun e => e.1 ++ js " = " ++ e.2 ++ [10]) entries).

Definition manifest (sections : list (jsstring * list (jsstring * jsstring)))
  : jsstring :=
  concat (map (fun s => section s.1 s.2) sections).

(** [name] is the key of a line of [lines] that has no header line
    before it, and is none itself. *)
Definition keyedBelow (lines : list jsstring) (name : jsstring) : Prop :=
  exists body line after,
    lines = body ++ line :: after
    /\ Forall (fun l => isHeader l = false) (body ++ [line])
    /\ key line = Some name.

(** [name] is the key of a line whose nearest header above is a
    dependencies header. *)
Definition declaredIn (lines : list jsstring) (name : jsstring) : Prop :=
  exists before header after,
    lines = before ++ header :: after
    /\ isDependenciesHeader header = true
    /\ keyedBelow after name.

(** A string without LF and CR. *)
Definition noLineBreak (s : jsstring) : Prop :=
  Forall (fun c => c <> 10 /\ c <> 13) s.

(** An entry [name = value] whose name is not empty, holds nothing of
    [\s] and does not begin with [[], and whose value stays on its
    line. *)
Definition plainEntry (e : jsstring * jsstring) : Prop :=
  e.1 <> []
  /\ Forall (fun c => isTrimmable c = false) e.1
  /\ startsWith e.1 (js "[") = false
  /\ noLineBreak e.2.

End Cargo.

(** ** Reporter ([src/scan/reporter.ts]) *)

(** A [PayloadNode] with its optional [childs]. The nodes the analyser
    builds have none. *)
Inductive TreeNode : Type :=
| Node (name : jsstring) (type : TechType.t) (childs : option (list TreeNode)).

Definition treeOf (n : PayloadNode) : TreeNode :=
  Node (node_name n) (node_type n) None.

(** The keys of [ScanResults]. *)
Module Bucket.
Inductive t : Set :=
| languages | frameworks | ui | databases | orm | ai | monitoring
| analytics | cloud | hosting | ci | testing | auth | payment
| notification | cms | queue | storage | iac | security | automation
| builders | linters | packageManagers | ssg | validation | tools.

#[global] Instance eq_dec : EqDecision t.
Proof. solve_decision. Defined.

(** The keys, in the order [emptyResults] creates them. *)
Definition all : list t :=
  [languages; frameworks; ui; databases; orm; ai; monitoring; analytics;
   cloud; hosting; ci; testing; auth; payment; notification; cms; queue;
   storage; iac; security; automation; builders; linters; packageManagers;
   ssg; validation; tools].
End Bucket.

(** [categoryMap] *)
Definition categoryMap (type : TechType.t) : Bucket.t :=
  match type with
  | TechType.language => Bucket.languages
  | TechType.framework => Bucket.frameworks
  | TechType.ui_framework => Bucket.ui
  | TechType.ui => Bucket.ui
  | TechType.db => Bucket.databases
  | TechType.orm => Bucket.orm
  | TechType.ai => Bucket.ai
  | TechType.monitoring => Bucket.monitoring
  | TechType.analytics => Bucket.analytics
  | TechType.cloud => Bucket.cloud
  | TechType.hosting => Bucket.hosting
  | TechType.ci => Bucket.ci
  | TechType.test => Bucket.testing
  | TechType.auth => Bucket.auth
  | TechType.payment => Bucket.payment
  | TechType.notification => Bucket.notification
  | TechType.cms => Bucket.cms
  | TechType.queue => Bucket.queue
  | TechType.storage => Bucket.storage
  | TechType.iac => Bucket.iac
  | TechType.security => Bucket.security
  | TechType.automation => Bucket.automation
  | TechType.builder => Bucket.builders
  | TechType.linter => Bucket.linters
  | TechType.package_manager => Bucket.packageManagers
  | TechType.ssg => Bucket.ssg
  | TechType.validation => Bucket.validation
  | TechType.tool => Bucket.tools
  | TechType.saas => Bucket.tools
  | TechType.runtime => Bucket.tools
  | TechType.app => Bucket.tools
  | TechType.network => Bucket.tools
  | TechType.unknown => Bucket.tools
  end.

(** The object [categorise] fills: every key is present while it
    works. *)
Definition Buckets : Type := Bucket.t -> list jsstring.

(** [emptyResults()] *)
Definition emptyResults : Buckets := fun _ => [].

(** [results[bucket].push(name)] *)
Definition push (bucket : Bucket.t) (name : jsstring) (results : Buckets)
  : Buckets :=
  fun k => if decide (k = bucket) then results k ++ [name] else results k.

(** [visit]; every [TechType] is a key of [categoryMap], so the
    fallback to [tools] is never taken. *)
Fixpoint visit (node : TreeNode) (results : Buckets) : Buckets :=
  match node with
  | Node name type childs =>
      let results := push (categoryMap type) name results in
      match childs with
      | Some cs => fold_left (fun r c => visit c r) cs results
      | None => results
      end
  end.

(** [[...new Set(arr)]]: the first occurrence of each string, in
    order. *)
Fixpoint dedupeFrom (seen : list jsstring) (arr : list jsstring)
  : list jsstring :=
  match arr with
  | [] => []
  | x :: rest =>
      if bool_decide (x ∈ seen) then dedupeFrom seen rest
      else x :: dedupeFrom (x :: seen) rest
  end.

Definition dedupe (arr : list jsstring) : list jsstring := dedupeFrom [] arr.

(** [categorise]: the keys left after the empty arrays are deleted, in
    key order, each with its array. *)
Definition categorise (nodes : list TreeNode)
  : list (Bucket.t * list jsstring) :=
  let results := fold_left (fun r n => visit n r) nodes emptyResults in
  let results : Buckets := fun k => dedupe (results k) in
  omap (fun k => match results k with
                 | [] => None
                 | names => Some (k, names)
                 end) Bucket.all.

Inductive ReportStatus := success | error.

Record RepoReport := {
  repo : jsstring;
  status : ReportStatus;
  results : option (list (Bucket.t * list jsstring));
  report_error : option jsstring
}.

(** [buildSuccessReport] *)
Definition buildSuccessReport (repoName : jsstring) (payload : Payload)
  : RepoReport :=
  {| repo := repoName; status := success;
     results := Some (categorise (map treeOf (childs payload)));
     report_error := None |}.

(** The nodes of a tree, parents before children, as name and type. *)
Fixpoint flatten (node : TreeNode) : list (jsstring * TechType.t) :=
  match node with
  | Node name type childs =>
      (name, type)
      :: match childs with
         | Some cs => concat (map flatten cs)
         | None => []
         end
  end.

(** The names among [entries] whose type belongs to [bucket]. *)
Definition namesFor (bucket : Bucket.t) (entries : list (jsstring * TechType.t))
  : list jsstring :=
  map fst (List.filter (fun nt => bool_decide (categoryMap nt.2 = bucket)) entries).

(** ** Input parser ([src/scan/input.ts]) *)

(** [s.replace(re, '')] with [re] one or more [/] up to the end of the
    string: the match starts at the leftmost [/] that has only [/]
    after it. *)
Fixpoint stripTrailingSlashes (s : jsstring) : jsstring :=
  match s with
  | [] => []
  | c :: r =>
      if (c =? 47) && forallb (fun d => d =? 47) r then []
      else c :: stripTrailingSlashes r
  end.

(** [s.replace(re, '')] with [re] the text [.git] at the end of the
    string. *)
Fixpoint stripGitSuffix (s : jsstring) : jsstring :=
  match s with
  | [] => []
  | c :: r =>
      if bool_decide (c :: r = js ".git") then []
      else c :: stripGitSuffix r
  end.

(** [pieces.pop()] of an array that [split] returned: its last
    element. *)
Definition pop (pieces : list jsstring) : jsstring := List.last pieces [].

(** [nameFromUrl] *)
Definition nameFromUrl (url : jsstring) : jsstring :=
  let cleaned := stripGitSuffix (stripTrailingSlashes url) in
  let last := pop (splitOn (fun c => c =? 47) cleaned) in
  if truthy last then last else js "unknown".

Record RepoEntry := {
  entry_name : jsstring;
  entry_url : jsstring
}.

(** What Node gives [parseInputFile]: [path.resolve], [fs.pathExists],
    [fs.readFile], and [JSON.parse] read as an array of objects with an
    optional [name] and a [url]. *)
Record InputHost := {
  input_resolve : jsstring -> jsstring;
  input_pathExists : jsstring -> bool;
  input_readFile : jsstring -> result jsstring;
  JSON_parse : jsstring -> result (list (option jsstring * jsstring))
}.

(** [parseInputFile]; a thrown [Error] is kept as the text it prints. *)
Definition parseInputFile (host : InputHost) (filePath : jsstring)
  : result (list RepoEntry) :=
  let abs := input_resolve host filePath in
  if negb (input_pathExists host abs)
  then Throw (js "Error: Input file not found: " ++ abs)
  else
    match input_readFile host abs with
    | Throw e => Throw e
    | Ok raw =>
        let trimmed := trim raw in
        if startsWith trimmed (js "[") then
          match JSON_parse host trimmed with
          | Throw e => Throw e
          | Ok arr =>
              Ok (map (fun item =>
                         {| entry_name :=
                              match item.1 with
                              | Some name => name
                              | None => nameFromUrl item.2
                              end;
                            entry_url := item.2 |}) arr)
          end
        else
          Ok (map (fun url => {| entry_name := nameFromUrl url; entry_url := url |})
                (List.filter
                   (fun l => (0 <? length l)%nat && negb (startsWith l (js "#")))
                   (map trim (splitLines trimmed))))
    end.

(** ** Sample repositories and rules *)

(** Extractors that find nothing, for scans whose manifests are text the
    plain extractors read. *)
Definition silentExtractors : Extractors :=
  {| extractNpmDeps := fun _ => [];
     extractRubyDeps := fun _ => [];
     extractGoDeps := fun _ => [];
     extractCargoDeps := fun _ => [];
     extractComposerDeps := fun _ => [];
     extractDockerImages := fun _ => [];
     pyprojectDependencies := fun _ => None;
     dockerfileFrom := fun _ => [] |}.

Definition file (path name : string) : ProviderFile :=
  {| pf_path := js path; pf_name := js name; pf_isDirectory := false |}.

Definition directory (path name : string) : ProviderFile :=
  {| pf_path := js path; pf_name := js name; pf_isDirectory := true |}.

(** A repository with [app.tsx], [requirements.txt] and a hidden [.env]
    at its root, and [docker/Dockerfile] and [docker/legacy/old.py]
    below. *)
Definition sampleRepo : Provider :=
  {| listFiles dir :=
       if bool_decide (dir = js ".") then
         Ok [directory "docker" "docker"; file "app.tsx" "app.tsx";
             file "requirements.txt" "requirements.txt"]
       else if bool_decide (dir = js "docker") then
         Ok [file "docker/Dockerfile" "Dockerfile";
             directory "docker/legacy" "legacy"]
       else if bool_decide (dir = js "docker/legacy") then
         Ok [file "docker/legacy/old.py" "old.py"]
       else Ok [];
     readFile p :=
       if bool_decide (p = js "requirements.txt") then
         Ok (js "django>=4.2  # web" ++ [10] ++ js "-r base.txt" ++ [10])
       else if bool_decide (p = js ".env") then
         Ok (js "POSTGRES_URL=postgres://db" ++ [10])
       else Throw (js "ENOENT");
     exists_ p :=
       Ok (bool_decide (p ∈ [js "docker"; js "app.tsx"; js "requirements.txt";
                             js ".env"; js "docker/Dockerfile";
                             js "docker/legacy"; js "docker/legacy/old.py"])) |}.

(** The same repository behind a provider whose existence check rejects
    for one path. *)
Definition flakyRepo : Provider :=
  {| listFiles := listFiles sampleRepo;
     readFile := readFile sampleRepo;
     exists_ p :=
       if bool_decide (p = js "angular.json") then Throw (js "EACCES")
       else exists_ sampleRepo p |}.

(** A disk where nothing exists. *)
Definition emptyHost : Host :=
  {| path_resolve root p := root ++ js "/" ++ p;
     path_posix_join a b := if bool_decide (a = []) then b else a ++ js "/" ++ b;
     fs_pathExists := fun _ => false;
     fs_readdir := fun _ => Throw (js "ENOENT");
     fs_readFile := fun _ => Throw (js "ENOENT") |}.

Definition missingRepo : Provider := FSProvider emptyHost (js "/tmp/nowhere").

Definition pip (name : string) : RuleDependency :=
  {| dep_type := DepType.python; dep_name := Str (js name) |}.

Definition npm (name : string) : RuleDependency :=
  {| dep_type := DepType.npm; dep_name := Str (js name) |}.

Definition typescriptRule : Rule :=
  {| rule_id := js "typescript"; rule_name := js "TypeScript";
     rule_type := TechType.language;
     rule_match :=
       Some {| files := Some [js "tsconfig.json"];
               extensions := Some [js ".ts"; js ".tsx"];
               contentPatterns := None |};
     dependencies := None; dotenv := None |}.

Definition pythonRule : Rule :=
  {| rule_id := js "python-sources"; rule_name := js "Python";
     rule_type := TechType.language;
     rule_match :=
       Some {| files := None; extensions := Some [js ".py"];
               contentPatterns := None |};
     dependencies := None; dotenv := None |}.

Definition tsxRule : Rule :=
  {| rule_id := js "tsx"; rule_name := js "TSX";
     rule_type := TechType.language;
     rule_match :=
       Some {| files := None; extensions := Some [js ".tsx"];
               contentPatterns := None |};
     dependencies := None; dotenv := None |}.

Definition djangoRule : Rule :=
  {| rule_id := js "django"; rule_name := js "Django";
     rule_type := TechType.framework;
     rule_match :=
       Some {| files := Some [js "manage.py"]; extensions := None;
               contentPatterns := None |};
     dependencies := Some [pip "django"; pip "Django"]; dotenv := None |}.

Definition angularRule : Rule :=
  {| rule_id := js "angular"; rule_name := js "Angular";
     rule_type := TechType.ui_framework;
     rule_match :=
       Some {| files := Some [js "angular.json"]; extensions := None;
               contentPatterns := None |};
     dependencies := Some [npm "@angular/core"]; dotenv := None |}.

Definition dockerRule : Rule :=
  {| rule_id := js "docker"; rule_name := js "Docker";
     rule_type := TechType.hosting;
     rule_match :=
       Some {| files := Some [js "Dockerfile"; js "docker-compose.yml"];
               extensions := None; contentPatterns := None |};
     dependencies := None; dotenv := None |}.

Definition postgresqlRule : Rule :=
  {| rule_id := js "postgresql"; rule_name := js "PostgreSQL";
     rule_type := TechType.db;
     rule_match := None;
     dependencies := Some [npm "pg"; pip "psycopg2"];
     dotenv := Some [js "POSTGRES_"; js "PG_"] |}.

Definition vacuousRule : Rule :=
  {| rule_id := js "nothing"; rule_name := js "Nothing";
     rule_type := TechType.unknown;
     rule_match := None; dependencies := None; dotenv := None |}.

(** The catalog's rule for C++. *)
Definition cplusplusRule : Rule :=
  {| rule_id := js "cplusplus"; rule_name := js "C++";
     rule_type := TechType.language;
     rule_match :=
       Some {| files := Some [js "CMakeLists.txt"; js "Makefile"];
               extensions := Some [js ".cpp"; js ".cxx"; js ".cc"; js ".hpp"];
               contentPatterns := None |};
     dependencies := None; dotenv := None |}.

(** A repository that holds [docs/Makefile] and nothing else. *)
Definition docsRepo : Provider :=
  {| listFiles dir :=
       if bool_decide (dir = js ".") then Ok [directory "docs" "docs"]
       else if bool_decide (dir = js "docs") then
         Ok [file "docs/Makefile" "Makefile"]
       else Ok [];
     readFile := fun _ => Throw (js "ENOENT");
     exists_ p := Ok (bool_decide (p ∈ [js "docs"; js "docs/Makefile"])) |}.

Definition sampleCatalog : list Rule :=
  [typescriptRule; djangoRule; angularRule; dockerRule; postgresqlRule;
   vacuousRule].

(** A repository whose root cannot be listed. *)
Definition lockedRepo : Provider :=
  {| listFiles := fun _ => Throw (js "EACCES");
     readFile := fun _ => Throw (js "EACCES");
     exists_ := fun _ => Ok false |}.

(** A Maven project: [pom.xml] at the root, naming Spring Boot. *)
Definition mavenRepo : Provider :=
  {| listFiles dir :=
       if bool_decide (dir = js ".") then Ok [file "pom.xml" "pom.xml"]
       else Ok [];
     readFile p :=
       if bool_decide (p = js "pom.xml") then
         Ok (js "<artifactId>spring-boot-starter</artifactId>")
       else Throw (js "ENOENT");
     exists_ p := Ok (bool_decide (p = js "pom.xml")) |}.

Definition springRule : Rule :=
  {| rule_id := js "spring"; rule_name := js "Spring";
     rule_type := TechType.framework;
     rule_match :=
       Some {| files := None; extensions := None;
               contentPatterns :=
                 Some [ {| cp_file := js "pom.xml";
                           cp_patterns := [Str (js "spring-boot");
                                           Str (js "spring-framework")] |};
                        {| cp_file := js "build.gradle";
                           cp_patterns := [Str (js "spring-boot");
                                           Str (js "spring-framework")] |} ] |};
     dependencies := None; dotenv := None |}.

(** A disk with [/repo], holding [.git], [.env], [main.py] and [src],
    and [src/.cache] and [src/util.py] below. *)
Definition sampleHost : Host :=
  {| path_resolve root p :=
       if bool_decide (p = js ".") then root else root ++ js "/" ++ p;
     path_posix_join a b := if bool_decide (a = []) then b else a ++ js "/" ++ b;
     fs_pathExists p :=
       bool_decide (p ∈ [js "/repo"; js "/repo/.git"; js "/repo/.env";
                         js "/repo/main.py"; js "/repo/src";
                         js "/repo/src/.cache"; js "/repo/src/util.py"]);
     fs_readdir p :=
       if bool_decide (p = js "/repo") then
         Ok [ {| dirent_name := js ".git"; dirent_isDirectory := true |};
              {| dirent_name := js ".env"; dirent_isDirectory := false |};
              {| dirent_name := js "main.py"; dirent_isDirectory := false |};
              {| dirent_name := js "src"; dirent_isDirectory := true |} ]
       else if bool_decide (p = js "/repo/src") then
         Ok [ {| dirent_name := js ".cache"; dirent_isDirectory := true |};
              {| dirent_name := js "util.py"; dirent_isDirectory := false |} ]
       else Throw (js "ENOTDIR");
     fs_readFile p :=
       if bool_decide (p = js "/repo/.env") then Ok (js "PG_HOST=db")
       else Throw (js "ENOENT") |}.

(** A list of repositories, one URL per line. *)
Definition sampleInput : InputHost :=
  {| input_resolve p := js "/work/" ++ p;
     input_pathExists p := bool_decide (p = js "/work/repos.txt");
     input_readFile p :=
       if bool_decide (p = js "/work/repos.txt") then
         Ok (js "# repositories" ++ [10]
             ++ js "https://github.com/org/repo.git" ++ [13; 10]
             ++ [10]
             ++ js "  https://github.com/org/other/ " ++ [10])
       else Throw (js "ENOENT");
     JSON_parse := fun _ => Throw (js "SyntaxError") |}.

(** A manifest with a package section and two dependencies sections. *)
Definition sampleManifest : list (jsstring * list (jsstring * jsstring)) :=
  [ (js "package", [(js "name", js "demo"); (js "version", js "0.1.0")]);
    (js "dependencies", [(js "serde", js "1.0"); (js "tokio", js "{ version = 1 }")]);
    (js "dev-dependencies", [(js "rand", js "0.8")]) ].

(** A table written without spaces in a dependencies section. *)
Definition denseManifest : jsstring :=
  js "[dependencies]" ++ [10] ++ js "serde={version=1}" ++ [10].

(** * Properties *)

(** ** Strings *)

Lemma startsWith_prefix (v p : jsstring) :
  startsWith v p = true <-> exists rest, v = p ++ rest.
Proof.
  revert v; induction p as [|c p IH]; intros v; simpl.
  - split; [intros _; exists v; reflexivity | reflexivity].
  - destruct v as [|d v].
    + split; [discriminate | intros [rest H]; discriminate].
    + rewrite andb_true_iff, N.eqb_eq, IH. split.
      * intros [-> [rest ->]]; exists rest; reflexivity.
      * intros [rest H]; injection H as -> ->; split; [reflexivity|].
        exists rest; reflexivity.
Qed.

Lemma first_splitOn (sep : N -> bool) (s : jsstring) :
  first (splitOn sep s) = takeUntil sep s.
Proof.
  induction s as [|c r IH]; simpl; [reflexivity|].
  destruct (sep c); [reflexivity|].
  destruct (splitOn sep r) as [|piece pieces]; simpl in *; now rewrite <- IH.
Qed.

(** [takeUntil stop s] is the part of [s] before the first unit that
    satisfies [stop]. *)
Lemma takeUntil_prefix (stop : N -> bool) (s : jsstring) :
  exists rest,
    s = takeUntil stop s ++ rest
    /\ forallb (fun c => negb (stop c)) (takeUntil stop s) = true
    /\ match rest with [] => True | c :: _ => stop c = true end.
Proof.
  induction s as [|c r (rest & Hs & Hall & Hrest)]; simpl.
  - exists []; auto.
  - destruct (stop c) eqn:Hc.
    + exists (c :: r); auto.
    + exists rest; simpl; rewrite Hc, Hall; split; [congruence | auto].
Qed.

(** On a line that holds no line terminator, the stripped comment starts
    at the first [#]. *)
Lemma stripComment_first_hash (l : jsstring) :
  forallb (fun d => negb (isLineTerminator d)) l = true ->
  stripComment l = takeUntil (fun c => c =? 35) l.
Proof.
  induction l as [|c r IH]; simpl; [reflexivity|].
  rewrite andb_true_iff; intros [_ Hr].
  rewrite Hr, andb_true_r, IH by assumption.
  destruct (c =? 35); reflexivity.
Qed.

Lemma filter_map_filter_map {A B C} (f : A -> B) (q : B -> bool)
    (g : B -> C) (p : C -> bool) (l : list A) :
  List.filter p (map g (List.filter q (map f l)))
  = omap (fun x => if q (f x)
                   then if p (g (f x)) then Some (g (f x)) else None
                   else None) l.
Proof.
  induction l as [|x l IH]; simpl; [reflexivity|].
  destruct (q (f x)); simpl; [|exact IH].
  destruct (p (g (f x))); simpl; now rewrite IH.
Qed.

Lemma omap_pointwise {A B} (f g : A -> option B) (l : list A) :
  (forall x, f x = g x) -> omap f l = omap g l.
Proof.
  intros Hfg. induction l as [|x l IH]; [reflexivity|].
  cbn. rewrite Hfg, IH. reflexivity.
Qed.

(** ** Requirements extractor *)

(** C9. The extractor on a line that ends in a carriage return with no
    line feed after it: the trailing [#] comment is not stripped, and the
    whole line, comment included, comes back as a name. The expression
    [#.*$] finds no match there, since [.] does not match the carriage
    return and [$] matches at the end of the string only; [trim] then
    removes the carriage return. The same line ended by a line feed, or
    by a carriage return and a line feed, gives the name alone. *)
Theorem extractPythonDeps_keeps_comment_before_lone_CR :
  extractPythonDeps (js "flask # web" ++ [13]) = [js "flask # web"]
  /\ stripComment (js "flask # web" ++ [13]) = js "flask # web" ++ [13]
  /\ extractPythonDeps (js "flask # web" ++ [10]) = [js "flask"]
  /\ extractPythonDeps (js "flask # web" ++ [13; 10]) = [js "flask"].
Proof.
  split; [|split; [|split]]; vm_compute; reflexivity.
Qed.

(** ** Computations *)

Lemma bind_ok {A B} (m : Async A) (k : A -> Async B) st st' a :
  m st = (st', Ok a) -> bind m k st = k a st'.
Proof. intros H. unfold bind. now rewrite H. Qed.

Lemma bind_throw {A B} (m : Async A) (k : A -> Async B) st st' e :
  m st = (st', Throw e) -> bind m k st = (st', Throw e).
Proof. intros H. unfold bind. now rewrite H. Qed.

Lemma sameIndex_refl st : sameIndex st st.
Proof. repeat split. Qed.

Lemma sameIndex_trans st1 st2 st3 :
  sameIndex st1 st2 -> sameIndex st2 st3 -> sameIndex st1 st3.
Proof.
  intros (H1 & H2 & H3 & H4) (K1 & K2 & K3 & K4).
  repeat split; congruence.
Qed.

Lemma sameCache_refl st : sameCache st st.
Proof. split; auto. Qed.

Lemma sameCache_trans st1 st2 st3 :
  sameCache st1 st2 -> sameCache st2 st3 -> sameCache st1 st3.
Proof.
  intros (H1 & H2) (K1 & K2). split; [congruence|].
  intros p. now rewrite K2, H2.
Qed.

(** ** Counting reads *)

Lemma readCount_app p cs cs' :
  readCount p (cs ++ cs') = (readCount p cs + readCount p cs')%nat.
Proof. unfold readCount. now rewrite List.filter_app, length_app. Qed.

Lemma readCount_snoc_other p cs c :
  isReadOf p c = false -> readCount p (cs ++ [c]) = readCount p cs.
Proof.
  intros H. rewrite readCount_app. unfold readCount at 2. simpl.
  rewrite H. simpl. lia.
Qed.

Lemma readCount_snoc_read p q cs :
  readCount p (cs ++ [CallReadFile q])
  = (readCount p cs + if bool_decide (q = p) then 1 else 0)%nat.
Proof.
  rewrite readCount_app. unfold readCount at 2. simpl.
  destruct (bool_decide (q = p)); reflexivity.
Qed.

(** ** The cache invariant *)

Lemma cacheInv_newScan provider : cacheInv provider newScan.
Proof.
  split.
  - intros p v H. simpl in H. rewrite lookup_empty in H. discriminate.
  - intros p H. simpl in H. unfold readCount in H. simpl in H. lia.
Qed.

Lemma cacheInv_sameCache provider st st' :
  sameCache st st' -> cacheInv provider st -> cacheInv provider st'.
Proof.
  intros (Hc & Hr) (Hs & Hm). split.
  - intros p v. rewrite Hc. apply Hs.
  - intros p. rewrite Hc, Hr. apply Hm.
Qed.

Lemma cacheInv_miss provider st st' p :
  cacheInv provider st ->
  contentCache st !! p = None ->
  contentCache st' = <[p := readResult provider p]> (contentCache st) ->
  calls st' = calls st ++ [CallReadFile p] ->
  cacheInv provider st'.
Proof.
  intros (Hs & Hm) Hnone Hc Hcalls. split.
  - intros q w. rewrite Hc. destruct (decide (p = q)) as [->|Hne].
    + rewrite lookup_insert_eq. congruence.
    + rewrite lookup_insert_ne by assumption. apply Hs.
  - intros q. rewrite Hc, Hcalls, readCount_snoc_read.
    destruct (decide (p = q)) as [->|Hne].
    + rewrite bool_decide_eq_true_2 by reflexivity.
      rewrite lookup_insert_eq. intros _. split; [eauto|].
      destruct (Nat.eq_dec (readCount q (calls st)) 0%nat) as [->|Hpos];
        [reflexivity|].
      destruct (Hm q) as [[v Hv] _]; [lia | congruence].
    + rewrite bool_decide_eq_false_2 by assumption.
      rewrite lookup_insert_ne, Nat.add_0_r by assumption. apply Hm.
Qed.

(** ** [readCached] *)

Lemma readCached_hit provider p st v :
  contentCache st !! p = Some v ->
  readCached provider p st = (st, Ok v).
Proof.
  intros H. unfold readCached, bind, get. now rewrite H.
Qed.

Lemma readCached_miss provider p st :
  contentCache st !! p = None ->
  exists st',
    readCached provider p st = (st', Ok (readResult provider p))
    /\ contentCache st' = <[p := readResult provider p]> (contentCache st)
    /\ calls st' = calls st ++ [CallReadFile p]
    /\ sameIndex st st'.
Proof.
  intros H. unfold readCached, bind, get. rewrite H.
  unfold tryCatch, awaitReadFile, recordCall, cacheSet, modify, bind, ret,
    readResult.
  destruct (readFile provider p) as [content|e]; simpl;
    eexists; (split; [reflexivity|]); simpl; repeat split.
Qed.

Lemma readCached_spec provider p st :
  cacheInv provider st ->
  exists st',
    readCached provider p st = (st', Ok (readResult provider p))
    /\ cacheInv provider st'
    /\ sameIndex st st'.
Proof.
  intros Hinv. destruct (contentCache st !! p) as [v|] eqn:E.
  - exists st. rewrite (readCached_hit _ _ _ _ E).
    rewrite (proj1 Hinv _ _ E). auto using sameIndex_refl.
  - destruct (readCached_miss provider p st E) as (st' & Hrun & Hc & Hcalls & Hix).
    exists st'. split; [assumption|]. split; [|assumption].
    eapply cacheInv_miss; eauto.
Qed.

(** ** Provider calls and rule evaluation *)

Lemma awaitExists_spec provider f st :
  exists st',
    awaitExists provider f st = (st', exists_ provider f)
    /\ calls st' = calls st ++ [CallExists f]
    /\ sameIndex st st' /\ sameCache st st'.
Proof.
  unfold awaitExists, recordCall, modify, bind. simpl.
  eexists; split; [reflexivity|]. simpl. repeat split.
  intros p. now apply readCount_snoc_other.
Qed.

Lemma awaitListFiles_spec provider dir st :
  exists st',
    awaitListFiles provider dir st = (st', listFiles provider dir)
    /\ calls st' = calls st ++ [CallListFiles dir]
    /\ sameIndex st st' /\ sameCache st st'.
Proof.
  unfold awaitListFiles, recordCall, modify, bind. simpl.
  eexists; split; [reflexivity|]. simpl. repeat split.
  intros p. now apply readCount_snoc_other.
Qed.

Lemma filesLoop_spec provider names paths fs st :
  exists st',
    filesLoop provider names paths fs st
    = (st', filesOutcome provider names paths fs)
    /\ sameIndex st st' /\ sameCache st st'.
Proof.
  revert st. induction fs as [|f rest IH]; intros st; simpl.
  - exists st. auto using sameIndex_refl, sameCache_refl.
  - destruct (bool_decide (f ∈ names) || bool_decide (f ∈ paths)).
    + exists st. auto using sameIndex_refl, sameCache_refl.
    + destruct (awaitExists_spec provider f st) as (st1 & Hrun & _ & Hix & Hc).
      destruct (exists_ provider f) as [[|]|e].
      * rewrite (bind_ok _ _ _ _ _ Hrun). exists st1. auto.
      * rewrite (bind_ok _ _ _ _ _ Hrun).
        destruct (IH st1) as (st2 & Hrun2 & Hix2 & Hc2).
        exists st2. eauto using sameIndex_trans, sameCache_trans.
      * rewrite (bind_throw _ _ _ _ _ Hrun). exists st1. auto.
Qed.

Lemma contentPatternsLoop_spec provider cps st :
  cacheInv provider st ->
  exists st',
    contentPatternsLoop (readCached provider) cps st
    = (st', Ok (contentOutcome provider cps))
    /\ cacheInv provider st' /\ sameIndex st st'.
Proof.
  revert st. induction cps as [|cp rest IH]; intros st Hinv; simpl.
  - exists st. auto using sameIndex_refl.
  - destruct (readCached_spec provider (cp_file cp) st Hinv)
      as (st1 & Hrun & Hinv1 & Hix).
    rewrite (bind_ok _ _ _ _ _ Hrun).
    destruct (readResult provider (cp_file cp)) as [text|].
    + destruct (patternsLoop text (cp_patterns cp)); simpl.
      * exists st1. auto.
      * destruct (IH st1 Hinv1) as (st2 & Hrun2 & Hinv2 & Hix2).
        exists st2. eauto using sameIndex_trans.
    + destruct (IH st1 Hinv1) as (st2 & Hrun2 & Hinv2 & Hix2).
      exists st2. eauto using sameIndex_trans.
Qed.

Lemma evaluateRule_firstSatisfied rule paths exts names readC provider d e st :
  evaluateRule rule paths exts names readC provider d e st
  = firstSatisfied (strategiesOf rule paths exts names readC provider d e) st.
Proof.
  unfold evaluateRule, strategiesOf, firstSatisfied, markerFilesStrategy,
    extensionsStrategy, contentPatternsStrategy, dependenciesStrategy,
    dotenvStrategy, bind, ret.
  destruct (match rule_match rule ≫= files with
            | Some fs => filesLoop provider names paths fs
            | None => fun st0 => (st0, Ok false)
            end st) as [st1 [[|]|err]]; try reflexivity.
Qed.

Lemma firstSatisfied_stops pre s post st st1 st2 :
  allUnsatisfied pre st st1 ->
  s st1 = (st2, Ok true) ->
  firstSatisfied (pre ++ s :: post) st = (st2, Ok true).
Proof.
  induction 1 as [st|s0 ss st sta stb Hs0 Hss IH]; intros Hs; simpl.
  - now rewrite (bind_ok _ _ _ _ _ Hs).
  - rewrite (bind_ok _ _ _ _ _ Hs0). now apply IH.
Qed.

Lemma firstSatisfied_none ss st st1 :
  allUnsatisfied ss st st1 ->
  firstSatisfied ss st = (st1, Ok false).
Proof.
  induction 1 as [st|s0 ss st sta stb Hs0 Hss IH]; simpl; [reflexivity|].
  now rewrite (bind_ok _ _ _ _ _ Hs0).
Qed.

Lemma evaluateRule_spec provider rule paths exts names d e st :
  cacheInv provider st ->
  exists st',
    evaluateRule rule paths exts names (readCached provider) provider d e st
    = (st', ruleOutcome provider paths exts names d e rule)
    /\ cacheInv provider st' /\ sameIndex st st'.
Proof.
  intros Hinv. unfold evaluateRule, ruleOutcome.
  assert (Hfiles : exists st1,
    (match rule_match rule ≫= files with
     | Some fs => filesLoop provider names paths fs
     | None => ret false
     end) st
    = (st1, match rule_match rule ≫= files with
            | Some fs => filesOutcome provider names paths fs
            | None => Ok false
            end)
    /\ cacheInv provider st1 /\ sameIndex st st1).
  { destruct (rule_match rule ≫= files) as [fs|].
    - destruct (filesLoop_spec provider names paths fs st)
        as (st1 & Hrun & Hix & Hc).
      exists st1. eauto using cacheInv_sameCache.
    - exists st. auto using sameIndex_refl. }
  destruct Hfiles as (st1 & Hrun1 & Hinv1 & Hix1).
  destruct (match rule_match rule ≫= files with
            | Some fs => filesOutcome provider names paths fs
            | None => Ok false
            end) as [[|]|err].
  - rewrite (bind_ok _ _ _ _ _ Hrun1). exists st1. auto.
  - rewrite (bind_ok _ _ _ _ _ Hrun1).
    destruct (match rule_match rule ≫= extensions with
              | Some exts0 => extensionsLoop exts exts0
              | None => false
              end); simpl.
    { exists st1. auto. }
    assert (Hcontent : exists st2,
      (match rule_match rule ≫= contentPatterns with
       | Some cps => contentPatternsLoop (readCached provider) cps
       | None => ret false
       end) st1
      = (st2, Ok match rule_match rule ≫= contentPatterns with
                 | Some cps => contentOutcome provider cps
                 | None => false
                 end)
      /\ cacheInv provider st2 /\ sameIndex st1 st2).
    { destruct (rule_match rule ≫= contentPatterns) as [cps|].
      - now apply contentPatternsLoop_spec.
      - exists st1. auto using sameIndex_refl. }
    destruct Hcontent as (st2 & Hrun2 & Hinv2 & Hix2).
    rewrite (bind_ok _ _ _ _ _ Hrun2).
    exists st2. split; [|eauto using sameIndex_trans].
    destruct (match rule_match rule ≫= contentPatterns with
              | Some cps => contentOutcome provider cps
              | None => false
              end); simpl; [reflexivity|].
    destruct (match dependencies rule with
              | Some deps => dependenciesLoop d deps
              | None => false
              end); simpl; [reflexivity|].
    destruct (match dotenv rule with
              | Some prefixes => (0 <? length e)%nat && dotenvLoop e prefixes
              | None => false
              end); reflexivity.
  - rewrite (bind_throw _ _ _ _ _ Hrun1). exists st1. auto.
Qed.

(** Set equalities between unions: the listed sets are taken as opaque. *)
Ltac set_union_eq :=
  repeat match goal with H : _ |- _ => clear H end;
  repeat match goal with
         | |- context [@list_to_set ?A ?C ?s ?e ?u ?l] =>
             generalize (@list_to_set A C s e u l); intro
         end;
  set_solver.

(** ** Index *)

Lemma indexRoot_spec rootFiles dirs st :
  exists st',
    indexRoot rootFiles dirs st
    = (st', Ok (dirs ++ map pf_name (List.filter pf_isDirectory rootFiles)))
    /\ allPaths st' = list_to_set (map pf_path rootFiles) ∪ allPaths st
    /\ allFileNames st' = list_to_set (map pf_name rootFiles) ∪ allFileNames st
    /\ extensionSet st'
       = list_to_set (omap rootExtension rootFiles) ∪ extensionSet st
    /\ warnings st' = warnings st
    /\ contentCache st' = contentCache st
    /\ calls st' = calls st.
Proof.
  revert dirs st. induction rootFiles as [|f rest IH]; intros dirs st.
  - exists st. simpl. rewrite app_nil_r. repeat split; try reflexivity; set_solver.
  - assert (Hom : omap rootExtension (f :: rest)
                  = match rootExtension f with
                    | Some y => y :: omap rootExtension rest
                    | None => omap rootExtension rest
                    end) by reflexivity.
    rewrite Hom; clear Hom. unfold rootExtension at 1, extensionOf.
    simpl. unfold bind, addPath, addFileName, addExtension, modify, ret.
    simpl. destruct (pf_isDirectory f).
    + edestruct IH as (st' & Hrun & Hp & Hn & He & Hw & Hc & Hcs).
      exists st'. rewrite Hrun, Hp, Hn, He, Hw, Hc, Hcs. simpl.
      rewrite <- app_assoc. repeat split; set_union_eq.
    + destruct (0 <? lastIndexOf (pf_name f) 46)%Z;
        edestruct IH as (st' & Hrun & Hp & Hn & He & Hw & Hc & Hcs);
        exists st'; rewrite Hrun, Hp, Hn, He, Hw, Hc, Hcs; simpl;
        repeat split; set_union_eq.
Qed.

Lemma indexGrandchildren_spec gcs st :
  exists st',
    indexGrandchildren gcs st = (st', Ok tt)
    /\ allPaths st' = list_to_set (map pf_path gcs) ∪ allPaths st
    /\ allFileNames st' = allFileNames st
    /\ extensionSet st' = extensionSet st
    /\ warnings st' = warnings st
    /\ sameCache st st'.
Proof.
  revert st. induction gcs as [|gc rest IH]; intros st; simpl.
  - exists st. repeat split; try reflexivity; set_solver.
  - unfold bind, addPath, modify. simpl.
    edestruct IH as (st' & Hrun & Hp & Hn & He & Hw & Hc & Hr).
    exists st'. rewrite Hrun, Hp, Hn, He, Hw. simpl.
    repeat split; auto; set_solver.
Qed.

Lemma indexChildren_spec provider children st :
  exists st',
    indexChildren provider children st = (st', Ok tt)
    /\ allPaths st'
       = list_to_set (map pf_path (children ++ grandchildrenOf provider children))
         ∪ allPaths st
    /\ allFileNames st' = list_to_set (map pf_name children) ∪ allFileNames st
    /\ extensionSet st' = extensionSet st
    /\ warnings st' = warnings st
    /\ sameCache st st'.
Proof.
  revert st. induction children as [|c rest IH]; intros st.
  - exists st. simpl. repeat split; try reflexivity; set_solver.
  - cbn [indexChildren].
    set (st0 := {| allPaths := {[pf_path c]} ∪ allPaths st;
                   allFileNames := {[pf_name c]} ∪ allFileNames st;
                   extensionSet := extensionSet st;
                   contentCache := contentCache st;
                   calls := calls st; warnings := warnings st |}).
    assert (Hdeep : exists st1,
      (if pf_isDirectory c
       then tryCatch
              (grandchildren <- awaitListFiles provider (pf_path c) ;;
               indexGrandchildren grandchildren)
              (fun _ => ret tt)
       else ret tt) st0 = (st1, Ok tt)
      /\ allPaths st1
         = list_to_set
             (map pf_path (if pf_isDirectory c
                           then childrenOf provider (pf_path c) else []))
           ∪ allPaths st0
      /\ allFileNames st1 = allFileNames st0
      /\ extensionSet st1 = extensionSet st0
      /\ warnings st1 = warnings st0
      /\ sameCache st0 st1).
    { destruct (pf_isDirectory c).
      - destruct (awaitListFiles_spec provider (pf_path c) st0)
          as (sta & Hrun & _ & (Hp & Hn & He & Hw) & Hc).
        unfold tryCatch, childrenOf.
        destruct (listFiles provider (pf_path c)) as [gcs|e].
        + rewrite (bind_ok _ _ _ _ _ Hrun).
          destruct (indexGrandchildren_spec gcs sta)
            as (stb & Hrun2 & Hp2 & Hn2 & He2 & Hw2 & Hc2).
          exists stb. rewrite Hrun2, Hp2, Hp.
          repeat split; try congruence; eapply sameCache_trans; eauto.
        + rewrite (bind_throw _ _ _ _ _ Hrun). exists sta. rewrite Hp.
          split; [reflexivity|]. split; [simpl; set_solver|].
          repeat split; try congruence; apply Hc.
      - exists st0. split; [reflexivity|]. split; [simpl; set_solver|].
        repeat split. }
    destruct Hdeep as (st1 & Hrun1 & Hp1 & Hn1 & He1 & Hw1 & Hc1).
    destruct (IH st1) as (st2 & Hrun2 & Hp2 & Hn2 & He2 & Hw2 & Hc2).
    exists st2. unfold bind at 1 2, addPath, addFileName, modify.
    fold st0. rewrite (bind_ok _ _ _ _ _ Hrun1), Hrun2.
    rewrite Hp2, Hn2, He2, Hw2, Hp1, Hn1, He1, Hw1.
    split; [reflexivity|].
    split; [unfold grandchildrenOf; simpl;
            rewrite !map_app, !list_to_set_app_L; set_union_eq|].
    split; [simpl; set_union_eq|].
    split; [reflexivity|]. split; [reflexivity|].
    apply (sameCache_trans st st0); [split; auto|].
    eapply sameCache_trans; eauto.
Qed.

Lemma walkDirs_spec provider dirs st :
  exists st',
    walkDirs provider dirs st = (st', Ok tt)
    /\ allPaths st'
       = list_to_set
           (map pf_path
              (concat (map (childrenOf provider) dirs)
               ++ grandchildrenOf provider
                    (concat (map (childrenOf provider) dirs))))
         ∪ allPaths st
    /\ allFileNames st'
       = list_to_set (map pf_name (concat (map (childrenOf provider) dirs)))
         ∪ allFileNames st
    /\ extensionSet st' = extensionSet st
    /\ warnings st' = warnings st
    /\ sameCache st st'.
Proof.
  revert st. induction dirs as [|dir rest IH]; intros st.
  - exists st. simpl. repeat split; try reflexivity; set_solver.
  - cbn [walkDirs].
    assert (Hdir : exists st1,
      tryCatch
        (children <- awaitListFiles provider dir ;;
         indexChildren provider children)
        (fun _ => ret tt) st = (st1, Ok tt)
      /\ allPaths st1
         = list_to_set
             (map pf_path
                (childrenOf provider dir
                 ++ grandchildrenOf provider (childrenOf provider dir)))
           ∪ allPaths st
      /\ allFileNames st1
         = list_to_set (map pf_name (childrenOf provider dir)) ∪ allFileNames st
      /\ extensionSet st1 = extensionSet st
      /\ warnings st1 = warnings st
      /\ sameCache st st1).
    { destruct (awaitListFiles_spec provider dir st)
        as (sta & Hrun & _ & (Hp & Hn & He & Hw) & Hc).
      unfold tryCatch. unfold childrenOf at 1 2 3.
      destruct (listFiles provider dir) as [children|e].
      - rewrite (bind_ok _ _ _ _ _ Hrun).
        destruct (indexChildren_spec provider children sta)
          as (stb & Hrun2 & Hp2 & Hn2 & He2 & Hw2 & Hc2).
        exists stb. rewrite Hrun2, Hp2, Hp.
        repeat split; try congruence; eapply sameCache_trans; eauto.
      - rewrite (bind_throw _ _ _ _ _ Hrun). exists sta. simpl.
        split; [reflexivity|]. split; [set_solver|]. split; [set_solver|].
        repeat split; try congruence; apply Hc. }
    destruct Hdir as (st1 & Hrun1 & Hp1 & Hn1 & He1 & Hw1 & Hc1).
    destruct (IH st1) as (st2 & Hrun2 & Hp2 & Hn2 & He2 & Hw2 & Hc2).
    exists st2. rewrite (bind_ok _ _ _ _ _ Hrun1), Hrun2.
    rewrite Hp2, Hn2, He2, Hw2, Hp1, Hn1, He1, Hw1.
    split; [reflexivity|].
    split; [unfold grandchildrenOf; simpl;
            rewrite !map_app, !concat_app, !map_app, !list_to_set_app_L;
            set_union_eq|].
    split; [simpl; rewrite map_app, list_to_set_app_L; set_union_eq|].
    split; [reflexivity|]. split; [reflexivity|].
    eapply sameCache_trans; eauto.
Qed.

Ltac conjs := repeat match goal with |- _ /\ _ => split end.

(** ** Dependency table *)

Lemma collectFrom_spec provider names extract acc st :
  cacheInv provider st ->
  exists st',
    collectFrom provider names extract acc st
    = (st', Ok (acc ++ textsOf provider names extract))
    /\ cacheInv provider st' /\ sameIndex st st'.
Proof.
  revert acc st. induction names as [|f rest IH]; intros acc st Hinv.
  - exists st. unfold textsOf. simpl. rewrite app_nil_r.
    auto using sameIndex_refl.
  - cbn [collectFrom].
    destruct (readCached_spec provider f st Hinv) as (st1 & Hrun & Hinv1 & Hix).
    rewrite (bind_ok _ _ _ _ _ Hrun).
    destruct (IH (whenText (readResult provider f)
                    (fun text => acc ++ extract text) acc) st1 Hinv1)
      as (st2 & Hrun2 & Hinv2 & Hix2).
    exists st2. rewrite Hrun2. split; [|eauto using sameIndex_trans].
    unfold textsOf. cbn [map concat]. rewrite app_assoc.
    do 3 f_equal. unfold whenText.
    destruct (readResult provider f) as [text|]; [|now rewrite app_nil_r].
    destruct (truthy text); [reflexivity | now rewrite app_nil_r].
Qed.

Ltac step_read Hinv :=
  match goal with
  | |- context [bind (readCached ?pr ?p) ?k ?st] =>
      let st1 := fresh "st" in
      let Hrun := fresh "Hrun" in
      let Hinv1 := fresh "Hinv" in
      let Hix := fresh "Hix" in
      destruct (readCached_spec pr p st Hinv) as (st1 & Hrun & Hinv1 & Hix);
      rewrite (bind_ok _ _ _ _ _ Hrun); cbv beta zeta
  end.

Ltac step_collect Hinv :=
  match goal with
  | |- context [bind (collectFrom ?pr ?names ?extract ?acc) ?k ?st] =>
      let st1 := fresh "st" in
      let Hrun := fresh "Hrun" in
      let Hinv1 := fresh "Hinv" in
      let Hix := fresh "Hix" in
      destruct (collectFrom_spec pr names extract acc st Hinv)
        as (st1 & Hrun & Hinv1 & Hix);
      rewrite (bind_ok _ _ _ _ _ Hrun); cbv beta zeta
  end.

Lemma extractDependencies_spec ex provider st :
  cacheInv provider st ->
  exists st',
    extractDependencies ex provider st = (st', Ok (dependencyTable ex provider))
    /\ cacheInv provider st' /\ sameIndex st st'.
Proof.
  intros Hinv. unfold extractDependencies.
  step_read Hinv. step_collect Hinv0. step_read Hinv1. step_read Hinv2.
  step_read Hinv3. step_read Hinv4. step_read Hinv5. step_collect Hinv6.
  step_read Hinv7.
  eexists. split; [reflexivity|]. split; [assumption|].
  repeat (eapply sameIndex_trans; [eassumption|]). apply sameIndex_refl.
Qed.

(** ** Steps 1 to 4 *)

Lemma prepare_spec ex provider rootFiles :
  listFiles provider (js ".") = Ok rootFiles ->
  exists st1,
    prepare ex provider newScan
    = (st1, Ok (dependencyTable ex provider,
                textsOf provider envFiles extractEnvVarNames))
    /\ cacheInv provider st1
    /\ allPaths st1
       = list_to_set
           (map pf_path (rootFiles ++ secondLevel provider rootFiles
                         ++ thirdLevel provider rootFiles))
    /\ allFileNames st1
       = list_to_set (map pf_name rootFiles)
         ∪ list_to_set (map pf_name (secondLevel provider rootFiles))
    /\ extensionSet st1 = list_to_set (omap rootExtension rootFiles)
    /\ warnings st1 = [].
Proof.
  intros Hroot. unfold prepare.
  destruct (awaitListFiles_spec provider (js ".") newScan)
    as (sta & Hrun & _ & (Hp & Hn & He & Hw) & Hc).
  rewrite Hroot in Hrun. rewrite (bind_ok _ _ _ _ _ Hrun).
  destruct (indexRoot_spec rootFiles [] sta)
    as (stb & Hrunb & Hpb & Hnb & Heb & Hwb & Hcb & Hcsb).
  rewrite (bind_ok _ _ _ _ _ Hrunb). cbn [app].
  destruct (walkDirs_spec provider
              (map pf_name (List.filter pf_isDirectory rootFiles)) stb)
    as (stc & Hrunc & Hpc & Hnc & Hec & Hwc & Hcc).
  rewrite (bind_ok _ _ _ _ _ Hrunc).
  assert (Hinvc : cacheInv provider stc).
  { eapply cacheInv_sameCache; [exact Hcc|].
    eapply cacheInv_sameCache; [split; [exact Hcb | intros p; now rewrite Hcsb]|].
    eapply cacheInv_sameCache; [exact Hc|]. apply cacheInv_newScan. }
  destruct (extractDependencies_spec ex provider stc Hinvc)
    as (std & Hrund & Hinvd & (Hpd & Hnd & Hed & Hwd)).
  rewrite (bind_ok _ _ _ _ _ Hrund).
  destruct (collectFrom_spec provider envFiles extractEnvVarNames [] std Hinvd)
    as (ste & Hrune & Hinve & (Hpe & Hne & Hee & Hwe)).
  rewrite (bind_ok _ _ _ _ _ Hrune). cbn [app].
  exists ste. split; [reflexivity|]. split; [assumption|].
  rewrite Hpe, Hpd, Hpc, Hpb, Hp, Hne, Hnd, Hnc, Hnb, Hn.
  rewrite Hee, Hed, Hec, Heb, He, Hwe, Hwd, Hwc, Hwb, Hw.
  unfold thirdLevel, secondLevel. simpl.
  rewrite !map_app, !list_to_set_app_L.
  repeat split; set_union_eq.
Qed.

Lemma prepare_rejects ex provider err :
  listFiles provider (js ".") = Throw err ->
  exists st1,
    prepare ex provider newScan = (st1, Throw err) /\ cacheInv provider st1.
Proof.
  intros Hroot. unfold prepare.
  destruct (awaitListFiles_spec provider (js ".") newScan)
    as (sta & Hrun & _ & _ & Hc).
  rewrite Hroot in Hrun. rewrite (bind_throw _ _ _ _ _ Hrun).
  exists sta. split; [reflexivity|].
  eapply cacheInv_sameCache; [exact Hc | apply cacheInv_newScan].
Qed.

Lemma analyser_steps ex rules provider st :
  analyser ex rules provider st
  = match prepare ex provider st with
    | (st1, Ok (depsMap, envVarNames)) =>
        match evaluateRules rules provider depsMap envVarNames [] st1 with
        | (st2, Ok matched) => (st2, Ok {| childs := matched |})
        | (st2, Throw err) => (st2, Throw err)
        end
    | (st1, Throw err) => (st1, Throw err)
    end.
Proof.
  unfold analyser, prepare, bind, ret.
  destruct (awaitListFiles provider (js ".") st) as [sta [rootFiles|err]];
    [|reflexivity].
  destruct (indexRoot rootFiles [] sta) as [stb [dirs|err]]; [|reflexivity].
  destruct (walkDirs provider dirs stb) as [stc [[]|err]]; [|reflexivity].
  destruct (extractDependencies ex provider stc) as [std [depsMap|err]];
    [|reflexivity].
  destruct (collectFrom provider envFiles extractEnvVarNames [] std)
    as [ste [envVarNames|err]]; reflexivity.
Qed.

(** ** The loop over the rules *)

Lemma evaluateRules_spec provider d e rules :
  forall matched st,
    cacheInv provider st ->
    let outcome :=
      ruleOutcome provider (allPaths st) (extensionSet st) (allFileNames st) d e in
    exists st',
      evaluateRules rules provider d e matched st
      = (st', Ok (matched
                  ++ map nodeOf (List.filter (fun r => isOkTrue (outcome r)) rules)))
      /\ cacheInv provider st'
      /\ allPaths st' = allPaths st
      /\ allFileNames st' = allFileNames st
      /\ extensionSet st' = extensionSet st
      /\ warnings st' = warnings st ++ omap (warningOf outcome) rules.
Proof.
  induction rules as [|rule rest IH]; intros matched st Hinv outcome.
  - exists st. simpl. rewrite !app_nil_r. conjs; auto.
  - cbn [evaluateRules].
    destruct (evaluateRule_spec provider rule (allPaths st) (extensionSet st)
                (allFileNames st) d e st Hinv)
      as (st1 & Hrun & Hinv1 & (Hp1 & Hn1 & He1 & Hw1)).
    fold (outcome rule) in Hrun.
    assert (Htry : exists st2,
      tryCatch
        (paths <- get allPaths ;;
         exts <- get extensionSet ;;
         names <- get allFileNames ;;
         hit <- evaluateRule rule paths exts names (readCached provider)
                  provider d e ;;
         ret (if hit : bool then matched ++ [nodeOf rule] else matched))
        (fun err => warn (warningText rule err) ;; ret matched) st
      = (st2, Ok (matched
                  ++ map nodeOf
                       (List.filter (fun r => isOkTrue (outcome r)) [rule])))
      /\ cacheInv provider st2
      /\ allPaths st2 = allPaths st
      /\ allFileNames st2 = allFileNames st
      /\ extensionSet st2 = extensionSet st
      /\ warnings st2 = warnings st ++ omap (warningOf outcome) [rule]).
    { unfold tryCatch, bind at 1 2 3, get. unfold warningOf. cbn [List.filter omap list_omap].
      destruct (outcome rule) as [[|]|err].
      - rewrite (bind_ok _ _ _ _ _ Hrun). exists st1. simpl.
        rewrite Hw1, app_nil_r. auto 10.
      - rewrite (bind_ok _ _ _ _ _ Hrun). exists st1. simpl.
        rewrite Hw1, !app_nil_r. auto 10.
      - rewrite (bind_throw _ _ _ _ _ Hrun).
        unfold warn, modify, bind, ret. simpl. eexists.
        split; [now rewrite app_nil_r|]. simpl. rewrite Hw1.
        conjs; auto. }
    destruct Htry as (st2 & Hrun2 & Hinv2 & Hp2 & Hn2 & He2 & Hw2).
    rewrite (bind_ok _ _ _ _ _ Hrun2).
    destruct (IH (matched ++ map nodeOf
                    (List.filter (fun r => isOkTrue (outcome r)) [rule]))
                st2 Hinv2)
      as (st3 & Hrun3 & Hinv3 & Hp3 & Hn3 & He3 & Hw3).
    rewrite Hp2, Hn2, He2 in Hrun3, Hw3. fold outcome in Hrun3, Hw3.
    exists st3. rewrite Hrun3, Hp3, Hn3, He3, Hw3, Hw2, Hp2, Hn2, He2.
    split; [|conjs; auto].
    + simpl. destruct (isOkTrue (outcome rule)); simpl;
        now rewrite <- ?app_assoc, ?app_nil_r.
    + simpl. unfold warningOf at 1 3.
      destruct (outcome rule) as [b|err]; simpl;
        now rewrite <- ?app_assoc, ?app_nil_r.
Qed.

(** ** Strategy order *)

(** C1. [evaluateRule] tries the strategies in the order marker files,
    extensions, content patterns, dependencies, dotenv prefixes. It returns
    [true] as soon as one is satisfied, in the state that strategy left, so
    nothing of a later strategy has run; it returns [false] when none is
    satisfied; and a rule that declares no strategy returns [false] without
    touching the state. *)
Theorem evaluateRule_strategy_order
    rule paths exts names readC provider (d : DepsMap) (e : list jsstring) st :
  let strategies := strategiesOf rule paths exts names readC provider d e in
  let run := evaluateRule rule paths exts names readC provider d e in
  run st = firstSatisfied strategies st
  /\ (forall pre s post st1 st2,
        strategies = pre ++ s :: post ->
        allUnsatisfied pre st st1 ->
        s st1 = (st2, Ok true) ->
        run st = (st2, Ok true))
  /\ (forall st1, allUnsatisfied strategies st st1 -> run st = (st1, Ok false))
  /\ (declaresNoStrategy rule -> run st = (st, Ok false)).
Proof.
  intros strategies run. unfold run.
  split; [apply evaluateRule_firstSatisfied|].
  split; [|split].
  - intros pre s post st1 st2 Hs Hpre Hsat.
    rewrite evaluateRule_firstSatisfied. fold strategies. rewrite Hs.
    now apply firstSatisfied_stops with (st1 := st1).
  - intros st1 Hall. rewrite evaluateRule_firstSatisfied.
    now apply firstSatisfied_none.
  - intros (Hf & He & Hc & Hd & Hv). unfold evaluateRule.
    rewrite Hf, He, Hc, Hd, Hv. reflexivity.
Qed.

(** ** Content cache *)

Lemma analyser_cacheInv ex rules provider st r :
  analyser ex rules provider newScan = (st, r) -> cacheInv provider st.
Proof.
  rewrite analyser_steps.
  destruct (listFiles provider (js ".")) as [rootFiles|err] eqn:Hroot.
  - destruct (prepare_spec ex provider rootFiles Hroot)
      as (st1 & Hrun & Hinv & _).
    rewrite Hrun.
    destruct (evaluateRules_spec provider (dependencyTable ex provider)
                (textsOf provider envFiles extractEnvVarNames) rules [] st1 Hinv)
      as (st2 & Hrun2 & Hinv2 & _).
    rewrite Hrun2. now intros [= <- _].
  - destruct (prepare_rejects ex provider err Hroot) as (st1 & Hrun & Hinv).
    rewrite Hrun. now intros [= <- _].
Qed.

(** C2. The first request for a path calls the provider once, caches
    what it got (the text, or absent when the read fails) and returns it;
    a request for a cached path returns the cached value and calls
    nothing. Requests keep the cache invariant, and in the state a scan
    ends in, no path has been read more than once. *)
Theorem readCached_reads_each_path_once provider :
  (forall p st,
      contentCache st !! p = None ->
      exists st',
        readCached provider p st = (st', Ok (readResult provider p))
        /\ contentCache st' = <[p := readResult provider p]> (contentCache st)
        /\ calls st' = calls st ++ [CallReadFile p])
  /\ (forall p st v,
        contentCache st !! p = Some v ->
        readCached provider p st = (st, Ok v))
  /\ (forall p st,
        cacheInv provider st ->
        exists st',
          readCached provider p st = (st', Ok (readResult provider p))
          /\ cacheInv provider st'
          /\ (forall q, readCount q (calls st') <= 1)%nat)
  /\ (forall ex rules st r,
        analyser ex rules provider newScan = (st, r) ->
        forall p, (readCount p (calls st) <= 1)%nat).
Proof.
  assert (Honce : forall st, cacheInv provider st ->
                  forall q, (readCount q (calls st) <= 1)%nat).
  { intros st (_ & Hm) q.
    destruct (Nat.eq_dec (readCount q (calls st)) 0%nat) as [->|Hpos]; [lia|].
    destruct (Hm q) as [_ ->]; lia. }
  split; [|split; [|split]].
  - intros p st Hnone.
    destruct (readCached_miss provider p st Hnone) as (st' & Hrun & Hc & Hcs & _).
    eauto.
  - intros p st v. apply readCached_hit.
  - intros p st Hinv.
    destruct (readCached_spec provider p st Hinv) as (st' & Hrun & Hinv' & _).
    eauto.
  - intros ex rules st r Hrun. apply Honce.
    eapply analyser_cacheInv; eauto.
Qed.

(** ** Result assembly *)

Lemma prepare_ok_inv ex provider st1 depsMap envVarNames :
  prepare ex provider newScan = (st1, Ok (depsMap, envVarNames)) ->
  cacheInv provider st1.
Proof.
  intros Hrun.
  destruct (listFiles provider (js ".")) as [rootFiles|err] eqn:Hroot.
  - destruct (prepare_spec ex provider rootFiles Hroot)
      as (st1' & Hrun' & Hinv & _).
    rewrite Hrun in Hrun'. now injection Hrun' as -> _ _.
  - destruct (prepare_rejects ex provider err Hroot) as (st1' & Hrun' & _).
    rewrite Hrun in Hrun'. discriminate.
Qed.

(** C4. When the root can be listed, the scan returns a payload: one
    node for each rule of the catalog whose evaluation returns [true],
    in catalog order, and nothing else; the node of a rule carries that
    rule's [name] and [type]. What a rule's evaluation returns is the
    same in every state the scan goes through (any state that satisfies
    the cache invariant). *)
Theorem analyser_output_in_catalog_order ex rules provider rootFiles :
  listFiles provider (js ".") = Ok rootFiles ->
  exists st1 depsMap envVarNames st,
    prepare ex provider newScan = (st1, Ok (depsMap, envVarNames))
    /\ let outcome :=
         ruleOutcome provider (allPaths st1) (extensionSet st1)
           (allFileNames st1) depsMap envVarNames in
       (forall rule st0,
           cacheInv provider st0 ->
           (evaluateRule rule (allPaths st1) (extensionSet st1)
              (allFileNames st1) (readCached provider) provider
              depsMap envVarNames st0).2 = outcome rule)
       /\ analyser ex rules provider newScan
          = (st, Ok {| childs :=
                         map (fun rule => {| node_name := rule_name rule;
                                             node_type := rule_type rule |})
                           (List.filter (fun r => isOkTrue (outcome r)) rules) |}).
Proof.
  intros Hroot.
  destruct (prepare_spec ex provider rootFiles Hroot) as (st1 & Hrun & Hinv & _).
  destruct (evaluateRules_spec provider (dependencyTable ex provider)
              (textsOf provider envFiles extractEnvVarNames) rules [] st1 Hinv)
    as (st2 & Hrun2 & _).
  exists st1, (dependencyTable ex provider),
    (textsOf provider envFiles extractEnvVarNames), st2.
  split; [exact Hrun|]. split.
  - intros rule st0 Hinv0.
    destruct (evaluateRule_spec provider rule (allPaths st1) (extensionSet st1)
                (allFileNames st1) (dependencyTable ex provider)
                (textsOf provider envFiles extractEnvVarNames) st0 Hinv0)
      as (st' & -> & _).
    reflexivity.
  - rewrite analyser_steps, Hrun, Hrun2. reflexivity.
Qed.

Lemma filter_app_cons {A} (f : A -> bool) (l1 l2 : list A) (x : A) :
  f x = false -> List.filter f (l1 ++ x :: l2) = List.filter f (l1 ++ l2).
Proof. intros H. rewrite !List.filter_app. simpl. now rewrite H. Qed.

Lemma omap_app_cons {A B} (f : A -> option B) (l1 l2 : list A) (x : A) (y : B) :
  f x = Some y -> omap f (l1 ++ x :: l2) = omap f l1 ++ y :: omap f l2.
Proof. intros H. rewrite omap_app. cbn. now rewrite H. Qed.

Lemma contentOutcome_failed_reads provider cps :
  (forall cp, cp ∈ cps -> exists e, readFile provider (cp_file cp) = Throw e) ->
  contentOutcome provider cps = false.
Proof.
  induction cps as [|cp rest IH]; intros Hfail; simpl; [reflexivity|].
  unfold readResult. destruct (Hfail cp) as [e ->]; [left|].
  apply IH. intros cp' Hcp'. apply Hfail. now right.
Qed.

(** C7. A rule whose evaluation throws leaves one warning that names its
    id and contributes no node; the scan goes on, and its payload is the
    payload of the catalog without that rule: every other rule is evaluated,
    with the same outcome and at the same place in the output. A read that
    fails is not such a fault: a rule that has only content patterns, all
    on files whose read fails, returns [false] without throwing. *)
Theorem rule_fault_is_isolated
    ex provider st1 depsMap envVarNames before rule after err :
  prepare ex provider newScan = (st1, Ok (depsMap, envVarNames)) ->
  (evaluateRule rule (allPaths st1) (extensionSet st1) (allFileNames st1)
     (readCached provider) provider depsMap envVarNames st1).2 = Throw err ->
  let outcome :=
    ruleOutcome provider (allPaths st1) (extensionSet st1) (allFileNames st1)
      depsMap envVarNames in
  exists st st' payload,
    analyser ex (before ++ rule :: after) provider newScan = (st, Ok payload)
    /\ analyser ex (before ++ after) provider newScan = (st', Ok payload)
    /\ childs payload
       = map nodeOf (List.filter (fun r => isOkTrue (outcome r)) (before ++ after))
    /\ warnings st
       = omap (warningOf outcome) before
         ++ warningText rule err :: omap (warningOf outcome) after
    /\ warnings st' = omap (warningOf outcome) (before ++ after)
    /\ warningText rule err
       = js "Rule " ++ [34] ++ rule_id rule ++ [34] ++ js " threw: " ++ err
    /\ (forall r cps paths exts names d env st0,
          rule_match r
          = Some {| files := None; extensions := None;
                    contentPatterns := Some cps |} ->
          dependencies r = None ->
          dotenv r = None ->
          (forall cp, cp ∈ cps ->
                      exists e, readFile provider (cp_file cp) = Throw e) ->
          cacheInv provider st0 ->
          (evaluateRule r paths exts names (readCached provider) provider
             d env st0).2 = Ok false).
Proof.
  intros Hrun Hthrow outcome.
  pose proof (prepare_ok_inv _ _ _ _ _ Hrun) as Hinv.
  assert (Hw1 : warnings st1 = []).
  { destruct (listFiles provider (js ".")) as [rootFiles|e0] eqn:Hroot.
    - destruct (prepare_spec ex provider rootFiles Hroot)
        as (st1' & Hrun' & _ & _ & _ & _ & Hw).
      rewrite Hrun in Hrun'. now injection Hrun' as -> _ _.
    - destruct (prepare_rejects ex provider e0 Hroot) as (st1' & Hrun' & _).
      rewrite Hrun in Hrun'. discriminate. }
  assert (Hout : outcome rule = Throw err).
  { destruct (evaluateRule_spec provider rule (allPaths st1) (extensionSet st1)
                (allFileNames st1) depsMap envVarNames st1 Hinv)
      as (st' & Heq & _).
    rewrite Heq in Hthrow. exact Hthrow. }
  destruct (evaluateRules_spec provider depsMap envVarNames
              (before ++ rule :: after) [] st1 Hinv)
    as (st2 & Hrun2 & _ & _ & _ & _ & Hw2).
  destruct (evaluateRules_spec provider depsMap envVarNames
              (before ++ after) [] st1 Hinv)
    as (st3 & Hrun3 & _ & _ & _ & _ & Hw3).
  fold outcome in Hrun2, Hw2, Hrun3, Hw3.
  exists st2, st3,
    {| childs := map nodeOf
                   (List.filter (fun r => isOkTrue (outcome r)) (before ++ after)) |}.
  rewrite !analyser_steps, Hrun, Hrun2, Hrun3, Hw2, Hw3, Hw1. cbn [app childs].
  rewrite filter_app_cons by (now rewrite Hout).
  rewrite (omap_app_cons _ _ _ _ (warningText rule err))
    by (unfold warningOf; now rewrite Hout).
  conjs; try reflexivity.
  intros r cps paths exts names d env st0 Hmatch Hdeps Hdotenv Hfail Hinv0.
  destruct (evaluateRule_spec provider r paths exts names d env st0 Hinv0)
    as (st0' & -> & _).
  unfold ruleOutcome. rewrite Hmatch, Hdeps, Hdotenv. cbn.
  now rewrite contentOutcome_failed_reads.
Qed.

(** ** Empty repository *)

Lemma filesOutcome_nothing provider fs :
  (forall p, exists_ provider p = Ok false) ->
  filesOutcome provider ∅ ∅ fs = Ok false.
Proof.
  intros Hex. induction fs as [|f rest IH]; simpl; [reflexivity|].
  rewrite !bool_decide_eq_false_2 by set_solver. simpl. now rewrite Hex.
Qed.

Lemma extensionsLoop_empty exts : extensionsLoop ∅ exts = false.
Proof.
  induction exts as [|ext rest IH]; simpl; [reflexivity|].
  now rewrite bool_decide_eq_false_2 by set_solver.
Qed.

Lemma contentOutcome_unreadable provider cps :
  (forall p, readResult provider p = None) ->
  contentOutcome provider cps = false.
Proof.
  intros Hread. induction cps as [|cp rest IH]; simpl; [reflexivity|].
  now rewrite Hread.
Qed.

Lemma dependenciesLoop_empty_table (d : DepsMap) deps :
  (forall t, d t = []) -> dependenciesLoop d deps = false.
Proof.
  intros Hd. induction deps as [|dep rest IH]; simpl; [reflexivity|].
  now rewrite Hd.
Qed.

Lemma textsOf_unreadable provider names extract :
  (forall p, readResult provider p = None) ->
  textsOf provider names extract = [].
Proof.
  intros Hread. unfold textsOf.
  induction names as [|f rest IH]; simpl; [reflexivity|].
  now rewrite Hread.
Qed.

Lemma dependencyTable_unreadable ex provider t :
  (forall p, readResult provider p = None) ->
  dependencyTable ex provider t = [].
Proof.
  intros Hread. unfold dependencyTable.
  destruct t; rewrite ?Hread; simpl; try reflexivity;
    now apply textsOf_unreadable.
Qed.

(** The provider on the local disk lists nothing for a directory that
    does not exist, and its existence check never rejects. *)
Lemma FSProvider_missing_directory host root dir :
  fs_pathExists host (path_resolve host root dir) = false ->
  listFiles (FSProvider host root) dir = Ok []
  /\ exists_ (FSProvider host root) dir = Ok false.
Proof. intros H. simpl. now rewrite H. Qed.

(** C10. When listing the root gives no entry, every read fails and
    every existence check answers false, the scan completes: it returns
    the empty payload, and logs no warning. *)
Theorem empty_repository_gives_no_match ex rules provider :
  listFiles provider (js ".") = Ok [] ->
  (forall p, exists err, readFile provider p = Throw err) ->
  (forall p, exists_ provider p = Ok false) ->
  exists st,
    analyser ex rules provider newScan = (st, Ok {| childs := [] |})
    /\ warnings st = [].
Proof.
  intros Hroot Hread Hex.
  assert (Hnone : forall p, readResult provider p = None).
  { intros p. unfold readResult. destruct (Hread p) as [err ->]. reflexivity. }
  destruct (prepare_spec ex provider [] Hroot)
    as (st1 & Hrun & Hinv & Hp & Hn & He & Hw).
  destruct (evaluateRules_spec provider (dependencyTable ex provider)
              (textsOf provider envFiles extractEnvVarNames) rules [] st1 Hinv)
    as (st2 & Hrun2 & _ & _ & _ & _ & Hw2).
  exists st2. rewrite analyser_steps, Hrun, Hrun2, Hw2, Hw. cbn [app].
  assert (Hout : forall r,
    ruleOutcome provider (allPaths st1) (extensionSet st1) (allFileNames st1)
      (dependencyTable ex provider)
      (textsOf provider envFiles extractEnvVarNames) r = Ok false).
  { intros r. rewrite Hp, Hn, He. unfold thirdLevel, secondLevel. simpl.
    rewrite (textsOf_unreadable _ _ _ Hnone).
    replace (∅ ∪ ∅ : gset jsstring) with (∅ : gset jsstring) by set_solver.
    unfold ruleOutcome.
    destruct (rule_match r ≫= files) as [fs|];
      [rewrite filesOutcome_nothing by assumption|];
      (destruct (rule_match r ≫= extensions) as [exts|];
       [rewrite extensionsLoop_empty|]);
      (destruct (rule_match r ≫= contentPatterns) as [cps|];
       [rewrite contentOutcome_unreadable by assumption|]);
      (destruct (dependencies r) as [deps|];
       [rewrite dependenciesLoop_empty_table
          by (intros t; now apply dependencyTable_unreadable)|]);
      destruct (dotenv r); reflexivity. }
  assert (Hfilter : forall l : list Rule,
    List.filter (fun r => isOkTrue (ruleOutcome provider (allPaths st1)
                   (extensionSet st1) (allFileNames st1)
                   (dependencyTable ex provider)
                   (textsOf provider envFiles extractEnvVarNames) r)) l = []).
  { induction l as [|r l IH]; simpl; [reflexivity|]. now rewrite Hout. }
  assert (Hwarn : forall l : list Rule,
    omap (warningOf (ruleOutcome provider (allPaths st1)
                   (extensionSet st1) (allFileNames st1)
                   (dependencyTable ex provider)
                   (textsOf provider envFiles extractEnvVarNames))) l = []).
  { induction l as [|r l IH]; cbn; [reflexivity|].
    unfold warningOf at 1. now rewrite Hout. }
  rewrite Hfilter, Hwarn. split; reflexivity.
Qed.

(** ** Names and extensions in the index *)

Lemma lastIndexOf_from_absent i s c found :
  c ∉ s -> lastIndexOf_from i s c found = found.
Proof.
  revert i found. induction s as [|x r IH]; intros i found Hn; simpl;
    [reflexivity|].
  rewrite not_elem_of_cons in Hn. destruct Hn as [Hx Hr].
  rewrite IH by assumption.
  destruct (N.eqb_spec x c); [congruence | reflexivity].
Qed.

Lemma lastIndexOf_from_app i s1 s2 c found :
  lastIndexOf_from i (s1 ++ s2) c found
  = lastIndexOf_from (i + Z.of_nat (length s1))%Z s2 c
      (lastIndexOf_from i s1 c found).
Proof.
  revert i found. induction s1 as [|x r IH]; intros i found; simpl.
  - now rewrite Z.add_0_r.
  - rewrite IH. f_equal. lia.
Qed.

Lemma extensionOf_after_last_dot (stem suffix : jsstring) :
  stem <> [] -> 46 ∉ suffix ->
  extensionOf (stem ++ 46 :: suffix) = Some (46 :: suffix).
Proof.
  intros Hstem Hsuf. unfold extensionOf, lastIndexOf.
  rewrite lastIndexOf_from_app. simpl.
  rewrite lastIndexOf_from_absent by assumption.
  destruct stem as [|c stem]; [congruence|].
  replace (0 <? 0 + Z.of_nat (length (c :: stem)))%Z with true
    by (symmetry; apply Z.ltb_lt; simpl; lia).
  unfold substring. f_equal.
  replace (Z.to_nat (0 + Z.of_nat (length (c :: stem))))
    with (length (c :: stem)) by lia.
  now rewrite drop_app_length.
Qed.

Lemma extensionOf_leading_dot (suffix : jsstring) :
  46 ∉ suffix -> extensionOf (46 :: suffix) = None.
Proof.
  intros Hsuf. unfold extensionOf, lastIndexOf. simpl.
  now rewrite lastIndexOf_from_absent by assumption.
Qed.

Lemma extensionsLoop_true (extensionSet : gset jsstring) exts :
  extensionsLoop extensionSet exts = true
  <-> exists ext, ext ∈ exts /\ ext ∈ extensionSet.
Proof.
  induction exts as [|ext rest IH]; simpl.
  - split; [discriminate | intros (x & Hx & _); inversion Hx].
  - destruct (bool_decide_reflect (ext ∈ extensionSet)) as [Hin|Hout].
    + split; [|reflexivity]. intros _. exists ext. split; [left | assumption].
    + rewrite IH. split.
      * intros (x & Hx & Hs). exists x. split; [now right | assumption].
      * intros (x & Hx & Hs). apply elem_of_cons in Hx as [->|Hx];
          [contradiction | eauto].
Qed.

Lemma elem_of_rootExtensions ext rootFiles :
  ext ∈ (list_to_set (omap rootExtension rootFiles) : gset jsstring)
  <-> exists f, f ∈ rootFiles /\ pf_isDirectory f = false
                /\ extensionOf (pf_name f) = Some ext.
Proof.
  rewrite elem_of_list_to_set, list_elem_of_omap. unfold rootExtension. split.
  - intros (f & Hf & Hext). exists f.
    destruct (pf_isDirectory f); [discriminate | auto].
  - intros (f & Hf & Hdir & Hext). exists f. now rewrite Hdir.
Qed.

Lemma elem_of_names n (l : list ProviderFile) :
  n ∈ (list_to_set (map pf_name l) : gset jsstring)
  <-> exists f, f ∈ l /\ pf_name f = n.
Proof.
  rewrite elem_of_list_to_set, list_elem_of_In, in_map_iff. split.
  - intros (f & Hn & Hf). exists f. now rewrite list_elem_of_In.
  - intros (f & Hf & Hn). exists f. now rewrite <- list_elem_of_In.
Qed.

Lemma elem_of_secondLevel provider rootFiles c :
  c ∈ secondLevel provider rootFiles
  <-> exists dir, dir ∈ rootFiles /\ pf_isDirectory dir = true
                  /\ c ∈ childrenOf provider (pf_name dir).
Proof.
  unfold secondLevel. rewrite list_elem_of_In, in_concat. split.
  - intros (l & Hl & Hc). apply in_map_iff in Hl as (dn & <- & Hdn).
    apply in_map_iff in Hdn as (dir & <- & Hdir).
    apply List.filter_In in Hdir as [Hdir Hisdir].
    exists dir. now rewrite !list_elem_of_In.
  - intros (dir & Hdir & Hisdir & Hc).
    exists (childrenOf provider (pf_name dir)).
    split; [|now apply list_elem_of_In].
    apply (in_map (childrenOf provider)), (in_map pf_name), List.filter_In.
    rewrite <- list_elem_of_In. auto.
Qed.

(** In [sampleRepo] no root entry is named [Dockerfile], there is no
    [Dockerfile] at the root for the existence check to find, yet the
    name is in the set the marker-file strategy consults, because
    [docker/Dockerfile] is a child of a root directory; the rule that
    lists the marker [Dockerfile] matches without any existence check. *)
Lemma rootNames_hold_a_second_level_name :
  exists rootFiles st1 depsMap envVarNames st2,
    listFiles sampleRepo (js ".") = Ok rootFiles
    /\ Forall (fun f => pf_name f <> js "Dockerfile") rootFiles
    /\ exists_ sampleRepo (js "Dockerfile") = Ok false
    /\ prepare silentExtractors sampleRepo newScan
       = (st1, Ok (depsMap, envVarNames))
    /\ js "Dockerfile" ∈ allFileNames st1
    /\ evaluateRule dockerRule (allPaths st1) (extensionSet st1)
         (allFileNames st1) (readCached sampleRepo) sampleRepo
         depsMap envVarNames st1 = (st2, Ok true)
    /\ calls st2 = calls st1.
Proof.
  destruct (prepare_spec silentExtractors sampleRepo _ eq_refl)
    as (st1 & Hrun & Hinv & Hp & Hn & _).
  do 4 eexists. exists st1.
  split; [reflexivity|].
  split; [repeat constructor; discriminate|].
  split; [reflexivity|].
  split; [exact Hrun|].
  assert (Hin : js "Dockerfile" ∈ allFileNames st1).
  { rewrite Hn. apply elem_of_union_r, elem_of_list_to_set.
    vm_compute. do 2 constructor. }
  split; [exact Hin|].
  unfold evaluateRule, dockerRule. cbn [rule_match mbind option_bind files filesLoop].
  rewrite (bool_decide_eq_true_2 _ Hin). cbn. split; reflexivity.
Qed.

(** What the walk leaves in the set that [evaluateRule] receives as
    [rootNames]: the names of the root entries, and with them the names
    of the children of the root directories whose listing succeeds. *)
Lemma rootNames_are_first_and_second_level_names ex provider rootFiles :
  listFiles provider (js ".") = Ok rootFiles ->
  exists st1 depsMap envVarNames,
    prepare ex provider newScan = (st1, Ok (depsMap, envVarNames))
    /\ (forall n,
          n ∈ allFileNames st1
          <-> (exists f, f ∈ rootFiles /\ pf_name f = n)
              \/ (exists dir c,
                    dir ∈ rootFiles /\ pf_isDirectory dir = true
                    /\ c ∈ childrenOf provider (pf_name dir)
                    /\ pf_name c = n))
    /\ (forall rules st payload,
          analyser ex rules provider newScan = (st, Ok payload) ->
          allFileNames st = allFileNames st1).
Proof.
  intros Hroot.
  destruct (prepare_spec ex provider rootFiles Hroot)
    as (st1 & Hrun & Hinv & Hp & Hn & He & Hw).
  exists st1, (dependencyTable ex provider),
    (textsOf provider envFiles extractEnvVarNames).
  split; [exact Hrun|]. split.
  - intros n. rewrite Hn, elem_of_union, !elem_of_names. split.
    + intros [Hroot1|(c & Hc & Hname)]; [now left|].
      right. apply elem_of_secondLevel in Hc as (dir & Hdir & Hisdir & Hc).
      exists dir, c. auto.
    + intros [Hroot1|(dir & c & Hdir & Hisdir & Hc & Hname)]; [now left|].
      right. exists c. split; [|assumption].
      apply elem_of_secondLevel. eauto.
  - intros rules st payload. rewrite analyser_steps, Hrun.
    destruct (evaluateRules_spec provider (dependencyTable ex provider)
                (textsOf provider envFiles extractEnvVarNames) rules [] st1 Hinv)
      as (st2 & Hrun2 & _ & _ & Hn2 & _).
    rewrite Hrun2. now intros [= <- _].
Qed.

(** C5. For a rule whose only strategy is a list of extensions: the
    extension set of the scan is made of the extensions of the files
    listed at the root, whatever the directories below contain; the rule
    matches exactly when some root file has a listed extension; the
    extension of a name is what starts at its last dot, provided that dot
    is not the first character. *)
Theorem extension_rule_matches_root_files_only
    ex provider rootFiles rule exts :
  listFiles provider (js ".") = Ok rootFiles ->
  rule_match rule
  = Some {| files := None; extensions := Some exts; contentPatterns := None |} ->
  dependencies rule = None ->
  dotenv rule = None ->
  exists st1 depsMap envVarNames,
    prepare ex provider newScan = (st1, Ok (depsMap, envVarNames))
    /\ extensionSet st1 = list_to_set (omap rootExtension rootFiles)
    /\ (forall st, exists hit,
          evaluateRule rule (allPaths st1) (extensionSet st1) (allFileNames st1)
            (readCached provider) provider depsMap envVarNames st
          = (st, Ok hit)
          /\ (hit = true
              <-> exists f ext,
                    f ∈ rootFiles /\ pf_isDirectory f = false
                    /\ extensionOf (pf_name f) = Some ext /\ ext ∈ exts))
    /\ (forall stem suffix,
          stem <> [] -> 46 ∉ suffix ->
          extensionOf (stem ++ 46 :: suffix) = Some (46 :: suffix))
    /\ (forall suffix, 46 ∉ suffix -> extensionOf (46 :: suffix) = None).
Proof.
  intros Hroot Hmatch Hdeps Hdotenv.
  destruct (prepare_spec ex provider rootFiles Hroot)
    as (st1 & Hrun & Hinv & Hp & Hn & He & Hw).
  exists st1, (dependencyTable ex provider),
    (textsOf provider envFiles extractEnvVarNames).
  split; [exact Hrun|]. split; [exact He|]. split; [|split].
  - intros st. exists (extensionsLoop (extensionSet st1) exts). split.
    + unfold evaluateRule. rewrite Hmatch, Hdeps, Hdotenv. cbn.
      destruct (extensionsLoop (extensionSet st1) exts); reflexivity.
    + rewrite extensionsLoop_true, He. split.
      * intros (ext & Hext & Hin).
        apply elem_of_rootExtensions in Hin as (f & Hf & Hdir & Hx).
        exists f, ext. auto.
      * intros (f & ext & Hf & Hdir & Hx & Hext). exists ext.
        split; [assumption|]. apply elem_of_rootExtensions. eauto.
  - apply extensionOf_after_last_dot.
  - apply extensionOf_leading_dot.
Qed.

(** ** Dependencies *)

Lemma pkgLoop_true depName pkgList :
  pkgLoop depName pkgList = true
  <-> exists pkg, pkg ∈ pkgList
                  /\ match depName with
                     | Str s => pkg = s
                     | Re r => RegExp.test r pkg = true
                     end.
Proof.
  induction pkgList as [|pkg rest IH]; simpl.
  - split; [discriminate | intros (x & Hx & _); inversion Hx].
  - destruct depName as [s|r].
    + destruct (bool_decide_reflect (pkg = s)) as [->|Hne].
      * split; [|reflexivity]. intros _. exists s. split; [left | reflexivity].
      * rewrite IH. split.
        -- intros (x & Hx & Hs). exists x. split; [now right | assumption].
        -- intros (x & Hx & Hs). apply elem_of_cons in Hx as [->|Hx];
             [contradiction | eauto].
    + destruct (RegExp.test r pkg) eqn:Ht.
      * split; [|reflexivity]. intros _. exists pkg. split; [left | assumption].
      * rewrite IH. split.
        -- intros (x & Hx & Hs). exists x. split; [now right | assumption].
        -- intros (x & Hx & Hs). apply elem_of_cons in Hx as [->|Hx];
             [congruence | eauto].
Qed.

Lemma dependenciesLoop_true (depsMap : DepsMap) deps :
  dependenciesLoop depsMap deps = true
  <-> exists dep, dep ∈ deps /\ pkgLoop (dep_name dep) (depsMap (dep_type dep)) = true.
Proof.
  induction deps as [|dep rest IH]; simpl.
  - split; [discriminate | intros (x & Hx & _); inversion Hx].
  - destruct (Nat.eqb_spec (length (depsMap (dep_type dep))) 0) as [Hz|Hnz].
    + apply nil_length_inv in Hz. rewrite IH. split.
      * intros (x & Hx & Hs). exists x. split; [now right | assumption].
      * intros (x & Hx & Hs). apply elem_of_cons in Hx as [->|Hx]; [|eauto].
        rewrite Hz in Hs. discriminate.
    + destruct (pkgLoop (dep_name dep) (depsMap (dep_type dep))) eqn:Hp.
      * split; [|reflexivity]. intros _. exists dep. split; [left | assumption].
      * rewrite IH. split.
        -- intros (x & Hx & Hs). exists x. split; [now right | assumption].
        -- intros (x & Hx & Hs). apply elem_of_cons in Hx as [->|Hx];
             [congruence | eauto].
Qed.

(** C6. A dependency pair is satisfied exactly when the table of its
    ecosystem holds a name that, for a literal, is that very string (code
    unit for code unit, so case matters), and for a pattern, is one the
    pattern finds a match in. The dependency strategy of a rule is
    satisfied exactly when one of its pairs is; for a rule with no other
    strategy that is what [evaluateRule] returns. A table that declares
    [django] satisfies the literal [django] and not the literal
    [Django]. *)
Theorem dependency_matching_is_exact (depsMap : DepsMap) :
  (forall dep,
      pkgLoop (dep_name dep) (depsMap (dep_type dep)) = true
      <-> exists pkg,
            pkg ∈ depsMap (dep_type dep)
            /\ match dep_name dep with
               | Str s => pkg = s
               | Re r => RegExp.test r pkg = true
               end)
  /\ (forall rule st, exists hit,
        dependenciesStrategy rule depsMap st = (st, Ok hit)
        /\ (hit = true
            <-> exists deps dep,
                  dependencies rule = Some deps /\ dep ∈ deps
                  /\ pkgLoop (dep_name dep) (depsMap (dep_type dep)) = true))
  /\ (forall rule paths exts names provider envVarNames st,
        rule_match rule = None -> dotenv rule = None ->
        evaluateRule rule paths exts names (readCached provider) provider
          depsMap envVarNames st
        = dependenciesStrategy rule depsMap st)
  /\ (depsMap DepType.python = [js "django"] ->
      pkgLoop (Str (js "django")) (depsMap DepType.python) = true
      /\ pkgLoop (Str (js "Django")) (depsMap DepType.python) = false).
Proof.
  split; [|split; [|split]].
  - intros dep. apply pkgLoop_true.
  - intros rule st. unfold dependenciesStrategy, ret.
    destruct (dependencies rule) as [deps|].
    + exists (dependenciesLoop depsMap deps). split; [reflexivity|].
      rewrite dependenciesLoop_true. split.
      * intros (dep & Hdep & Hp). eauto.
      * intros (deps' & dep & [= <-] & Hdep & Hp). eauto.
    + exists false. split; [reflexivity|].
      split; [discriminate | intros (deps & dep & [=] & _)].
  - intros rule paths exts names provider envVarNames st Hmatch Hdotenv.
    unfold evaluateRule, dependenciesStrategy. rewrite Hmatch, Hdotenv. cbn.
    destruct (dependencies rule) as [deps|]; [|reflexivity].
    destruct (dependenciesLoop depsMap deps); reflexivity.
  - intros ->. split; reflexivity.
Qed.

(** ** Dotenv prefixes *)

Lemma dotenvLoop_true envVarNames prefixes :
  dotenvLoop envVarNames prefixes = true
  <-> exists prefix v,
        prefix ∈ prefixes /\ v ∈ envVarNames /\ startsWith v prefix = true.
Proof.
  induction prefixes as [|prefix rest IH]; simpl.
  - split; [discriminate | intros (x & v & Hx & _); inversion Hx].
  - destruct (existsb (fun v => startsWith v prefix) envVarNames) eqn:Hex.
    + split; [|reflexivity]. intros _.
      apply existsb_exists in Hex as (v & Hv & Hs).
      exists prefix, v. split; [left|].
      split; [now apply list_elem_of_In | assumption].
    + rewrite IH. split.
      * intros (x & v & Hx & Hv & Hs). exists x, v.
        split; [now right | auto].
      * intros (x & v & Hx & Hv & Hs).
        apply elem_of_cons in Hx as [->|Hx]; [|eauto].
        assert (existsb (fun v => startsWith v prefix) envVarNames = true)
          by (apply existsb_exists; exists v; rewrite <- list_elem_of_In; auto).
        congruence.
Qed.

(** C8. The dotenv strategy of a rule is satisfied exactly when the
    variable names are not empty and one of them begins with one of the
    declared prefixes; for a rule with no other strategy that is what
    [evaluateRule] returns. [POSTGRES_URL] begins with [POSTGRES_];
    [MY_POSTGRES_URL] contains it and does not begin with it. *)
Theorem dotenv_strategy_is_prefix_match (envVarNames : list jsstring) :
  (forall rule st, exists hit,
      dotenvStrategy rule envVarNames st = (st, Ok hit)
      /\ (hit = true
          <-> envVarNames <> []
              /\ exists prefixes prefix v rest,
                   dotenv rule = Some prefixes /\ prefix ∈ prefixes
                   /\ v ∈ envVarNames /\ v = prefix ++ rest))
  /\ (forall rule paths exts names provider depsMap st,
        rule_match rule = None -> dependencies rule = None ->
        evaluateRule rule paths exts names (readCached provider) provider
          depsMap envVarNames st
        = dotenvStrategy rule envVarNames st)
  /\ startsWith (js "POSTGRES_URL") (js "POSTGRES_") = true
  /\ startsWith (js "MY_POSTGRES_URL") (js "POSTGRES_") = false
  /\ includes (js "MY_POSTGRES_URL") (js "POSTGRES_") = true.
Proof.
  split; [|split; [|repeat split]].
  - intros rule st. unfold dotenvStrategy, ret.
    destruct (dotenv rule) as [prefixes|].
    + eexists. split; [reflexivity|].
      rewrite andb_true_iff, Nat.ltb_lt, dotenvLoop_true. split.
      * intros (Hlen & prefix & v & Hp & Hv & Hs).
        split; [intros ->; simpl in Hlen; lia|].
        apply startsWith_prefix in Hs as (rest & ->).
        exists prefixes, prefix, (prefix ++ rest), rest. auto.
      * intros (Hne & prefixes' & prefix & v & rest & [= <-] & Hp & Hv & ->).
        split; [destruct envVarNames; [congruence | simpl; lia]|].
        exists prefix, (prefix ++ rest). split; [assumption|].
        split; [assumption|]. apply startsWith_prefix. eauto.
    + exists false. split; [reflexivity|].
      split; [discriminate | intros (_ & ? & ? & ? & ? & [=] & _)].
  - intros rule paths exts names provider depsMap st Hmatch Hdeps.
    unfold evaluateRule, dotenvStrategy. rewrite Hmatch, Hdeps. cbn.
    destruct (dotenv rule) as [prefixes|]; [|reflexivity].
    match goal with |- context [if ?b then _ else _] => destruct b end;
      reflexivity.
Qed.

(** ** The properties on the sample repositories *)

(** A requirements file with a CRLF line, an option line, an extras
    marker, a comment line, an empty line and a line that starts with a
    version operator. *)
Example extractPythonDeps_sample :
  extractPythonDeps
    (js "django>=4.2  # web" ++ [13; 10] ++ js "-r base.txt" ++ [10]
     ++ js "  flask [async]" ++ [10] ++ js "# note" ++ [10] ++ [10]
     ++ js "requests" ++ [10] ++ js "==1.0")
  = [js "django"; js "flask"; js "requests"].
Proof. vm_compute. reflexivity. Qed.

(** A carriage return that is not followed by a line feed does not end
    the line, and a [#] with such a carriage return after it does not
    start a trailing comment: [.] does not match it, so [#.*$] finds no
    match in the line. *)
Example extractPythonDeps_lone_carriage_return :
  extractPythonDeps (js "numpy # fast" ++ [13] ++ js "scipy")
  = [js "numpy # fast" ++ [13] ++ js "scipy"].
Proof. vm_compute. reflexivity. Qed.

(** The TypeScript rule on a repository with a [.tsx] file and no
    [tsconfig.json]: one existence check, then the extension strategy is
    satisfied and nothing else runs. *)
Example typescript_stops_at_extensions :
  (evaluateRule typescriptRule ∅ {[js ".tsx"]} ∅ (readCached sampleRepo)
     sampleRepo (fun _ => []) [] newScan)
  = ({| allPaths := ∅; allFileNames := ∅; extensionSet := ∅;
        contentCache := ∅; calls := [CallExists (js "tsconfig.json")];
        warnings := [] |}, Ok true).
Proof. vm_compute. reflexivity. Qed.

(** The table read from [sampleRepo] declares [django]: the literal
    [django] matches, the literal [Django] does not, a pattern that
    searches for [jango] does. *)
Example django_literal_is_case_sensitive :
  let table : DepsMap := dependencyTable silentExtractors sampleRepo in
  table DepType.python = [js "django"]
  /\ dependenciesLoop table [pip "django"] = true
  /\ dependenciesLoop table [pip "Django"] = false
  /\ dependenciesLoop table
       [{| dep_type := DepType.python;
           dep_name := Re {| RegExp.test := fun s => includes s (js "jango") |} |}]
     = true.
Proof. vm_compute. repeat split. Qed.

(** The PostgreSQL rule with the single variable [POSTGRES_URL], and
    with the single variable [MY_POSTGRES_URL]. *)
Example postgres_prefix_not_substring :
  (evaluateRule postgresqlRule ∅ ∅ ∅ (readCached sampleRepo) sampleRepo
     (fun _ => []) [js "POSTGRES_URL"] newScan).2 = Ok true
  /\ (evaluateRule postgresqlRule ∅ ∅ ∅ (readCached sampleRepo) sampleRepo
        (fun _ => []) [js "MY_POSTGRES_URL"] newScan).2 = Ok false.
Proof. vm_compute. split; reflexivity. Qed.

(** What steps 1 to 4 return is determined by the provider. *)
Lemma prepared_is ex provider st1 (d : DepsMap) (e : list jsstring) :
  prepare ex provider newScan = (st1, Ok (d, e)) ->
  st1 = (prepare ex provider newScan).1
  /\ d = dependencyTable ex provider
  /\ e = textsOf provider envFiles extractEnvVarNames.
Proof.
  intros Hrun.
  destruct (listFiles provider (js ".")) as [rootFiles|err] eqn:Hroot.
  - destruct (prepare_spec ex provider rootFiles Hroot) as (st1' & Hrun' & _).
    rewrite Hrun in Hrun'. injection Hrun' as -> -> ->.
    now rewrite Hrun.
  - destruct (prepare_rejects ex provider err Hroot) as (st1' & Hrun' & _).
    rewrite Hrun in Hrun'. discriminate.
Qed.

(** C4 on [sampleRepo]: four of the six rules match, in catalog order,
    each with its name and type. *)
Lemma sample_scan_output :
  listFiles sampleRepo (js ".")
  = Ok [directory "docker" "docker"; file "app.tsx" "app.tsx";
        file "requirements.txt" "requirements.txt"]
  /\ exists st,
       analyser silentExtractors sampleCatalog sampleRepo newScan
       = (st, Ok {| childs :=
                      [ {| node_name := js "TypeScript";
                           node_type := TechType.language |};
                        {| node_name := js "Django";
                           node_type := TechType.framework |};
                        {| node_name := js "Docker";
                           node_type := TechType.hosting |};
                        {| node_name := js "PostgreSQL";
                           node_type := TechType.db |} ] |}).
Proof.
  split; [reflexivity|].
  destruct (analyser_output_in_catalog_order silentExtractors sampleCatalog
              sampleRepo _ eq_refl)
    as (st1 & d & e & st & Hprep & _ & Hrun).
  exists st. rewrite Hrun.
  apply prepared_is in Hprep as (-> & -> & ->).
  reflexivity.
Defined.

(** C7 on [flakyRepo], whose existence check rejects for
    [angular.json]: the Angular rule leaves its warning, the four other
    rules match as they do without it. *)
Lemma flaky_scan_isolates_angular :
  let st1 := (prepare silentExtractors flakyRepo newScan).1 in
  let depsMap := dependencyTable silentExtractors flakyRepo in
  let envVarNames := textsOf flakyRepo envFiles extractEnvVarNames in
  prepare silentExtractors flakyRepo newScan = (st1, Ok (depsMap, envVarNames))
  /\ (evaluateRule angularRule (allPaths st1) (extensionSet st1)
        (allFileNames st1) (readCached flakyRepo) flakyRepo
        depsMap envVarNames st1).2 = Throw (js "EACCES")
  /\ exists st st' payload,
       analyser silentExtractors
         ([typescriptRule; djangoRule]
          ++ angularRule :: [dockerRule; postgresqlRule])
         flakyRepo newScan = (st, Ok payload)
       /\ analyser silentExtractors
            ([typescriptRule; djangoRule] ++ [dockerRule; postgresqlRule])
            flakyRepo newScan = (st', Ok payload)
       /\ childs payload = [nodeOf typescriptRule; nodeOf djangoRule;
                            nodeOf dockerRule; nodeOf postgresqlRule]
       /\ warnings st = [warningText angularRule (js "EACCES")]
       /\ warnings st' = [].
Proof.
  intros st1 depsMap envVarNames.
  split; [vm_compute; reflexivity|].
  split; [vm_compute; reflexivity|].
  destruct (rule_fault_is_isolated silentExtractors flakyRepo
              (prepare silentExtractors flakyRepo newScan).1
              (dependencyTable silentExtractors flakyRepo)
              (textsOf flakyRepo envFiles extractEnvVarNames)
              [typescriptRule; djangoRule] angularRule
              [dockerRule; postgresqlRule] (js "EACCES"))
    as (st & st' & payload & H1 & H2 & H3 & H4 & H5 & _).
  - vm_compute; reflexivity.
  - vm_compute; reflexivity.
  - exists st, st', payload. rewrite H1, H2, H3, H4, H5.
    conjs; reflexivity.
Defined.

(** C10 on [missingRepo], the local-disk provider over a root
    directory that does not exist. *)
Lemma missing_root_scan_is_empty :
  listFiles missingRepo (js ".") = Ok []
  /\ exists st,
       analyser silentExtractors sampleCatalog missingRepo newScan
       = (st, Ok {| childs := [] |})
       /\ warnings st = [].
Proof.
  split; [reflexivity|].
  apply (empty_repository_gives_no_match silentExtractors sampleCatalog
           missingRepo).
  - reflexivity.
  - intros p. exists (js "ENOENT"). reflexivity.
  - intros p. reflexivity.
Defined.

(** C3. The scan of [docsRepo] with the catalog rule [cplusplus]: the
    only root entry is the directory [docs], so [Makefile] is the name
    of no root entry; no [Makefile] and no [CMakeLists.txt] exists at
    the root, neither is a path of the index, and the repository holds
    no file with an extension. Yet [Makefile], the name of
    [docs/Makefile], is in the set the marker-file strategy receives as
    [rootNames]: the rule matches on it, after the one existence check
    for [CMakeLists.txt], and the scan reports C++. *)
Theorem nested_Makefile_matches_cplusplus :
  listFiles docsRepo (js ".") = Ok [directory "docs" "docs"]
  /\ listFiles docsRepo (js "docs") = Ok [file "docs/Makefile" "Makefile"]
  /\ exists_ docsRepo (js "Makefile") = Ok false
  /\ exists_ docsRepo (js "CMakeLists.txt") = Ok false
  /\ exists st1 depsMap envVarNames,
       prepare silentExtractors docsRepo newScan
       = (st1, Ok (depsMap, envVarNames))
       /\ js "Makefile" ∈ allFileNames st1
       /\ (js "Makefile" ∉ allPaths st1)
       /\ (js "CMakeLists.txt" ∉ allPaths st1)
       /\ extensionSet st1 = ∅
       /\ (let run :=
             evaluateRule cplusplusRule (allPaths st1) (extensionSet st1)
               (allFileNames st1) (readCached docsRepo) docsRepo
               depsMap envVarNames st1 in
           run.2 = Ok true
           /\ calls run.1 = calls st1 ++ [CallExists (js "CMakeLists.txt")])
       /\ (analyser silentExtractors [cplusplusRule] docsRepo newScan).2
          = Ok {| childs := [ {| node_name := js "C++";
                                 node_type := TechType.language |} ] |}.
Proof.
  do 4 (split; [reflexivity|]).
  exists (prepare silentExtractors docsRepo newScan).1,
    (dependencyTable silentExtractors docsRepo),
    (textsOf docsRepo envFiles extractEnvVarNames).
  split; [vm_compute; reflexivity|].
  split; [apply (bool_decide_unpack _); vm_compute; exact I|].
  split; [apply (bool_decide_unpack _); vm_compute; exact I|].
  split; [apply (bool_decide_unpack _); vm_compute; exact I|].
  split; [vm_compute; reflexivity|].
  split; [split; vm_compute; reflexivity|].
  vm_compute. reflexivity.
Qed.

Ltac in_cases H :=
  apply list_elem_of_In in H; simpl in H;
  repeat match type of H with
         | _ \/ _ => destruct H as [H|H]
         | False => destruct H
         end.

(** On [sampleRepo]: a root name and a second-level name are in the
    set, the third-level name [old.py] is not. *)
Lemma sample_rootNames :
  listFiles sampleRepo (js ".")
  = Ok [directory "docker" "docker"; file "app.tsx" "app.tsx";
        file "requirements.txt" "requirements.txt"]
  /\ exists st1 depsMap envVarNames,
       prepare silentExtractors sampleRepo newScan
       = (st1, Ok (depsMap, envVarNames))
       /\ js "requirements.txt" ∈ allFileNames st1
       /\ js "Dockerfile" ∈ allFileNames st1
       /\ js "old.py" ∉ allFileNames st1.
Proof.
  split; [reflexivity|].
  destruct (rootNames_are_first_and_second_level_names silentExtractors
              sampleRepo _ eq_refl)
    as (st1 & d & e & Hprep & Hiff & _).
  exists st1, d, e. split; [exact Hprep|]. split; [|split].
  - apply Hiff. left. exists (file "requirements.txt" "requirements.txt").
    split; [|reflexivity]. apply list_elem_of_In. simpl. auto.
  - apply Hiff. right.
    exists (directory "docker" "docker"), (file "docker/Dockerfile" "Dockerfile").
    split; [apply list_elem_of_In; simpl; auto|].
    split; [reflexivity|]. split; [|reflexivity].
    apply list_elem_of_In. simpl. auto.
  - intros Hin. apply Hiff in Hin
      as [(f & Hf & Hn)|(dir & c & Hdir & Hisdir & Hc & Hn)].
    + in_cases Hf; subst f; discriminate Hn.
    + in_cases Hdir; subst dir; try discriminate Hisdir.
      change (c ∈ [file "docker/Dockerfile" "Dockerfile";
                   directory "docker/legacy" "legacy"]) in Hc.
      in_cases Hc; subst c; discriminate Hn.
Defined.

(** C5 on [sampleRepo]: [app.tsx] at the root makes the [.tsx] rule
    match; [docker/legacy/old.py], three levels down, does not make the
    [.py] rule match. *)
Lemma sample_extension_rules :
  listFiles sampleRepo (js ".")
  = Ok [directory "docker" "docker"; file "app.tsx" "app.tsx";
        file "requirements.txt" "requirements.txt"]
  /\ exists st1 depsMap envVarNames,
       prepare silentExtractors sampleRepo newScan
       = (st1, Ok (depsMap, envVarNames))
       /\ extensionSet st1 = {[js ".tsx"; js ".txt"]}
       /\ (evaluateRule tsxRule (allPaths st1) (extensionSet st1)
             (allFileNames st1) (readCached sampleRepo) sampleRepo
             depsMap envVarNames st1).2 = Ok true
       /\ (evaluateRule pythonRule (allPaths st1) (extensionSet st1)
             (allFileNames st1) (readCached sampleRepo) sampleRepo
             depsMap envVarNames st1).2 = Ok false.
Proof.
  split; [reflexivity|].
  destruct (extension_rule_matches_root_files_only silentExtractors
              sampleRepo _ tsxRule [js ".tsx"] eq_refl eq_refl eq_refl eq_refl)
    as (st1 & d & e & Hprep & Hset & Htsx & _).
  destruct (extension_rule_matches_root_files_only silentExtractors
              sampleRepo _ pythonRule [js ".py"] eq_refl eq_refl eq_refl eq_refl)
    as (st1' & d' & e' & Hprep' & _ & Hpy & _).
  rewrite Hprep in Hprep'. injection Hprep' as <- <- <-.
  exists st1, d, e. split; [exact Hprep|]. split; [|split].
  - rewrite Hset. cbn. set_solver.
  - destruct (Htsx st1) as (hit & -> & Hhit). cbn. f_equal. apply Hhit.
    exists (file "app.tsx" "app.tsx"), (js ".tsx").
    split; [apply list_elem_of_In; simpl; auto|].
    split; [reflexivity|]. split; [reflexivity|].
    apply list_elem_of_In. simpl. auto.
  - destruct (Hpy st1) as (hit & -> & Hhit). cbn. f_equal.
    destruct hit; [exfalso|reflexivity].
    destruct (proj1 Hhit eq_refl) as (f & ext & Hf & Hdir & Hext & Hin).
    in_cases Hin; subst ext.
    in_cases Hf; subst f; discriminate.
Defined.

(** * Further properties *)

(** ** What a scan asks of the provider *)

Lemma emits_ret {A} Q (a : A) : emits Q (ret a).
Proof. intros st. exists []. simpl. now rewrite app_nil_r. Qed.

Lemma emits_bind {A B} Q (m : Async A) (k : A -> Async B) :
  emits Q m -> (forall a, emits Q (k a)) -> emits Q (bind m k).
Proof.
  intros Hm Hk st. unfold bind.
  destruct (Hm st) as (e1 & Hc1 & Hq1).
  destruct (m st) as [st1 [a|err]]; simpl in *.
  - destruct (Hk a st1) as (e2 & Hc2 & Hq2).
    exists (e1 ++ e2). rewrite Hc2, Hc1, app_assoc.
    split; [reflexivity | now apply Forall_app].
  - exists e1. auto.
Qed.

Lemma emits_tryCatch {A} Q (body : Async A) (handler : exn -> Async A) :
  emits Q body -> (forall e, emits Q (handler e)) -> emits Q (tryCatch body handler).
Proof.
  intros Hm Hk st. unfold tryCatch.
  destruct (Hm st) as (e1 & Hc1 & Hq1).
  destruct (body st) as [st1 [a|err]]; simpl in *.
  - exists e1. auto.
  - destruct (Hk err st1) as (e2 & Hc2 & Hq2).
    exists (e1 ++ e2). rewrite Hc2, Hc1, app_assoc.
    split; [reflexivity | now apply Forall_app].
Qed.

Lemma emits_weaken {A} (Q Q' : IOCall -> Prop) (m : Async A) :
  (forall c, Q c -> Q' c) -> emits Q m -> emits Q' m.
Proof.
  intros Himp Hm st. destruct (Hm st) as (e & Hc & Hq).
  exists e. split; [assumption|]. eapply Forall_impl; eauto.
Qed.

Lemma emits_quiet {A} Q (m : Async A) :
  (forall st, calls (m st).1 = calls st) -> emits Q m.
Proof. intros H st. exists []. now rewrite H, app_nil_r. Qed.

Lemma emits_get {A} Q (f : Scan -> A) : emits Q (get f).
Proof. now apply emits_quiet. Qed.

Lemma emits_call {A} (Q : IOCall -> Prop) (c : IOCall) (answer : result A) :
  Q c -> emits Q (recordCall c ;; fun st => (st, answer)).
Proof.
  intros Hq st. exists [c]. unfold bind, recordCall, modify. simpl.
  split; [reflexivity | now constructor].
Qed.

Lemma emits_readCached Q provider p :
  Q (CallReadFile p) -> emits Q (readCached provider p).
Proof.
  intros Hq. unfold readCached. apply emits_bind; [apply emits_get|].
  intros cache. destruct (cache !! p) as [v|]; [apply emits_ret|].
  apply emits_tryCatch.
  - apply emits_bind; [now apply emits_call|]. intros content.
    apply emits_bind; [now apply emits_quiet | intros; apply emits_ret].
  - intros e. apply emits_bind; [now apply emits_quiet | intros; apply emits_ret].
Qed.

Lemma emits_filesLoop provider names paths fs :
  emits (fun c => exists f, f ∈ fs /\ (f ∉ names) /\ (f ∉ paths)
                       /\ c = CallExists f)
    (filesLoop provider names paths fs).
Proof.
  induction fs as [|f rest IH]; simpl; [apply emits_ret|].
  destruct (bool_decide (f ∈ names) || bool_decide (f ∈ paths)) eqn:Hin;
    [apply emits_ret|].
  apply orb_false_iff in Hin as [Hn Hp].
  apply bool_decide_eq_false in Hn, Hp.
  apply emits_bind.
  - apply emits_call. exists f. split; [left | auto].
  - intros found. destruct found; [apply emits_ret|].
    eapply emits_weaken; [|exact IH].
    intros c (g & Hg & Hrest). exists g. split; [now right | assumption].
Qed.

Lemma emits_contentPatternsLoop provider cps :
  emits (fun c => exists cp, cp ∈ cps /\ c = CallReadFile (cp_file cp))
    (contentPatternsLoop (readCached provider) cps).
Proof.
  induction cps as [|cp rest IH]; simpl; [apply emits_ret|].
  assert (Hrest : emits
            (fun c => exists cp0, cp0 ∈ cp :: rest /\ c = CallReadFile (cp_file cp0))
            (contentPatternsLoop (readCached provider) rest)).
  { eapply emits_weaken; [|exact IH].
    intros c (g & Hg & Hc). exists g. split; [now right | assumption]. }
  apply emits_bind.
  - apply emits_readCached. exists cp. split; [left | reflexivity].
  - intros [text|]; [|exact Hrest].
    destruct (patternsLoop text (cp_patterns cp)); [apply emits_ret | exact Hrest].
Qed.

Lemma emits_evaluateRule provider rule paths exts names d e :
  emits (ruleCall names paths rule)
    (evaluateRule rule paths exts names (readCached provider) provider d e).
Proof.
  unfold evaluateRule. apply emits_bind.
  - destruct (rule_match rule ≫= files) as [fs|] eqn:Hf; [|apply emits_ret].
    eapply emits_weaken; [|apply emits_filesLoop].
    intros c (f & Hin & Hn & Hp & ->). left. exists fs, f. auto.
  - intros hit. destruct hit; [apply emits_ret|].
    match goal with |- context [if ?b then _ else _] => destruct b end;
      [apply emits_ret|].
    apply emits_bind.
    + destruct (rule_match rule ≫= contentPatterns) as [cps|] eqn:Hc;
        [|apply emits_ret].
      eapply emits_weaken; [|apply emits_contentPatternsLoop].
      intros c (cp & Hin & ->). right. exists cps, cp. auto.
    + intros hit. destruct hit; [apply emits_ret|].
      repeat match goal with
             | |- context [if ?b then _ else _] => destruct b
             end; apply emits_ret.
Qed.

(** The calls of the walk. *)
Lemma indexRoot_calls rootFiles dirs st :
  calls (indexRoot rootFiles dirs st).1 = calls st.
Proof.
  destruct (indexRoot_spec rootFiles dirs st) as (st' & -> & _ & _ & _ & _ & _ & Hc).
  exact Hc.
Qed.

Lemma indexGrandchildren_calls gcs st :
  calls (indexGrandchildren gcs st).1 = calls st.
Proof.
  revert st. induction gcs as [|gc rest IH]; intros st; simpl; [reflexivity|].
  unfold bind, addPath, modify. simpl. now rewrite IH.
Qed.

Lemma indexChildren_calls provider children st :
  calls (indexChildren provider children st).1
  = calls st
    ++ map CallListFiles (map pf_path (List.filter pf_isDirectory children)).
Proof.
  revert st. induction children as [|c rest IH]; intros st.
  - simpl. now rewrite app_nil_r.
  - cbn [indexChildren List.filter]. unfold bind at 1 2, addPath, addFileName, modify.
    cbn [fst snd].
    set (st0 := {| allPaths := _ |}).
    destruct (pf_isDirectory c).
    + unfold bind at 1, tryCatch.
      destruct (awaitListFiles_spec provider (pf_path c) st0)
        as (sta & Hrun & Hcalls & _).
      destruct (listFiles provider (pf_path c)) as [gcs|e].
      * rewrite (bind_ok _ _ _ _ _ Hrun).
        pose proof (indexGrandchildren_calls gcs sta) as Hg.
        destruct (indexGrandchildren gcs sta) as [stb [[]|e]]; simpl in Hg;
          cbn; rewrite IH, Hg, Hcalls; simpl; now rewrite <- app_assoc.
      * rewrite (bind_throw _ _ _ _ _ Hrun). cbn.
        rewrite IH, Hcalls. simpl. now rewrite <- app_assoc.
    + unfold bind at 1. cbn. now rewrite IH.
Qed.

Lemma walkDirs_calls provider dirs st :
  calls (walkDirs provider dirs st).1
  = calls st ++ map CallListFiles (concat (map (listingsBelow provider) dirs)).
Proof.
  revert st. induction dirs as [|dir rest IH]; intros st.
  - simpl. now rewrite app_nil_r.
  - cbn [walkDirs map concat]. unfold bind at 1, tryCatch.
    destruct (awaitListFiles_spec provider dir st) as (sta & Hrun & Hcalls & _).
    unfold listingsBelow at 1, childrenOf.
    destruct (listFiles provider dir) as [children|e].
    + rewrite (bind_ok _ _ _ _ _ Hrun).
      pose proof (indexChildren_calls provider children sta) as Hc.
      destruct (indexChildren provider children sta) as [stb [[]|e]];
        simpl in Hc; cbn; rewrite IH, Hc, Hcalls, map_app; simpl;
        now rewrite <- !app_assoc.
    + rewrite (bind_throw _ _ _ _ _ Hrun). cbn.
      rewrite IH, Hcalls. simpl. now rewrite <- app_assoc.
Qed.

(** The reads of steps 3 and 4. *)
Lemma readsExactly_ret {A} (a : A) : readsExactly [] (ret a).
Proof.
  intros st _. exists st, a. simpl. rewrite app_nil_r. auto.
Qed.

Lemma readsExactly_bind {A B} L1 L2 (m : Async A) (k : A -> Async B) :
  NoDup (L1 ++ L2) ->
  readsExactly L1 m -> (forall a, readsExactly L2 (k a)) ->
  readsExactly (L1 ++ L2) (bind m k).
Proof.
  intros Hnd Hm Hk st Hnone.
  apply NoDup_app in Hnd as (_ & Hdisj & _).
  destruct (Hm st) as (st1 & a & Hrun & Hc1 & Hk1).
  { intros p Hp. apply Hnone, elem_of_app. now left. }
  destruct (Hk a st1) as (st2 & b & Hrun2 & Hc2 & Hk2).
  { intros p Hp. rewrite Hk1.
    - apply Hnone, elem_of_app. now right.
    - intros Hp1. exact (Hdisj p Hp1 Hp). }
  exists st2, b. rewrite (bind_ok _ _ _ _ _ Hrun), Hrun2, Hc2, Hc1.
  rewrite map_app, app_assoc. split; [reflexivity|]. split; [reflexivity|].
  intros q Hq. rewrite not_elem_of_app in Hq. destruct Hq as [Hq1 Hq2].
  now rewrite Hk2, Hk1.
Qed.

Lemma readsExactly_readCached provider p :
  readsExactly [p] (readCached provider p).
Proof.
  intros st Hnone.
  destruct (readCached_miss provider p st) as (st' & Hrun & Hc & Hcalls & _).
  { apply Hnone. now left. }
  exists st', (readResult provider p). split; [assumption|].
  split; [assumption|].
  intros q Hq. rewrite Hc, lookup_insert_ne; [reflexivity|].
  intros ->. apply Hq. now left.
Qed.

Lemma readsExactly_collectFrom provider names extract acc :
  NoDup names -> readsExactly names (collectFrom provider names extract acc).
Proof.
  revert acc. induction names as [|f rest IH]; intros acc Hnd.
  - apply readsExactly_ret.
  - cbn [collectFrom]. change (f :: rest) with ([f] ++ rest).
    apply readsExactly_bind; [assumption | apply readsExactly_readCached|].
    intros c. apply IH. now apply NoDup_cons_1_2 in Hnd.
Qed.

Ltac compute_decide := apply (bool_decide_unpack _); vm_compute; exact I.

Lemma NoDup_manifestFiles : NoDup manifestFiles.
Proof. compute_decide. Qed.

Ltac next_read :=
  match goal with
  | |- readsExactly (?p :: ?L) (bind (readCached _ ?p) _) =>
      change (p :: L) with ([p] ++ L);
      apply readsExactly_bind;
      [compute_decide
      | apply readsExactly_readCached
      | intros ?; cbv zeta]
  end.

Lemma readsExactly_steps_3_4 ex provider :
  readsExactly manifestFiles
    (depsMap <- extractDependencies ex provider ;;
     envVarNames <- collectFrom provider envFiles extractEnvVarNames [] ;;
     ret (depsMap, envVarNames)).
Proof.
  change manifestFiles with
    (([js "package.json"] ++ requirementsFiles
      ++ [js "pyproject.toml"; js "Gemfile"; js "go.mod"; js "Cargo.toml";
          js "composer.json"]
      ++ composeFiles ++ [js "Dockerfile"]) ++ envFiles ++ []).
  apply readsExactly_bind;
    [compute_decide | |].
  - unfold extractDependencies.
    change ([js "package.json"] ++ requirementsFiles
            ++ [js "pyproject.toml"; js "Gemfile"; js "go.mod"; js "Cargo.toml";
                js "composer.json"]
            ++ composeFiles ++ [js "Dockerfile"])
      with (js "package.json"
            :: (requirementsFiles
                ++ js "pyproject.toml" :: js "Gemfile" :: js "go.mod"
                   :: js "Cargo.toml" :: js "composer.json"
                   :: (composeFiles ++ js "Dockerfile" :: []))).
    next_read.
    apply readsExactly_bind;
      [compute_decide
      | apply readsExactly_collectFrom; compute_decide
      | intros ?].
    do 5 next_read.
    apply readsExactly_bind;
      [compute_decide
      | apply readsExactly_collectFrom; compute_decide
      | intros ?].
    next_read. apply readsExactly_ret.
  - intros depsMap. apply readsExactly_bind;
      [compute_decide
      | apply readsExactly_collectFrom; compute_decide
      | intros ?; apply readsExactly_ret].
Qed.

(** ** The listings of a scan *)

Lemma prepare_trace ex provider rootFiles :
  listFiles provider (js ".") = Ok rootFiles ->
  exists st1,
    prepare ex provider newScan
    = (st1, Ok (dependencyTable ex provider,
                textsOf provider envFiles extractEnvVarNames))
    /\ calls st1
       = map CallListFiles (scanListings provider rootFiles)
         ++ map CallReadFile manifestFiles.
Proof.
  intros Hroot.
  destruct (prepare_spec ex provider rootFiles Hroot) as (st1 & Hprep & _).
  exists st1. split; [exact Hprep|].
  revert Hprep. unfold prepare.
  destruct (awaitListFiles_spec provider (js ".") newScan)
    as (sta & Hrun & Hcalls & _ & (Hca & _)).
  rewrite Hroot in Hrun. rewrite (bind_ok _ _ _ _ _ Hrun).
  destruct (indexRoot_spec rootFiles [] sta)
    as (stb & Hrunb & _ & _ & _ & _ & Hcb & Hcallsb).
  rewrite (bind_ok _ _ _ _ _ Hrunb). cbn [app].
  pose proof (walkDirs_calls provider
                (map pf_name (List.filter pf_isDirectory rootFiles)) stb) as Hwc.
  destruct (walkDirs_spec provider
              (map pf_name (List.filter pf_isDirectory rootFiles)) stb)
    as (stc & Hrunc & _ & _ & _ & _ & (Hcc & _)).
  rewrite Hrunc in Hwc. cbn [fst] in Hwc.
  rewrite (bind_ok _ _ _ _ _ Hrunc).
  destruct (readsExactly_steps_3_4 ex provider stc) as (std & a & Hrund & Hcd & _).
  { intros p _. rewrite Hcc, Hcb, Hca. apply lookup_empty. }
  rewrite Hrund. intros [= <- _].
  rewrite Hcd, Hwc, Hcallsb, Hcalls. unfold scanListings. simpl.
  reflexivity.
Qed.

Lemma evaluateRules_calls provider d e rules :
  forall matched st,
    cacheInv provider st ->
    exists extra,
      calls (evaluateRules rules provider d e matched st).1 = calls st ++ extra
      /\ Forall (fun c => exists rule,
                   rule ∈ rules
                   /\ ruleCall (allFileNames st) (allPaths st) rule c) extra.
Proof.
  induction rules as [|rule rest IH]; intros matched st Hinv.
  - exists []. simpl. now rewrite app_nil_r.
  - cbn [evaluateRules].
    destruct (evaluateRule_spec provider rule (allPaths st) (extensionSet st)
                (allFileNames st) d e st Hinv)
      as (st1 & Hrun & Hinv1 & (Hp1 & Hn1 & He1 & Hw1)).
    destruct (emits_evaluateRule provider rule (allPaths st) (extensionSet st)
                (allFileNames st) d e st) as (extra1 & Hc1 & Hq1).
    rewrite Hrun in Hc1. cbn [fst] in Hc1.
    assert (Htry : exists st2 m,
      tryCatch
        (paths <- get allPaths ;;
         exts <- get extensionSet ;;
         names <- get allFileNames ;;
         hit <- evaluateRule rule paths exts names (readCached provider)
                  provider d e ;;
         ret (if hit : bool then matched ++ [nodeOf rule] else matched))
        (fun err => warn (warningText rule err) ;; ret matched) st
      = (st2, Ok m)
      /\ cacheInv provider st2
      /\ allPaths st2 = allPaths st
      /\ allFileNames st2 = allFileNames st
      /\ calls st2 = calls st1).
    { unfold tryCatch, bind at 1 2 3, get.
      destruct (ruleOutcome provider (allPaths st) (extensionSet st)
                  (allFileNames st) d e rule) as [b|err].
      - rewrite (bind_ok _ _ _ _ _ Hrun). exists st1. eexists.
        split; [reflexivity|]. auto.
      - rewrite (bind_throw _ _ _ _ _ Hrun).
        unfold warn, modify, bind, ret. simpl. eexists. eexists.
        split; [reflexivity|]. simpl. auto. }
    destruct Htry as (st2 & m & Hrun2 & Hinv2 & Hp2 & Hn2 & Hc2).
    rewrite (bind_ok _ _ _ _ _ Hrun2).
    destruct (IH m st2 Hinv2) as (extra2 & Hc3 & Hq2).
    exists (extra1 ++ extra2). rewrite Hc3, Hc2, Hc1, app_assoc.
    split; [reflexivity|]. apply Forall_app. split.
    + eapply Forall_impl; [exact Hq1|]. intros c Hc. exists rule.
      split; [left | exact Hc].
    + rewrite Hp2, Hn2 in Hq2. eapply Forall_impl; [exact Hq2|].
      intros c (r & Hr & Hc). exists r. split; [now right | exact Hc].
Qed.

(** The calls of a whole scan whose root can be listed. *)
Lemma analyser_calls ex rules provider rootFiles :
  listFiles provider (js ".") = Ok rootFiles ->
  exists st payload extra,
    analyser ex rules provider newScan = (st, Ok payload)
    /\ calls st
       = map CallListFiles (scanListings provider rootFiles)
         ++ map CallReadFile manifestFiles ++ extra
    /\ Forall (fun c => exists rule,
                 rule ∈ rules
                 /\ ruleCall (allFileNames st) (allPaths st) rule c) extra.
Proof.
  intros Hroot.
  destruct (prepare_trace ex provider rootFiles Hroot) as (st1 & Hprep & Hc1).
  pose proof (prepare_ok_inv _ _ _ _ _ Hprep) as Hinv.
  destruct (evaluateRules_spec provider (dependencyTable ex provider)
              (textsOf provider envFiles extractEnvVarNames) rules [] st1 Hinv)
    as (st2 & Hrun2 & _ & Hp2 & Hn2 & _).
  destruct (evaluateRules_calls provider (dependencyTable ex provider)
              (textsOf provider envFiles extractEnvVarNames) rules [] st1 Hinv)
    as (extra & Hc2 & Hq).
  rewrite Hrun2 in Hc2. cbn [fst] in Hc2.
  exists st2. eexists. exists extra.
  rewrite analyser_steps, Hprep, Hrun2. split; [reflexivity|].
  rewrite Hc2, Hc1, <- app_assoc, Hp2, Hn2. auto.
Qed.

Lemma listDirsOf_listings L : listDirsOf (map CallListFiles L) = L.
Proof. induction L as [|x L IH]; [reflexivity|]. cbn. f_equal. exact IH. Qed.

Lemma listDirsOf_reads L : listDirsOf (map CallReadFile L) = [].
Proof. induction L as [|x L IH]; [reflexivity|]. exact IH. Qed.

Lemma listDirsOf_ruleCalls (Q : IOCall -> Prop) extra :
  (forall c, Q c -> forall dir, c <> CallListFiles dir) ->
  Forall Q extra -> listDirsOf extra = [].
Proof.
  intros Hq. induction 1 as [|c extra Hc _ IH]; [reflexivity|].
  cbn. destruct c as [dir|p|p]; try exact IH.
  exfalso. exact (Hq _ Hc dir eq_refl).
Qed.

Lemma length_listings provider dirs :
  length (concat (map (listingsBelow provider) dirs))
  = (length dirs
     + length (List.filter pf_isDirectory
                 (concat (map (childrenOf provider) dirs))))%nat.
Proof.
  induction dirs as [|dir dirs IH]; [reflexivity|].
  cbn [map concat length]. rewrite List.filter_app, !length_app, IH.
  unfold listingsBelow. cbn [length]. rewrite !length_map. lia.
Qed.

(** X1. The walk lists the root, each root directory (by its name) and
    each directory found in those (by its path), in that order, and no
    scan lists anything else: never a directory of the third level. *)
Theorem scan_lists_at_most_three_levels ex rules provider rootFiles st r :
  listFiles provider (js ".") = Ok rootFiles ->
  analyser ex rules provider newScan = (st, r) ->
  listDirsOf (calls st) = scanListings provider rootFiles
  /\ length (listDirsOf (calls st))
     = (1 + length (List.filter pf_isDirectory rootFiles)
        + length (List.filter pf_isDirectory (secondLevel provider rootFiles)))%nat.
Proof.
  intros Hroot Hrun.
  destruct (analyser_calls ex rules provider rootFiles Hroot)
    as (st' & payload & extra & Hrun' & Hcalls & Hq).
  rewrite Hrun in Hrun'. injection Hrun' as -> _.
  assert (Hl : listDirsOf (calls st') = scanListings provider rootFiles).
  { rewrite Hcalls. unfold listDirsOf. rewrite !omap_app.
    fold (listDirsOf (map CallListFiles (scanListings provider rootFiles))).
    fold (listDirsOf (map CallReadFile manifestFiles)).
    fold (listDirsOf extra).
    rewrite listDirsOf_listings, listDirsOf_reads.
    erewrite (listDirsOf_ruleCalls _ extra); [now rewrite !app_nil_r| |exact Hq].
    intros c (rule & _ & [(fs & f & _ & _ & _ & _ & ->)|(cps & cp & _ & _ & ->)]) dir;
      discriminate. }
  split; [exact Hl|]. rewrite Hl. unfold scanListings, secondLevel.
  cbn [length]. rewrite length_listings, length_map. lia.
Qed.

(** ** The calls of a scan *)

Lemma readCount_reads_in p L :
  p ∈ L -> (0 < readCount p (map CallReadFile L))%nat.
Proof.
  induction L as [|x L IH]; intros Hin; [inversion Hin|].
  unfold readCount in *. simpl.
  destruct (bool_decide_reflect (x = p)) as [->|Hne]; simpl; [lia|].
  apply elem_of_cons in Hin as [->|Hin]; [congruence | auto].
Qed.

(** X2. A scan whose root can be listed makes its calls in this order:
    the listings of the walk, one read for each of the twenty
    conventional manifest files, then the calls of rule evaluation. Each
    manifest file is read exactly once in the whole scan, whether it
    exists or not. *)
Theorem scan_reads_each_manifest_once ex rules provider rootFiles st r :
  listFiles provider (js ".") = Ok rootFiles ->
  analyser ex rules provider newScan = (st, r) ->
  (exists extra,
      calls st
      = map CallListFiles (scanListings provider rootFiles)
        ++ map CallReadFile manifestFiles ++ extra
      /\ (rules = [] -> extra = []))
  /\ length manifestFiles = 20%nat
  /\ (forall p, p ∈ manifestFiles -> readCount p (calls st) = 1%nat).
Proof.
  intros Hroot Hrun.
  destruct (analyser_calls ex rules provider rootFiles Hroot)
    as (st' & payload & extra & Hrun' & Hcalls & Hq).
  rewrite Hrun in Hrun'. injection Hrun' as -> ->.
  split; [|split; [vm_compute; reflexivity|]].
  - exists extra. split; [exact Hcalls|]. intros ->.
    destruct Hq as [|c extra (rule & Hin & _) _]; [reflexivity | inversion Hin].
  - intros p Hp.
    destruct (analyser_cacheInv _ _ _ _ _ Hrun) as (_ & Hm).
    apply Hm. rewrite Hcalls, !readCount_app.
    pose proof (readCount_reads_in p manifestFiles Hp). lia.
Qed.

(** X3. Every provider call of a scan is one of: a listing of the walk;
    a read of a manifest file or of the target file of a content pattern
    of a catalog rule; an existence check for a marker file of a catalog
    rule that is in neither the name set nor the path set. *)
Theorem scan_calls_are_confined ex rules provider rootFiles st r c :
  listFiles provider (js ".") = Ok rootFiles ->
  analyser ex rules provider newScan = (st, r) ->
  c ∈ calls st ->
  (exists dir, c = CallListFiles dir /\ dir ∈ scanListings provider rootFiles)
  \/ (exists p,
        c = CallReadFile p
        /\ (p ∈ manifestFiles
            \/ exists rule cps cp,
                 rule ∈ rules /\ rule_match rule ≫= contentPatterns = Some cps
                 /\ cp ∈ cps /\ cp_file cp = p))
  \/ (exists f rule fs,
        c = CallExists f /\ rule ∈ rules
        /\ rule_match rule ≫= files = Some fs /\ f ∈ fs
        /\ (f ∉ allFileNames st) /\ (f ∉ allPaths st)).
Proof.
  intros Hroot Hrun Hin.
  destruct (analyser_calls ex rules provider rootFiles Hroot)
    as (st' & payload & extra & Hrun' & Hcalls & Hq).
  rewrite Hrun in Hrun'. injection Hrun' as -> _.
  rewrite Hcalls, !elem_of_app in Hin. destruct Hin as [Hin|[Hin|Hin]].
  - left. apply list_elem_of_In, in_map_iff in Hin as (dir & <- & Hdir).
    exists dir. now rewrite list_elem_of_In.
  - right; left. apply list_elem_of_In, in_map_iff in Hin as (p & <- & Hp).
    exists p. rewrite list_elem_of_In. auto.
  - rewrite Forall_forall in Hq.
    destruct (Hq c Hin)
      as (rule & Hrule & [(fs & f & Hfs & Hf & Hn & Hp & ->)
                         |(cps & cp & Hcps & Hcp & ->)]).
    + right; right. exists f, rule, fs. auto 10.
    + right; left. exists (cp_file cp). split; [reflexivity|].
      right. exists rule, cps, cp. auto.
Qed.

Lemma analyser_rejects ex rules provider err :
  listFiles provider (js ".") = Throw err ->
  exists st,
    analyser ex rules provider newScan = (st, Throw err)
    /\ calls st = [CallListFiles (js ".")]
    /\ contentCache st = ∅
    /\ warnings st = [].
Proof.
  intros Hroot. rewrite analyser_steps. unfold prepare.
  destruct (awaitListFiles_spec provider (js ".") newScan)
    as (sta & Hrun & Hcalls & (_ & _ & _ & Hw) & (Hc & _)).
  rewrite Hroot in Hrun. rewrite (bind_throw _ _ _ _ _ Hrun).
  exists sta. auto.
Qed.

(** X4. When the root cannot be listed the scan rejects with the
    provider's error after that single call: nothing is read, checked,
    cached or logged, and no rule is evaluated. *)
Theorem scan_rejects_when_root_listing_fails ex rules provider err :
  listFiles provider (js ".") = Throw err ->
  exists st,
    analyser ex rules provider newScan = (st, Throw err)
    /\ calls st = [CallListFiles (js ".")]
    /\ allPaths st = ∅ /\ allFileNames st = ∅ /\ extensionSet st = ∅
    /\ contentCache st = ∅
    /\ warnings st = [].
Proof.
  intros Hroot. rewrite analyser_steps. unfold prepare.
  destruct (awaitListFiles_spec provider (js ".") newScan)
    as (sta & Hrun & Hcalls & (Hpaths & Hnames & Hexts & Hw) & (Hc & _)).
  rewrite Hroot in Hrun. rewrite (bind_throw _ _ _ _ _ Hrun).
  exists sta. split; [reflexivity|].
  conjs; [exact Hcalls | exact Hpaths | exact Hnames | exact Hexts
         | exact Hc | exact Hw].
Qed.

Lemma elem_of_paths p (l : list ProviderFile) :
  p ∈ (list_to_set (map pf_path l) : gset jsstring)
  <-> exists f, f ∈ l /\ pf_path f = p.
Proof.
  rewrite elem_of_list_to_set, list_elem_of_In, in_map_iff. split.
  - intros (f & Hn & Hf). exists f. now rewrite list_elem_of_In.
  - intros (f & Hf & Hn). exists f. now rewrite <- list_elem_of_In.
Qed.

Lemma elem_of_grandchildrenOf provider children g :
  g ∈ grandchildrenOf provider children
  <-> exists c, c ∈ children /\ pf_isDirectory c = true
                /\ g ∈ childrenOf provider (pf_path c).
Proof.
  unfold grandchildrenOf. rewrite list_elem_of_In, in_concat. split.
  - intros (l & Hl & Hg). apply in_map_iff in Hl as (c & <- & Hc).
    exists c. rewrite !list_elem_of_In.
    destruct (pf_isDirectory c); [auto | inversion Hg].
  - intros (c & Hc & Hdir & Hg).
    exists (childrenOf provider (pf_path c)). split; [|now apply list_elem_of_In].
    apply in_map_iff. exists c. rewrite Hdir.
    split; [reflexivity | now apply list_elem_of_In].
Qed.

(** X5. The path set of a scan holds the paths of the root entries, of
    the entries listed under a root directory's name, and of the entries
    listed under the path of a directory found there, and no other path.
    A listing that fails counts as empty. *)
Theorem path_set_is_three_levels ex rules provider rootFiles st payload :
  listFiles provider (js ".") = Ok rootFiles ->
  analyser ex rules provider newScan = (st, Ok payload) ->
  forall p,
    p ∈ allPaths st
    <-> (exists f, f ∈ rootFiles /\ pf_path f = p)
        \/ (exists dir c,
              dir ∈ rootFiles /\ pf_isDirectory dir = true
              /\ c ∈ childrenOf provider (pf_name dir) /\ pf_path c = p)
        \/ (exists dir c g,
              dir ∈ rootFiles /\ pf_isDirectory dir = true
              /\ c ∈ childrenOf provider (pf_name dir)
              /\ pf_isDirectory c = true
              /\ g ∈ childrenOf provider (pf_path c) /\ pf_path g = p).
Proof.
  intros Hroot Hrun p.
  destruct (prepare_spec ex provider rootFiles Hroot)
    as (st1 & Hprep & Hinv & Hp & _).
  destruct (evaluateRules_spec provider (dependencyTable ex provider)
              (textsOf provider envFiles extractEnvVarNames) rules [] st1 Hinv)
    as (st2 & Hrun2 & _ & Hp2 & _).
  rewrite analyser_steps, Hprep, Hrun2 in Hrun. injection Hrun as <- _.
  rewrite Hp2, Hp, elem_of_paths. split.
  - intros (f & Hf & Hpath). rewrite !elem_of_app in Hf.
    destruct Hf as [Hf|[Hf|Hf]].
    + left. eauto.
    + right; left. apply elem_of_secondLevel in Hf as (dir & Hdir & Hisdir & Hc).
      exists dir, f. auto.
    + right; right. apply elem_of_grandchildrenOf in Hf as (c & Hc & Hcdir & Hg).
      apply elem_of_secondLevel in Hc as (dir & Hdir & Hisdir & Hc).
      exists dir, c, f. auto 10.
  - intros [(f & Hf & Hpath)|[(dir & c & Hdir & Hisdir & Hc & Hpath)
                             |(dir & c & g & Hdir & Hisdir & Hc & Hcdir & Hg & Hpath)]].
    + exists f. rewrite !elem_of_app. auto.
    + exists c. rewrite !elem_of_app. split; [|assumption].
      right; left. apply elem_of_secondLevel. eauto.
    + exists g. rewrite !elem_of_app. split; [|assumption].
      right; right. apply elem_of_grandchildrenOf. exists c.
      split; [|auto]. apply elem_of_secondLevel. eauto.
Qed.

(** X6. Catalogs compose: the payload of two catalogs put end to end is
    the payload of the first followed by the payload of the second, and
    so are the warnings. *)
Theorem catalogs_compose ex provider rootFiles rules1 rules2 :
  listFiles provider (js ".") = Ok rootFiles ->
  exists st st1 st2 payload1 payload2,
    analyser ex rules1 provider newScan = (st1, Ok payload1)
    /\ analyser ex rules2 provider newScan = (st2, Ok payload2)
    /\ analyser ex (rules1 ++ rules2) provider newScan
       = (st, Ok {| childs := childs payload1 ++ childs payload2 |})
    /\ warnings st = warnings st1 ++ warnings st2.
Proof.
  intros Hroot.
  destruct (prepare_spec ex provider rootFiles Hroot)
    as (st0 & Hprep & Hinv & _ & _ & _ & Hw0).
  destruct (evaluateRules_spec provider (dependencyTable ex provider)
              (textsOf provider envFiles extractEnvVarNames) rules1 [] st0 Hinv)
    as (sta & Hruna & _ & _ & _ & _ & Hwa).
  destruct (evaluateRules_spec provider (dependencyTable ex provider)
              (textsOf provider envFiles extractEnvVarNames) rules2 [] st0 Hinv)
    as (stb & Hrunb & _ & _ & _ & _ & Hwb).
  destruct (evaluateRules_spec provider (dependencyTable ex provider)
              (textsOf provider envFiles extractEnvVarNames)
              (rules1 ++ rules2) [] st0 Hinv)
    as (stc & Hrunc & _ & _ & _ & _ & Hwc).
  exists stc, sta, stb. eexists. eexists.
  rewrite !analyser_steps, Hprep, Hruna, Hrunb, Hrunc.
  split; [reflexivity|]. split; [reflexivity|].
  cbn [app childs]. rewrite List.filter_app, map_app. split; [reflexivity|].
  rewrite Hwa, Hwb, Hwc, Hw0, omap_app. reflexivity.
Qed.

(** ** Marker files and content patterns *)

Lemma filesOutcome_answered provider names paths fs :
  (forall f, f ∈ fs -> exists b, exists_ provider f = Ok b) ->
  exists hit,
    filesOutcome provider names paths fs = Ok hit
    /\ (hit = true
        <-> exists f, f ∈ fs
                      /\ (f ∈ names \/ f ∈ paths \/ exists_ provider f = Ok true)).
Proof.
  induction fs as [|f rest IH]; intros Hans; simpl.
  - exists false. split; [reflexivity|].
    split; [discriminate | intros (f & Hf & _); inversion Hf].
  - destruct (bool_decide_reflect (f ∈ names)) as [Hn|Hn]; simpl.
    { exists true. split; [reflexivity|]. split; [|reflexivity].
      intros _. exists f. split; [left | auto]. }
    destruct (bool_decide_reflect (f ∈ paths)) as [Hp|Hp]; simpl.
    { exists true. split; [reflexivity|]. split; [|reflexivity].
      intros _. exists f. split; [left | auto]. }
    destruct (Hans f) as [b Hb]; [left|]. rewrite Hb. destruct b.
    { exists true. split; [reflexivity|]. split; [|reflexivity].
      intros _. exists f. split; [left | auto]. }
    destruct IH as (hit & Hrun & Hiff).
    { intros g Hg. apply Hans. now right. }
    exists hit. split; [exact Hrun|]. rewrite Hiff. split.
    + intros (g & Hg & Hor). exists g. split; [now right | exact Hor].
    + intros (g & Hg & Hor). apply elem_of_cons in Hg as [->|Hg]; [|eauto].
      destruct Hor as [?|[?|Hex]]; [contradiction | contradiction | congruence].
Qed.

(** X7. For a rule whose only strategy is a list of marker files, checked
    against a provider whose existence check answers for each of them:
    the rule matches exactly when some listed name is in the name set, in
    the path set, or exists for the provider. Nothing is read. *)
Theorem marker_rule_matches_index_or_provider
    provider rule fs paths exts names (d : DepsMap) (e : list jsstring) st :
  rule_match rule
  = Some {| files := Some fs; extensions := None; contentPatterns := None |} ->
  dependencies rule = None ->
  dotenv rule = None ->
  (forall f, f ∈ fs -> exists b, exists_ provider f = Ok b) ->
  exists st' hit,
    evaluateRule rule paths exts names (readCached provider) provider d e st
    = (st', Ok hit)
    /\ (hit = true
        <-> exists f, f ∈ fs
                      /\ (f ∈ names \/ f ∈ paths \/ exists_ provider f = Ok true))
    /\ contentCache st' = contentCache st
    /\ (forall p, readCount p (calls st') = readCount p (calls st)).
Proof.
  intros Hmatch Hdeps Hdotenv Hans.
  destruct (filesLoop_spec provider names paths fs st) as (st' & Hrun & _ & Hc & Hr).
  destruct (filesOutcome_answered provider names paths fs Hans)
    as (hit & Hout & Hiff).
  rewrite Hout in Hrun. exists st', hit.
  unfold evaluateRule. rewrite Hmatch, Hdeps, Hdotenv. cbn.
  rewrite (bind_ok _ _ _ _ _ Hrun). destruct hit; auto.
Qed.

Lemma includes_spec (s pat : jsstring) :
  includes s pat = true <-> exists pre post, s = pre ++ pat ++ post.
Proof.
  induction s as [|c r IH]; simpl.
  - rewrite orb_false_r, startsWith_prefix. split.
    + intros (rest & H). exists [], rest. exact H.
    + intros (pre & post & H). symmetry in H.
      apply app_eq_nil in H as [-> H]. exists post. now rewrite H.
  - rewrite orb_true_iff, startsWith_prefix, IH. split.
    + intros [(rest & H)|(pre & post & ->)].
      * exists [], rest. exact H.
      * exists (c :: pre), post. reflexivity.
    + intros (pre & post & H). destruct pre as [|c' pre].
      * left. exists post. exact H.
      * right. injection H as -> ->. eauto.
Qed.

Lemma patternsLoop_true text patterns :
  patternsLoop text patterns = true
  <-> exists pat, pat ∈ patterns
                  /\ match pat with
                     | Str s => exists pre post, text = pre ++ s ++ post
                     | Re r => RegExp.test r text = true
                     end.
Proof.
  induction patterns as [|pat rest IH]; simpl.
  - split; [discriminate | intros (x & Hx & _); inversion Hx].
  - assert (Hhere : (match pat with
                     | Str s => includes text s
                     | Re r => RegExp.test r text
                     end) = true
                    <-> match pat with
                        | Str s => exists pre post, text = pre ++ s ++ post
                        | Re r => RegExp.test r text = true
                        end).
    { destruct pat; [apply includes_spec | reflexivity]. }
    destruct pat as [s|r].
    + destruct (includes text s) eqn:Hi.
      * split; [|reflexivity]. intros _. exists (Str s).
        split; [left | now apply Hhere].
      * rewrite IH. split.
        -- intros (x & Hx & Hm). exists x. split; [now right | exact Hm].
        -- intros (x & Hx & Hm). apply elem_of_cons in Hx as [->|Hx]; [|eauto].
           apply Hhere in Hm. discriminate.
    + destruct (RegExp.test r text) eqn:Hi.
      * split; [|reflexivity]. intros _. exists (Re r). split; [left | exact Hi].
      * rewrite IH. split.
        -- intros (x & Hx & Hm). exists x. split; [now right | exact Hm].
        -- intros (x & Hx & Hm). apply elem_of_cons in Hx as [->|Hx]; [|eauto].
           congruence.
Qed.

Lemma contentOutcome_true provider cps :
  contentOutcome provider cps = true
  <-> exists cp text,
        cp ∈ cps /\ readFile provider (cp_file cp) = Ok text
        /\ patternsLoop text (cp_patterns cp) = true.
Proof.
  induction cps as [|cp rest IH]; simpl.
  - split; [discriminate | intros (x & t & Hx & _); inversion Hx].
  - unfold readResult. destruct (readFile provider (cp_file cp)) as [text|err] eqn:Hr.
    + rewrite orb_true_iff, IH. split.
      * intros [Hp|(x & t & Hx & Hread & Hp)].
        -- exists cp, text. split; [left | auto].
        -- exists x, t. split; [now right | auto].
      * intros (x & t & Hx & Hread & Hp).
        apply elem_of_cons in Hx as [->|Hx]; [|right; eauto].
        left. congruence.
    + rewrite IH. split.
      * intros (x & t & Hx & Hread & Hp). exists x, t. split; [now right | auto].
      * intros (x & t & Hx & Hread & Hp).
        apply elem_of_cons in Hx as [->|Hx]; [congruence | eauto].
Qed.

(** X8. A rule whose only strategy is content patterns never throws. It
    matches exactly when one of its target files can be read and its
    text holds one of that target's patterns: a literal occurs somewhere
    in the text, a regular expression finds a match. A target that
    cannot be read is skipped. *)
Theorem content_rule_matches_readable_text
    provider rule cps paths exts names (d : DepsMap) (e : list jsstring) st :
  rule_match rule
  = Some {| files := None; extensions := None; contentPatterns := Some cps |} ->
  dependencies rule = None ->
  dotenv rule = None ->
  cacheInv provider st ->
  exists st' hit,
    evaluateRule rule paths exts names (readCached provider) provider d e st
    = (st', Ok hit)
    /\ (hit = true
        <-> exists cp text pat,
              cp ∈ cps /\ readFile provider (cp_file cp) = Ok text
              /\ pat ∈ cp_patterns cp
              /\ match pat with
                 | Str s => exists pre post, text = pre ++ s ++ post
                 | Re r => RegExp.test r text = true
                 end).
Proof.
  intros Hmatch Hdeps Hdotenv Hinv.
  destruct (evaluateRule_spec provider rule paths exts names d e st Hinv)
    as (st' & Hrun & _).
  exists st', (contentOutcome provider cps). split.
  - rewrite Hrun. unfold ruleOutcome. rewrite Hmatch, Hdeps, Hdotenv. cbn.
    now rewrite !orb_false_r.
  - rewrite contentOutcome_true. split.
    + intros (cp & text & Hcp & Hread & Hp).
      apply patternsLoop_true in Hp as (pat & Hpat & Hm). eauto 10.
    + intros (cp & text & pat & Hcp & Hread & Hpat & Hm).
      exists cp, text. split; [assumption|]. split; [assumption|].
      apply patternsLoop_true. eauto.
Qed.

(** ** The provider on the local disk *)

Lemma ruleOutcome_answered provider paths exts names (d : DepsMap) e rule :
  (forall f, exists b, exists_ provider f = Ok b) ->
  exists b, ruleOutcome provider paths exts names d e rule = Ok b.
Proof.
  intros Hans. unfold ruleOutcome.
  destruct (rule_match rule ≫= files) as [fs|]; [|eauto].
  destruct (filesOutcome_answered provider names paths fs) as (hit & -> & _);
    [auto|].
  destruct hit; eauto.
Qed.

Lemma no_warning_without_throw (outcome : Rule -> result bool) rules :
  (forall rule, exists b, outcome rule = Ok b) ->
  omap (warningOf outcome) rules = [].
Proof.
  intros Hok. induction rules as [|rule rest IH]; [reflexivity|].
  cbn. unfold warningOf at 1. destruct (Hok rule) as [b ->]. exact IH.
Qed.

(** X9. A scan through the local-disk provider logs no warning: its
    existence check never rejects, so no rule evaluation throws. *)
Theorem disk_scan_never_warns host root ex rules st r :
  analyser ex rules (FSProvider host root) newScan = (st, r) ->
  warnings st = [].
Proof.
  intros Hrun.
  destruct (listFiles (FSProvider host root) (js ".")) as [rootFiles|err] eqn:Hroot.
  - destruct (prepare_spec ex _ rootFiles Hroot)
      as (st1 & Hprep & Hinv & _ & _ & _ & Hw).
    destruct (evaluateRules_spec (FSProvider host root)
                (dependencyTable ex (FSProvider host root))
                (textsOf (FSProvider host root) envFiles extractEnvVarNames)
                rules [] st1 Hinv)
      as (st2 & Hrun2 & _ & _ & _ & _ & Hw2).
    rewrite analyser_steps, Hprep, Hrun2 in Hrun. injection Hrun as <- _.
    rewrite Hw2, Hw. cbn [app]. apply no_warning_without_throw.
    intros rule. apply ruleOutcome_answered. intros f. simpl. eauto.
  - destruct (analyser_rejects ex rules _ err Hroot)
      as (st' & Hrun' & _ & _ & Hw).
    rewrite Hrun in Hrun'. now injection Hrun' as -> _.
Qed.

Lemma FSProvider_lists_no_hidden_entry host root dir entries :
  listFiles (FSProvider host root) dir = Ok entries ->
  forall f, f ∈ entries -> startsWith (pf_name f) (js ".") = false.
Proof.
  simpl. destruct (fs_pathExists host (path_resolve host root dir)); simpl.
  - destruct (fs_readdir host (path_resolve host root dir)) as [ds|err];
      [|discriminate].
    intros [= <-] f Hf.
    apply list_elem_of_In, in_map_iff in Hf as (d & <- & Hd).
    apply List.filter_In in Hd as [_ Hd]. simpl.
    now apply negb_true_iff in Hd.
  - intros [= <-] f Hf. inversion Hf.
Qed.

(** X10. Through the local-disk provider no name in the scan's name set
    begins with a dot: hidden entries are never listed, at the root or
    below. *)
Theorem disk_index_holds_no_hidden_name host root ex rules st payload n :
  analyser ex rules (FSProvider host root) newScan = (st, Ok payload) ->
  n ∈ allFileNames st ->
  startsWith n (js ".") = false.
Proof.
  intros Hrun Hn.
  destruct (listFiles (FSProvider host root) (js ".")) as [rootFiles|err] eqn:Hroot.
  - destruct (prepare_spec ex _ rootFiles Hroot)
      as (st1 & Hprep & Hinv & _ & Hnames & _).
    destruct (evaluateRules_spec (FSProvider host root)
                (dependencyTable ex (FSProvider host root))
                (textsOf (FSProvider host root) envFiles extractEnvVarNames)
                rules [] st1 Hinv)
      as (st2 & Hrun2 & _ & _ & Hn2 & _).
    rewrite analyser_steps, Hprep, Hrun2 in Hrun. injection Hrun as <- _.
    rewrite Hn2, Hnames, elem_of_union, !elem_of_names in Hn.
    destruct Hn as [(f & Hf & <-)|(c & Hc & <-)].
    + eapply FSProvider_lists_no_hidden_entry; eauto.
    + apply elem_of_secondLevel in Hc as (dir & _ & _ & Hc).
      unfold childrenOf in Hc.
      destruct (listFiles (FSProvider host root) (pf_name dir)) as [cs|e] eqn:Hl;
        [|inversion Hc].
      exact (FSProvider_lists_no_hidden_entry _ _ _ _ Hl c Hc).
  - destruct (analyser_rejects ex rules _ err Hroot) as (st' & Hrun' & _).
    rewrite Hrun in Hrun'. discriminate.
Qed.

(** X11. Through the local-disk provider a scan rejects only when the
    root exists and cannot be read as a directory, with the error of
    that read. A root that does not exist is listed as empty: the scan
    returns a payload from an empty index. *)
Theorem disk_scan_rejects_only_on_unreadable_root host root ex rules :
  let target := path_resolve host root (js ".") in
  (fs_pathExists host target = false ->
   exists st payload,
     analyser ex rules (FSProvider host root) newScan = (st, Ok payload)
     /\ allPaths st = ∅ /\ allFileNames st = ∅ /\ extensionSet st = ∅
     /\ listDirsOf (calls st) = [js "."])
  /\ (forall err,
        fs_pathExists host target = true ->
        fs_readdir host target = Throw err ->
        exists st,
          analyser ex rules (FSProvider host root) newScan = (st, Throw err)
          /\ calls st = [CallListFiles (js ".")])
  /\ (forall entries,
        fs_pathExists host target = true ->
        fs_readdir host target = Ok entries ->
        exists st payload,
          analyser ex rules (FSProvider host root) newScan = (st, Ok payload)).
Proof.
  intros target. split; [|split].
  - intros Hmissing.
    assert (Hroot : listFiles (FSProvider host root) (js ".") = Ok []).
    { simpl. fold target. now rewrite Hmissing. }
    destruct (prepare_spec ex _ [] Hroot)
      as (st1 & Hprep & Hinv & Hp & Hn & He & _).
    destruct (evaluateRules_spec (FSProvider host root)
                (dependencyTable ex (FSProvider host root))
                (textsOf (FSProvider host root) envFiles extractEnvVarNames)
                rules [] st1 Hinv)
      as (st2 & Hrun2 & _ & Hp2 & Hn2 & He2 & _).
    destruct (analyser_calls ex rules _ [] Hroot)
      as (st & payload & extra & Hrun & Hcalls & Hq).
    pose proof Hrun as Hrun'.
    rewrite analyser_steps, Hprep, Hrun2 in Hrun'. injection Hrun' as <- _.
    exists st2, payload. split; [exact Hrun|].
    rewrite Hp2, Hn2, He2, Hp, Hn, He. simpl.
    split; [reflexivity|]. split; [set_solver|]. split; [reflexivity|].
    rewrite Hcalls. unfold listDirsOf. rewrite !omap_app.
    fold (listDirsOf (map CallReadFile manifestFiles)). fold (listDirsOf extra).
    rewrite listDirsOf_reads.
    erewrite (listDirsOf_ruleCalls _ extra); [reflexivity| |exact Hq].
    intros c (rule & _ & [(fs & f & _ & _ & _ & _ & ->)|(cps & cp & _ & _ & ->)]) dir;
      discriminate.
  - intros err Hex Hread.
    destruct (analyser_rejects ex rules (FSProvider host root) err)
      as (st & Hrun & Hcalls & _).
    { simpl. fold target. now rewrite Hex, Hread. }
    eauto.
  - intros entries Hex Hread.
    destruct (analyser_calls ex rules (FSProvider host root)
                (map (fun e =>
                        {| pf_path := path_posix_join host (js "") (dirent_name e);
                           pf_name := dirent_name e;
                           pf_isDirectory := dirent_isDirectory e |})
                   (List.filter
                      (fun e => negb (startsWith (dirent_name e) (js ".")))
                      entries)))
      as (st & payload & _ & Hrun & _).
    { simpl. fold target. now rewrite Hex, Hread. }
    eauto.
Qed.

(** ** Trimming and splitting *)

Lemma trimStart_fixed c r : isTrimmable c = false -> trimStart (c :: r) = c :: r.
Proof. intros H. simpl. now rewrite H. Qed.

Lemma trimStart_head s :
  match trimStart s with [] => True | c :: _ => isTrimmable c = false end.
Proof.
  induction s as [|c r IH]; simpl; [exact I|].
  destruct (isTrimmable c) eqn:Hc; [exact IH | exact Hc].
Qed.

Lemma trimStart_elem s c : c ∈ trimStart s -> c ∈ s.
Proof.
  induction s as [|x r IH]; simpl; [auto|].
  destruct (isTrimmable x); [intros H; right; auto | auto].
Qed.

Lemma trimStart_keeps_last l c :
  isTrimmable c = false -> exists t, trimStart (l ++ [c]) = t ++ [c].
Proof.
  intros Hc. induction l as [|x l IH]; simpl.
  - rewrite Hc. exists []. reflexivity.
  - destruct (isTrimmable x); [exact IH | exists (x :: l); reflexivity].
Qed.

Lemma trimEnd_keeps_head c r :
  isTrimmable c = false -> exists r', trimEnd (c :: r) = c :: r'.
Proof.
  intros Hc. unfold trimEnd. simpl.
  destruct (trimStart_keeps_last (rev r) c Hc) as (t & ->).
  exists (rev t). now rewrite rev_app_distr.
Qed.

Lemma trimEnd_elem s c : c ∈ trimEnd s -> c ∈ s.
Proof.
  unfold trimEnd. intros H.
  apply list_elem_of_In, in_rev, list_elem_of_In, trimStart_elem in H.
  now apply list_elem_of_In, in_rev, list_elem_of_In.
Qed.

Lemma trim_elem s c : c ∈ trim s -> c ∈ s.
Proof. intros H. now apply trimStart_elem, trimEnd_elem. Qed.

Lemma trim_head s :
  match trim s with [] => True | c :: _ => isTrimmable c = false end.
Proof.
  unfold trim. pose proof (trimStart_head s) as H.
  destruct (trimStart s) as [|c r]; [exact I|].
  destruct (trimEnd_keeps_head c r H) as (r' & ->). exact H.
Qed.

Lemma trim_idempotent s : trim (trim s) = trim s.
Proof.
  unfold trim at 1. pose proof (trim_head s) as Hh.
  assert (Hs : trimStart (trim s) = trim s).
  { destruct (trim s) as [|c r]; [reflexivity | now apply trimStart_fixed]. }
  rewrite Hs. unfold trim, trimEnd. rewrite rev_involutive.
  pose proof (trimStart_head (rev (trimStart s))) as Ht.
  destruct (trimStart (rev (trimStart s))) as [|c r]; [reflexivity|].
  now rewrite trimStart_fixed.
Qed.

Lemma takeUntil_elem stop s c : c ∈ takeUntil stop s -> c ∈ s /\ stop c = false.
Proof.
  induction s as [|x r IH]; simpl; [intros H; inversion H|].
  destruct (stop x) eqn:Hx; [intros H; inversion H|].
  intros H. apply elem_of_cons in H as [->|H].
  - split; [left | exact Hx].
  - destruct (IH H). split; [now right | assumption].
Qed.

(** The head of a name cut from a trimmed line is the head of the line. *)
Lemma trimmed_name_head stop x n :
  n = trim (takeUntil stop (trim x)) -> n <> [] ->
  exists c r r', trim x = c :: r /\ n = c :: r' /\ stop c = false.
Proof.
  intros -> Hne. pose proof (trim_head x) as Hh.
  destruct (trim x) as [|c r]; [now destruct Hne|].
  simpl in *. destruct (stop c) eqn:Hc; [now destruct Hne|].
  unfold trim. rewrite trimStart_fixed by assumption.
  destruct (trimEnd_keeps_head c (takeUntil stop r) Hh) as (r' & ->).
  exists c, r, r'. auto.
Qed.

Lemma splitLines_nonempty s : splitLines s <> [].
Proof.
  destruct s as [|c r]; simpl; [discriminate|].
  destruct (c =? 10); [discriminate|].
  destruct r as [|d r']; [discriminate|].
  destruct ((c =? 13) && (d =? 10)); [discriminate|].
  destruct (splitLines (d :: r')); discriminate.
Qed.

Lemma splitLines_no_line_feed s :
  forall piece, piece ∈ splitLines s -> 10 ∉ piece.
Proof.
  assert (H : forall n s, (length s <= n)%nat ->
                          forall piece, piece ∈ splitLines s -> 10 ∉ piece).
  { clear s. induction n as [|n IH]; intros s Hlen piece Hin.
    - destruct s; [|simpl in Hlen; lia]. simpl in Hin.
      apply list_elem_of_singleton in Hin as ->. intros H; inversion H.
    - destruct s as [|c r].
      { simpl in Hin. apply list_elem_of_singleton in Hin as ->.
        intros H; inversion H. }
      simpl in Hlen. cbn [splitLines] in Hin.
      destruct (N.eqb_spec c 10) as [->|Hc].
      + apply elem_of_cons in Hin as [->|Hin]; [intros H; inversion H|].
        apply (IH r); [lia | assumption].
      + destruct r as [|d r'].
        * apply list_elem_of_singleton in Hin as ->.
          intros H. apply elem_of_cons in H as [H|H]; [congruence | inversion H].
        * destruct ((c =? 13) && (d =? 10)).
          -- apply elem_of_cons in Hin as [->|Hin]; [intros H; inversion H|].
             apply (IH r'); [simpl in Hlen; lia | assumption].
          -- pose proof (IH (d :: r') ltac:(lia)) as Hrest.
             destruct (splitLines (d :: r')) as [|p ps] eqn:Hs.
             ++ now destruct (splitLines_nonempty (d :: r')).
             ++ apply elem_of_cons in Hin as [->|Hin].
                ** intros H. apply elem_of_cons in H as [H|H]; [congruence|].
                   apply (Hrest p); [left | assumption].
                ** apply Hrest. now right. }
  exact (H (length s) s (le_n _)).
Qed.

Lemma extractEnvVarNames_omap content :
  extractEnvVarNames content = omap envVarName (splitLines content).
Proof.
  unfold extractEnvVarNames. rewrite filter_map_filter_map.
  apply omap_pointwise. intros line. unfold envVarName.
  rewrite first_splitOn. reflexivity.
Qed.

Lemma extractPythonDeps_omap content :
  extractPythonDeps content = omap requirementName (splitLines content).
Proof.
  unfold extractPythonDeps. rewrite filter_map_filter_map.
  apply omap_pointwise. intros line. unfold requirementName.
  rewrite first_splitOn. reflexivity.
Qed.

Lemma startsWith_one_false c r x :
  c <> x -> startsWith (c :: r) [x] = false.
Proof. intros H. simpl. now destruct (N.eqb_spec c x). Qed.

(** X12. [extractEnvVarNames] reads its text line by line: a line gives a
    name when, trimmed, it is neither empty nor a [#] comment, and the
    name is what precedes its first [=], trimmed, if that is not empty.
    Every name returned is non-empty, is its own trim, holds no [=] and
    no line feed, and does not begin with [#]. *)
Theorem extractEnvVarNames_names_are_clean content :
  extractEnvVarNames content = omap envVarName (splitLines content)
  /\ forall n, n ∈ extractEnvVarNames content ->
       n <> [] /\ trim n = n /\ (61 ∉ n) /\ (10 ∉ n)
       /\ startsWith n (js "#") = false.
Proof.
  split; [apply extractEnvVarNames_omap|].
  intros n. rewrite extractEnvVarNames_omap, list_elem_of_omap.
  intros (line & Hline & Hname). unfold envVarName in Hname.
  destruct (truthy (trim line) && negb (startsWith (trim line) (js "#")))
    eqn:Hl; [|discriminate].
  apply andb_true_iff in Hl as [_ Hhash]. apply negb_true_iff in Hhash.
  destruct (truthy (trim (takeUntil (fun c => c =? 61) (trim line)))) eqn:Hn;
    [|discriminate].
  injection Hname as <-.
  set (n := trim (takeUntil (fun c => c =? 61) (trim line))) in *.
  assert (Hne : n <> []) by (destruct n; [discriminate | congruence]).
  split; [exact Hne|]. split; [apply trim_idempotent|]. split; [|split].
  - intros H. apply trim_elem, takeUntil_elem in H as [_ H]. discriminate.
  - intros H. apply trim_elem, takeUntil_elem in H as [H _].
    apply trim_elem in H. exact (splitLines_no_line_feed _ _ Hline H).
  - destruct (trimmed_name_head _ line n eq_refl Hne) as (c & r & r' & Hl & -> & _).
    rewrite Hl in Hhash. change (js "#") with [35] in *.
    simpl in *. now rewrite andb_true_r in *.
Qed.

(** X13. Every name [extractPythonDeps] returns is non-empty, is its own
    trim, holds none of the characters [> < = ! ~ ; [] and no line feed,
    and does not begin with [-]. *)
Theorem extractPythonDeps_names_are_clean content n :
  n ∈ extractPythonDeps content ->
  n <> [] /\ trim n = n
  /\ Forall (fun c => isSpecifierStart c = false) n
  /\ (10 ∉ n) /\ startsWith n (js "-") = false.
Proof.
  rewrite extractPythonDeps_omap, list_elem_of_omap.
  intros (line & Hline & Hname). unfold requirementName in Hname.
  destruct (truthy (trim (stripComment line))
            && negb (startsWith (trim (stripComment line)) (js "-")))
    eqn:Hl; [|discriminate].
  apply andb_true_iff in Hl as [_ Hdash]. apply negb_true_iff in Hdash.
  destruct (truthy (trim (takeUntil isSpecifierStart (trim (stripComment line)))))
    eqn:Hn; [|discriminate].
  injection Hname as <-.
  set (n := trim (takeUntil isSpecifierStart (trim (stripComment line)))) in *.
  assert (Hne : n <> []) by (destruct n; [discriminate | congruence]).
  split; [exact Hne|]. split; [apply trim_idempotent|]. split; [|split].
  - apply Forall_forall. intros c H.
    now apply trim_elem, takeUntil_elem in H as [_ H].
  - intros H. apply trim_elem, takeUntil_elem in H as [H _].
    apply trim_elem in H.
    assert (Hsub : forall l c, c ∈ stripComment l -> c ∈ l).
    { clear. induction l as [|x r IH]; simpl; [auto|].
      destruct ((x =? 35) && forallb (fun d => negb (isLineTerminator d)) r);
        [intros c H; inversion H|].
      intros c H. apply elem_of_cons in H as [->|H]; [left | right; auto]. }
    apply Hsub in H. exact (splitLines_no_line_feed _ _ Hline H).
  - destruct (trimmed_name_head _ (stripComment line) n eq_refl Hne)
      as (c & r & r' & Hl & -> & _).
    rewrite Hl in Hdash. change (js "-") with [45] in *.
    simpl in *. now rewrite andb_true_r in *.
Qed.

(** ** The Cargo extractor *)

Lemma sameLetter_spec c p : Cargo.sameLetter c p = true <-> c = p \/ c + 32 = p.
Proof.
  unfold Cargo.sameLetter. rewrite orb_true_iff, !N.eqb_eq. reflexivity.
Qed.

Lemma startsWithLetters_spec pat s :
  Cargo.startsWithLetters s pat = true
  <-> exists w rest, s = w ++ rest /\ Forall2 (fun c p => Cargo.sameLetter c p = true) w pat.
Proof.
  revert s. induction pat as [|p ps IH]; intros s; simpl.
  - split; [intros _; exists [], s; split; [reflexivity|constructor]|reflexivity].
  - destruct s as [|c cs].
    + split; [discriminate|]. intros (w & rest & Hs & Hw).
      inversion Hw; subst. discriminate.
    + rewrite andb_true_iff, IH. split.
      * intros (Hc & w & rest & -> & Hw). exists (c :: w), rest.
        split; [reflexivity | now constructor].
      * intros (w & rest & Hs & Hw). inversion Hw as [|c' p' w' ps' Hc Hw']; subst.
        injection Hs as -> ->. split; [exact Hc|]. now exists w', rest.
Qed.

Lemma afterLetters_spec pat s rest :
  Cargo.afterLetters pat s = Some rest ->
  exists a w, s = a ++ w ++ rest /\ Forall2 (fun c p => Cargo.sameLetter c p = true) w pat.
Proof.
  revert rest. induction s as [|c r IH]; intros rest; simpl.
  - destruct (Cargo.startsWithLetters [] pat) eqn:Hhere; [|discriminate].
    intros [= <-]. apply startsWithLetters_spec in Hhere as (w & rest & Hs & Hw).
    exists [], w. split; [|exact Hw].
    symmetry in Hs. apply app_eq_nil in Hs as [-> ->].
    inversion Hw; subst. reflexivity.
  - destruct (Cargo.startsWithLetters (c :: r) pat) eqn:Hhere.
    + intros [= <-]. apply startsWithLetters_spec in Hhere as (w & rest & Hs & Hw).
      exists [], w. split; [|exact Hw]. rewrite Hs. simpl. f_equal.
      rewrite <- (Forall2_length _ _ _ Hw), drop_app_length. reflexivity.
    + intros H. destruct (IH _ H) as (a & w & -> & Hw).
      exists (c :: a), w. split; [reflexivity | exact Hw].
Qed.

Lemma afterLetters_finds pat a w rest :
  Forall2 (fun c p => Cargo.sameLetter c p = true) w pat ->
  exists rest', Cargo.afterLetters pat (a ++ w ++ rest) = Some rest'
                /\ exists x, rest' = x ++ rest.
Proof.
  intros Hw. induction a as [|c a IH].
  - simpl. assert (Hhere : Cargo.startsWithLetters (w ++ rest) pat = true).
    { apply startsWithLetters_spec. now exists w, rest. }
    destruct w as [|c w]; simpl in *.
    + inversion Hw; subst. simpl. destruct rest; simpl; eexists; (split; [reflexivity|]);
        now exists [].
    + rewrite Hhere. eexists. split; [reflexivity|]. exists [].
      rewrite <- (Forall2_length _ _ _ Hw). simpl.
      now rewrite drop_app_length.
  - simpl. destruct IH as (rest' & Hfind & x & ->).
    destruct (Cargo.startsWithLetters (c :: a ++ w ++ rest) pat) eqn:Hhere.
    + apply startsWithLetters_spec in Hhere as (w' & rest'' & Hs & Hw').
      eexists. split; [reflexivity|].
      assert (Hlen : length w' = length w)
        by now rewrite (Forall2_length _ _ _ Hw), (Forall2_length _ _ _ Hw').
      rewrite <- (Forall2_length _ _ _ Hw'). rewrite Hs, drop_app_length.
      (* the first occurrence ends no later than this one *)
      change (c :: a ++ w ++ rest) with ((c :: a) ++ w ++ rest) in Hs.
      assert (Hcut : exists y, rest'' = y ++ rest).
      { apply (f_equal (drop (length w'))) in Hs.
        rewrite drop_app_length in Hs. rewrite <- Hs.
        rewrite Hlen. rewrite app_assoc.
        rewrite drop_app_le by (rewrite length_app; lia).
        now eexists. }
      exact Hcut.
    + eexists. split; [exact Hfind|]. now exists x.
Qed.

Lemma takeUntil_app stop (l r : jsstring) :
  Forall (fun c => stop c = false) l ->
  takeUntil stop (l ++ r) = l ++ takeUntil stop r.
Proof.
  induction 1 as [|c l Hc _ IH]; simpl; [reflexivity|].
  now rewrite Hc, IH.
Qed.

Lemma takeUntil_Forall stop (s : jsstring) :
  Forall (fun c => stop c = false) (takeUntil stop s).
Proof.
  induction s as [|c r IH]; simpl; [constructor|].
  destruct (stop c) eqn:Hc; constructor; assumption.
Qed.

Lemma letters_are_no_line_terminators w pat :
  Forall (fun p => 65 <= p <= 122) pat ->
  Forall2 (fun c p => Cargo.sameLetter c p = true) w pat ->
  Forall (fun c => isLineTerminator c = false) w.
Proof.
  intros Hpat Hw. induction Hw as [|c p w pat Hc _ IH]; [constructor|].
  inversion Hpat as [|? ? Hp Hpat']; subst.
  constructor; [|now apply IH].
  apply sameLetter_spec in Hc. unfold isLineTerminator.
  rewrite !orb_false_iff, !N.eqb_neq. lia.
Qed.

Lemma dependencies_letters : Forall (fun p => 65 <= p <= 122) (js "dependencies").
Proof. repeat constructor; vm_compute; discriminate. Qed.

Lemma existsb_split (c : N) (l : jsstring) :
  existsb (fun d => d =? c) l = true <-> exists b rest, l = b ++ c :: rest.
Proof.
  rewrite existsb_exists. split.
  - intros (x & Hin & Hx). apply N.eqb_eq in Hx as ->.
    apply in_split in Hin as (b & rest & ->). now exists b, rest.
  - intros (b & rest & ->). exists c. split; [|apply N.eqb_refl].
    apply in_or_app. right. now left.
Qed.

(** X14. A line opens a dependencies section exactly when it begins with
    [[] and then holds, before any line terminator, the word
    [dependencies] in any case of its letters and, somewhere after it,
    a []]. Whatever else stands on the line does not matter. *)
Theorem cargo_dependencies_header_lines line :
  Cargo.isDependenciesHeader line = true
  <-> exists a w b rest,
        line = js "[" ++ a ++ w ++ b ++ js "]" ++ rest
        /\ Forall (fun c => isLineTerminator c = false) (a ++ b)
        /\ Forall2 (fun c p => Cargo.sameLetter c p = true) w (js "dependencies").
Proof.
  unfold Cargo.isDependenciesHeader. split.
  - destruct line as [|c r]; [discriminate|].
    rewrite andb_true_iff, N.eqb_eq. intros [-> H].
    destruct (Cargo.afterLetters _ _) as [rest1|] eqn:Hafter; [|discriminate].
    apply afterLetters_spec in Hafter as (a & w & Hbody & Hw).
    apply existsb_split in H as (b & rest2 & ->).
    destruct (takeUntil_prefix isLineTerminator r) as (rest0 & Hr & _).
    pose proof (takeUntil_Forall isLineTerminator r) as Hfree.
    rewrite Hbody in Hr, Hfree.
    exists a, w, b, (rest2 ++ rest0). split; [|split; [|exact Hw]].
    + rewrite Hr. simpl. f_equal. now rewrite <- !app_assoc.
    + apply Forall_app in Hfree as [Ha Hfree].
      apply Forall_app in Hfree as [_ Hfree].
      apply Forall_app in Hfree as [Hb _].
      apply Forall_app. now split.
  - intros (a & w & b & rest & -> & Hfree & Hw).
    apply Forall_app in Hfree as [Ha Hb].
    pose proof (letters_are_no_line_terminators w _ dependencies_letters Hw) as Hwf.
    change (js "[" ++ a ++ w ++ b ++ js "]" ++ rest)
      with (91 :: a ++ w ++ b ++ [93] ++ rest).
    cbv beta iota. rewrite N.eqb_refl. cbn [andb].
    rewrite (takeUntil_app _ a) by exact Ha.
    rewrite (takeUntil_app _ w) by exact Hwf.
    rewrite (takeUntil_app _ b) by exact Hb.
    rewrite (takeUntil_app _ [93] rest) by (repeat constructor).
    change ([93] ++ takeUntil isLineTerminator rest)
      with (93 :: takeUntil isLineTerminator rest).
    destruct (afterLetters_finds (js "dependencies") a w
                (b ++ 93 :: takeUntil isLineTerminator rest) Hw)
      as (rest' & -> & x & ->).
    apply existsb_split. exists (x ++ b), (takeUntil isLineTerminator rest).
    now rewrite <- app_assoc.
Qed.

Lemma isDependenciesHeader_isHeader line :
  Cargo.isDependenciesHeader line = true -> Cargo.isHeader line = true.
Proof.
  unfold Cargo.isDependenciesHeader, Cargo.isHeader. destruct line as [|c r]; [discriminate|].
  rewrite andb_true_iff. intros [Hc _]. apply N.eqb_eq in Hc as ->.
  reflexivity.
Qed.

Lemma matchKey_spec line k n :
  Cargo.matchKey line k = Some n
  <-> exists j, (1 <= j <= k)%nat /\ n = take j line
                /\ startsWith (trimStart (drop j line)) (js "=") = true
                /\ forall j', (j < j' <= k)%nat ->
                     startsWith (trimStart (drop j' line)) (js "=") = false.
Proof.
  induction k as [|k IH]; cbn [Cargo.matchKey].
  - split; [discriminate|]. intros (j & Hj & _). lia.
  - destruct (startsWith (trimStart (drop (S k) line)) (js "=")) eqn:Hhere.
    + split.
      * intros [= <-]. exists (S k). split; [lia|]. split; [reflexivity|].
        split; [exact Hhere|]. intros j' Hj'. lia.
      * intros (j & Hj & -> & Hm & Hmax).
        destruct (decide (j = S k)) as [->|Hne]; [reflexivity|].
        rewrite (Hmax (S k)) in Hhere by lia. discriminate.
    + rewrite IH. split.
      * intros (j & Hj & -> & Hm & Hmax). exists j.
        split; [lia|]. split; [reflexivity|]. split; [exact Hm|].
        intros j' Hj'. destruct (decide (j' = S k)) as [->|Hne]; [exact Hhere|].
        apply Hmax. lia.
      * intros (j & Hj & -> & Hm & Hmax).
        assert (j <> S k) by (intros ->; congruence).
        exists j. split; [lia|]. split; [reflexivity|]. split; [exact Hm|].
        intros j' Hj'. apply Hmax. lia.
Qed.

Lemma takeUntil_longest stop (n rest : jsstring) :
  Forall (fun c => stop c = false) n ->
  (length n <= length (takeUntil stop (n ++ rest)))%nat.
Proof.
  intros Hn. rewrite (takeUntil_app _ _ _ Hn), length_app. lia.
Qed.

Lemma take_takeUntil stop (line : jsstring) j :
  (j <= length (takeUntil stop line))%nat ->
  Forall (fun c => stop c = false) (take j line) /\ length (take j line) = j.
Proof.
  intros Hj. destruct (takeUntil_prefix stop line) as (rest & Hline & _).
  pose proof (takeUntil_Forall stop line) as Hfree.
  rewrite Hline at 1 2. rewrite !take_app_le by exact Hj. split.
  - now apply Forall_take.
  - rewrite length_take. lia.
Qed.

(** What [key] returns, as the regular expression reads: the longest
    run of units outside [\s] at the start of the line that is followed
    by [\s*=]. *)
Lemma key_spec line n :
  Cargo.key line = Some n
  <-> n <> []
      /\ Forall (fun c => isTrimmable c = false) n
      /\ exists rest,
           line = n ++ rest
           /\ startsWith (trimStart rest) (js "=") = true
           /\ forall n' rest',
                line = n' ++ rest' ->
                Forall (fun c => isTrimmable c = false) n' ->
                startsWith (trimStart rest') (js "=") = true ->
                (length n' <= length n)%nat.
Proof.
  unfold Cargo.key. rewrite matchKey_spec. split.
  - intros (j & Hj & -> & Hm & Hmax).
    destruct (take_takeUntil isTrimmable line j) as [Hfree Hlen]; [lia|].
    split; [intros Hnil; rewrite Hnil in Hlen; simpl in Hlen; lia|].
    split; [exact Hfree|]. exists (drop j line).
    split; [now rewrite take_drop|]. split; [exact Hm|].
    intros n' rest' Hline Hn' Hm'. rewrite Hlen.
    destruct (decide (length n' <= j)%nat) as [|Hgt]; [assumption|exfalso].
    assert (Hle : (length n' <= length (takeUntil isTrimmable line))%nat).
    { rewrite Hline. now apply takeUntil_longest. }
    assert (Hno := Hmax (length n') ltac:(lia)).
    rewrite Hline, drop_app_length in Hno. congruence.
  - intros (Hne & Hfree & rest & Hline & Hm & Hmax).
    exists (length n). split; [|split; [|split]].
    + split; [destruct n; [congruence|simpl; lia]|].
      rewrite Hline. now apply takeUntil_longest.
    + now rewrite Hline, take_app_length.
    + now rewrite Hline, drop_app_length.
    + intros j' Hj'.
      destruct (startsWith (trimStart (drop j' line)) (js "=")) eqn:Hhere;
        [exfalso|reflexivity].
      destruct (take_takeUntil isTrimmable line j') as [Hfree' Hlen']; [lia|].
      specialize (Hmax (take j' line) (drop j' line)).
      rewrite take_drop in Hmax. specialize (Hmax eq_refl Hfree' Hhere). lia.
Qed.

Lemma loop_names inDeps names lines :
  Cargo.loop inDeps names lines = names ++ Cargo.loop inDeps [] lines.
Proof.
  revert inDeps names. induction lines as [|line rest IH]; intros inDeps names.
  - simpl. now rewrite app_nil_r.
  - cbn [Cargo.loop]. destruct (Cargo.isDependenciesHeader line); [apply IH|].
    destruct (Cargo.isHeader line); [apply IH|].
    destruct inDeps; [|apply IH].
    destruct (Cargo.key line) as [name|]; [|apply IH].
    rewrite (IH true (names ++ [name])), (IH true ([] ++ [name])).
    now rewrite <- app_assoc.
Qed.

Lemma keyedBelow_nil n : ~ Cargo.keyedBelow [] n.
Proof. intros (body & line & after & H & _). now destruct body. Qed.

Lemma keyedBelow_cons line rest n :
  Cargo.keyedBelow (line :: rest) n
  <-> Cargo.isHeader line = false /\ (Cargo.key line = Some n \/ Cargo.keyedBelow rest n).
Proof.
  split.
  - intros (body & l & after & Hlines & Hfree & Hkey).
    destruct body as [|b body]; simpl in Hlines; injection Hlines as -> ->.
    + inversion Hfree; subst. split; [assumption|now left].
    + inversion Hfree as [|? ? Hb Hfree']; subst. split; [assumption|].
      right. now exists body, l, after.
  - intros [Hline [Hkey|(body & l & after & -> & Hfree & Hkey)]].
    + exists [], line, rest. split; [reflexivity|]. split; [|exact Hkey].
      now repeat constructor.
    + exists (line :: body), l, after. split; [reflexivity|].
      split; [|exact Hkey]. now constructor.
Qed.

Lemma declaredIn_nil n : ~ Cargo.declaredIn [] n.
Proof. intros (before & h & after & H & _). now destruct before. Qed.

Lemma declaredIn_cons line rest n :
  Cargo.declaredIn (line :: rest) n
  <-> (Cargo.isDependenciesHeader line = true /\ Cargo.keyedBelow rest n) \/ Cargo.declaredIn rest n.
Proof.
  split.
  - intros (before & h & after & Hlines & Hh & Hkey).
    destruct before as [|b before]; simpl in Hlines; injection Hlines as -> ->.
    + now left.
    + right. now exists before, h, after.
  - intros [[Hh Hkey]|(before & h & after & -> & Hh & Hkey)].
    + now exists [], line, rest.
    + now exists (line :: before), h, after.
Qed.

Lemma elem_of_loop inDeps lines n :
  n ∈ Cargo.loop inDeps [] lines
  <-> (inDeps = true /\ Cargo.keyedBelow lines n) \/ Cargo.declaredIn lines n.
Proof.
  revert inDeps. induction lines as [|line rest IH]; intros inDeps.
  - simpl. split; [intros H; inversion H|].
    intros [[_ H]|H]; [now apply keyedBelow_nil in H | now apply declaredIn_nil in H].
  - rewrite keyedBelow_cons, declaredIn_cons. cbn [Cargo.loop].
    destruct (Cargo.isDependenciesHeader line) eqn:Hdep.
    + rewrite (isDependenciesHeader_isHeader _ Hdep), IH. intuition congruence.
    + destruct (Cargo.isHeader line) eqn:Hhead; [rewrite IH; intuition congruence|].
      destruct inDeps; [|rewrite IH; intuition congruence].
      destruct (Cargo.key line) as [name|] eqn:Hkey.
      * rewrite loop_names. change ([] ++ [name]) with [name].
        rewrite elem_of_app, list_elem_of_singleton, IH. intuition congruence.
      * rewrite IH. intuition congruence.
Qed.

(** X15. A name is returned exactly when it is the key of a line whose
    nearest header line above is a dependencies header: a line is a
    header when it begins with [[], and a dependencies header when the
    word [dependencies], in any letter case, and a later []] follow on
    the same line. Lines before the first header give nothing. *)
Theorem cargo_names_follow_a_dependencies_header content n :
  n ∈ Cargo.extractCargoDeps content
  <-> exists before header body line after,
        splitLines content = before ++ header :: body ++ line :: after
        /\ Cargo.isDependenciesHeader header = true
        /\ Forall (fun l => startsWith l (js "[") = false) (body ++ [line])
        /\ Cargo.key line = Some n.
Proof.
  unfold Cargo.extractCargoDeps. rewrite elem_of_loop. split.
  - intros [[Hno _]|(before & header & rest & Hlines & Hh & body & line & after
                      & -> & Hfree & Hkey)]; [discriminate|].
    now exists before, header, body, line, after.
  - intros (before & header & body & line & after & Hlines & Hh & Hfree & Hkey).
    right. exists before, header, (body ++ line :: after).
    split; [exact Hlines|]. split; [exact Hh|]. now exists body, line, after.
Qed.

(** X16. Every name returned is not empty, holds no white space and no
    line terminator, does not begin with [[], and stands at the start of
    a line of the text, followed there by optional white space and [=];
    it is the longest such start of its line, so it may itself hold a
    [=]. *)
Theorem cargo_names_are_line_starts content n :
  n ∈ Cargo.extractCargoDeps content ->
  n <> []
  /\ Forall (fun c => isTrimmable c = false) n
  /\ startsWith n (js "[") = false
  /\ exists line rest,
       line ∈ splitLines content
       /\ line = n ++ rest
       /\ startsWith (trimStart rest) (js "=") = true
       /\ forall n' rest',
            line = n' ++ rest' ->
            Forall (fun c => isTrimmable c = false) n' ->
            startsWith (trimStart rest') (js "=") = true ->
            (length n' <= length n)%nat.
Proof.
  unfold Cargo.extractCargoDeps. rewrite elem_of_loop.
  intros [[Hno _]|(before & header & rest0 & Hlines & Hh & body & line & after
                    & -> & Hfree & Hkey)]; [discriminate|].
  apply Forall_app in Hfree as [_ Hline]. inversion Hline as [|? ? Hhead _]; subst.
  apply key_spec in Hkey as (Hne & Hn & rest & -> & Hm & Hmax).
  split; [exact Hne|]. split; [exact Hn|]. split.
  - destruct n as [|c n]; [congruence|]. unfold Cargo.isHeader in Hhead.
    simpl in Hhead |- *. now rewrite andb_true_r in *.
  - exists (n ++ rest), rest. split; [|now split].
    rewrite Hlines. apply elem_of_app. right. right.
    apply elem_of_app. right. left.
Qed.

Lemma splitLines_line (l rest : jsstring) :
  Cargo.noLineBreak l -> splitLines (l ++ 10 :: rest) = l :: splitLines rest.
Proof.
  induction 1 as [|c l [Hlf Hcr] _ IH]; [reflexivity|].
  cbn [app splitLines]. apply N.eqb_neq in Hlf, Hcr. rewrite Hlf, Hcr.
  cbn [andb]. rewrite IH.
  destruct (l ++ 10 :: rest) as [|d r'] eqn:Hl; [now destruct l|reflexivity].
Qed.

Lemma noLineBreak_app (a b : jsstring) :
  Cargo.noLineBreak a -> Cargo.noLineBreak b -> Cargo.noLineBreak (a ++ b).
Proof. intros Ha Hb. apply Forall_app. now split. Qed.

Lemma untrimmable_noLineBreak (n : jsstring) :
  Forall (fun c => isTrimmable c = false) n -> Cargo.noLineBreak n.
Proof.
  intros H. eapply Forall_impl; [exact H|]. clear H. intros c Hc.
  unfold isTrimmable, isLineTerminator in Hc.
  rewrite !orb_false_iff, !N.eqb_neq in Hc. tauto.
Qed.

Lemma key_of_entry e :
  Cargo.plainEntry e -> Cargo.key (e.1 ++ js " = " ++ e.2) = Some e.1.
Proof.
  intros (Hne & Hfree & _ & _). apply key_spec.
  split; [exact Hne|]. split; [exact Hfree|].
  exists (js " = " ++ e.2). split; [reflexivity|]. split; [reflexivity|].
  intros n' rest' Hline Hn' _.
  pose proof (takeUntil_longest isTrimmable n' rest' Hn') as Hlen.
  rewrite <- Hline, (takeUntil_app _ _ _ Hfree) in Hlen.
  change (takeUntil isTrimmable (js " = " ++ e.2)) with (@nil N) in Hlen.
  now rewrite app_nil_r in Hlen.
Qed.

Lemma entry_is_no_header e :
  Cargo.plainEntry e -> Cargo.isHeader (e.1 ++ js " = " ++ e.2) = false.
Proof.
  intros (Hne & _ & Hhead & _). destruct e as [[|c n] v]; [now cbn in Hne|].
  cbn in Hhead |- *. rewrite andb_true_r in *. exact Hhead.
Qed.

Lemma entry_noLineBreak e :
  Cargo.plainEntry e -> Cargo.noLineBreak (e.1 ++ js " = " ++ e.2).
Proof.
  intros (_ & Hfree & _ & Hv). apply noLineBreak_app.
  - now apply untrimmable_noLineBreak.
  - apply noLineBreak_app; [|exact Hv].
    repeat constructor; discriminate.
Qed.

(** The entries of a section, once the loop is below its header. *)
Lemma loop_entries inDeps names entries rest :
  Forall Cargo.plainEntry entries ->
  Cargo.loop inDeps names
    (splitLines (concat (map (fun e => e.1 ++ js " = " ++ e.2 ++ [10]) entries)
                 ++ rest))
  = Cargo.loop inDeps (names ++ if inDeps then map fst entries else [])
      (splitLines rest).
Proof.
  intros Hentries. revert names.
  induction Hentries as [|e entries He _ IH]; intros names.
  - cbn [map concat app]. destruct inDeps; now rewrite app_nil_r.
  - cbn [map concat].
    replace (((e.1 ++ js " = " ++ e.2 ++ [10]) ++ concat
                (map (fun e => e.1 ++ js " = " ++ e.2 ++ [10]) entries)) ++ rest)
      with ((e.1 ++ js " = " ++ e.2)
            ++ 10 :: (concat (map (fun e => e.1 ++ js " = " ++ e.2 ++ [10]) entries)
                      ++ rest))
      by (rewrite <- !app_assoc; reflexivity).
    rewrite splitLines_line by now apply entry_noLineBreak.
    cbn [Cargo.loop].
    destruct (Cargo.isDependenciesHeader _) eqn:Hdep.
    { apply isDependenciesHeader_isHeader in Hdep.
      rewrite entry_is_no_header in Hdep by exact He. discriminate. }
    rewrite entry_is_no_header by exact He.
    rewrite key_of_entry by exact He.
    destruct inDeps; rewrite IH; [|reflexivity].
    cbn [map fst]. now rewrite <- app_assoc.
Qed.

Lemma header_line title : Cargo.isHeader (js "[" ++ title ++ js "]") = true.
Proof. reflexivity. Qed.

Lemma loop_manifest inDeps names sections :
  Forall (fun s => Cargo.noLineBreak s.1 /\ Forall Cargo.plainEntry s.2) sections ->
  Cargo.loop inDeps names (splitLines (Cargo.manifest sections))
  = names
    ++ concat (map (fun s => if Cargo.isDependenciesHeader (js "[" ++ s.1 ++ js "]")
                             then map fst s.2 else [])
                 sections).
Proof.
  intros Hsections. revert inDeps names.
  induction Hsections as [|s sections [Htitle Hentries] _ IH]; intros inDeps names.
  - destruct inDeps; cbn; now rewrite app_nil_r.
  - unfold Cargo.manifest. cbn [map concat]. fold (Cargo.manifest sections).
    unfold Cargo.section.
    replace ((js "[" ++ s.1 ++ js "]" ++ [10]
              ++ concat (map (fun e => e.1 ++ js " = " ++ e.2 ++ [10]) s.2))
             ++ Cargo.manifest sections)
      with ((js "[" ++ s.1 ++ js "]")
            ++ 10 :: (concat (map (fun e => e.1 ++ js " = " ++ e.2 ++ [10]) s.2)
                      ++ Cargo.manifest sections))
      by (rewrite <- !app_assoc; reflexivity).
    rewrite splitLines_line.
    2:{ apply noLineBreak_app; [repeat constructor; discriminate|].
        apply noLineBreak_app; [exact Htitle|repeat constructor; discriminate]. }
    cbn [Cargo.loop].
    destruct (Cargo.isDependenciesHeader (js "[" ++ s.1 ++ js "]")) eqn:Hdep.
    + rewrite loop_entries by exact Hentries. rewrite IH.
      now rewrite <- app_assoc.
    + rewrite header_line, loop_entries by exact Hentries. rewrite IH.
      now rewrite app_nil_r.
Qed.

(** X17. Round trip on a manifest written section by section, each a
    header line [[<title>]] and lines [<name> = <value>]: the names of
    the entries of the dependencies sections come back, in the order
    written, and nothing of the other sections. *)
Theorem cargo_manifest_round_trip sections :
  Forall (fun s => Cargo.noLineBreak s.1 /\ Forall Cargo.plainEntry s.2) sections ->
  Cargo.extractCargoDeps (Cargo.manifest sections)
  = concat (map (fun s => if Cargo.isDependenciesHeader (js "[" ++ s.1 ++ js "]")
                          then map fst s.2 else [])
              sections).
Proof.
  intros Hsections. unfold Cargo.extractCargoDeps.
  now rewrite loop_manifest by exact Hsections.
Qed.

Ltac plain_entries :=
  repeat first
    [ split
    | constructor
    | discriminate
    | reflexivity ].

(** The names of [sampleManifest]: those of its two dependencies
    sections. *)
Lemma sampleManifest_round_trip :
  Cargo.extractCargoDeps (Cargo.manifest sampleManifest) = [js "serde"; js "tokio"; js "rand"].
Proof.
  rewrite (cargo_manifest_round_trip sampleManifest); [reflexivity|].
  unfold sampleManifest, Cargo.plainEntry, Cargo.noLineBreak. plain_entries.
Defined.

(** In [denseManifest] the group gives back units up to the last [=]:
    the name is [serde={version]. *)
Lemma denseManifest_name :
  js "serde={version" ∈ Cargo.extractCargoDeps denseManifest
  /\ js "serde={version" <> []
  /\ startsWith (js "serde={version") (js "[") = false.
Proof.
  assert (Hin : js "serde={version" ∈ Cargo.extractCargoDeps denseManifest)
    by (apply list_elem_of_In; vm_compute; auto).
  split; [exact Hin|].
  destruct (cargo_names_are_line_starts denseManifest _ Hin) as (Hne & _ & Hhead & _).
  split; [exact Hne | exact Hhead].
Defined.

(** ** Reporter *)

Lemma namesFor_app bucket l1 l2 :
  namesFor bucket (l1 ++ l2) = namesFor bucket l1 ++ namesFor bucket l2.
Proof. unfold namesFor. now rewrite List.filter_app, map_app. Qed.

Lemma visit_flatten :
  forall node results k,
    visit node results k = results k ++ namesFor k (flatten node).
Proof.
  fix IH 1. intros [name type childs] results k. cbn [visit flatten].
  change ((name, type) :: ?l) with ([(name, type)] ++ l).
  assert (Hpush : push (categoryMap type) name results k
                  = results k ++ namesFor k [(name, type)]).
  { unfold push, namesFor. simpl.
    destruct (decide (k = categoryMap type)) as [->|Hne].
    - now rewrite bool_decide_eq_true_2.
    - rewrite bool_decide_eq_false_2 by congruence. simpl. now rewrite app_nil_r. }
  destruct childs as [cs|].
  - change ((name, type) :: concat (map flatten cs))
      with ([(name, type)] ++ concat (map flatten cs)).
    rewrite namesFor_app, app_assoc, <- Hpush.
    generalize (push (categoryMap type) name results) as r.
    induction cs as [|c cs IHcs]; intros r; simpl.
    + unfold namesFor. simpl. now rewrite app_nil_r.
    + rewrite IHcs, IH, namesFor_app, app_assoc. reflexivity.
  - exact Hpush.
Qed.

Lemma visitAll_flatten nodes :
  forall results k,
    fold_left (fun r n => visit n r) nodes results k
    = results k ++ namesFor k (concat (map flatten nodes)).
Proof.
  induction nodes as [|n nodes IH]; intros results k; simpl.
  - unfold namesFor. simpl. now rewrite app_nil_r.
  - rewrite IH, visit_flatten, namesFor_app, app_assoc. reflexivity.
Qed.

Lemma elem_of_namesFor n k entries :
  n ∈ namesFor k entries
  <-> exists type, (n, type) ∈ entries /\ categoryMap type = k.
Proof.
  unfold namesFor. rewrite list_elem_of_In, in_map_iff. split.
  - intros ([n' type] & <- & Hin). apply List.filter_In in Hin as [Hin Hk].
    apply bool_decide_eq_true in Hk. exists type.
    rewrite list_elem_of_In. auto.
  - intros (type & Hin & Hk). exists (n, type). split; [reflexivity|].
    apply List.filter_In. rewrite <- list_elem_of_In.
    split; [assumption | now apply bool_decide_eq_true].
Qed.

Lemma elem_of_dedupeFrom seen arr x :
  x ∈ dedupeFrom seen arr <-> x ∈ arr /\ x ∉ seen.
Proof.
  revert seen. induction arr as [|y rest IH]; intros seen; simpl.
  - split; [intros H; inversion H | intros [H _]; inversion H].
  - destruct (bool_decide_reflect (y ∈ seen)) as [Hin|Hout].
    + rewrite IH, elem_of_cons. split; [intros [? ?]; auto|].
      intros [[->|?] ?]; [contradiction | auto].
    + rewrite !elem_of_cons, IH, not_elem_of_cons. split.
      * intros [->|[? [? ?]]]; auto.
      * intros [[->|?] ?]; [auto|].
        destruct (decide (x = y)) as [->|]; auto.
Qed.

Lemma NoDup_dedupeFrom seen arr : NoDup (dedupeFrom seen arr).
Proof.
  revert seen. induction arr as [|y rest IH]; intros seen; simpl.
  - constructor.
  - destruct (bool_decide (y ∈ seen)); [apply IH|].
    constructor; [|apply IH].
    rewrite elem_of_dedupeFrom, not_elem_of_cons. intros [_ [? _]]. congruence.
Qed.

Lemma sublist_dedupeFrom seen arr : dedupeFrom seen arr `sublist_of` arr.
Proof.
  revert seen. induction arr as [|y rest IH]; intros seen; simpl.
  - constructor.
  - destruct (bool_decide (y ∈ seen)).
    + apply sublist_cons, IH.
    + apply sublist_skip, IH.
Qed.

Lemma dedupeFrom_NoDup seen arr :
  NoDup arr -> (forall x, x ∈ arr -> x ∉ seen) -> dedupeFrom seen arr = arr.
Proof.
  revert seen. induction arr as [|y rest IH]; intros seen Hnd Hdisj; simpl;
    [reflexivity|].
  apply NoDup_cons in Hnd as [Hy Hnd].
  rewrite bool_decide_eq_false_2 by (apply Hdisj; left).
  f_equal. apply IH; [assumption|].
  intros x Hx. rewrite not_elem_of_cons. split.
  - intros ->. contradiction.
  - apply Hdisj. now right.
Qed.

Lemma categorise_eq nodes :
  categorise nodes
  = omap (fun k =>
            match dedupe (namesFor k (concat (map flatten nodes))) with
            | [] => None
            | names => Some (k, names)
            end) Bucket.all.
Proof.
  unfold categorise. apply omap_pointwise. intros k.
  now rewrite visitAll_flatten.
Qed.

Lemma elem_of_categorise nodes k names :
  (k, names) ∈ categorise nodes
  <-> names = dedupe (namesFor k (concat (map flatten nodes))) /\ names <> [].
Proof.
  rewrite categorise_eq, list_elem_of_omap. split.
  - intros (k' & _ & H).
    destruct (dedupe (namesFor k' (concat (map flatten nodes)))) as [|n l] eqn:Hd;
      [discriminate|].
    injection H as <- <-. rewrite Hd. split; [reflexivity | discriminate].
  - intros [-> Hne]. exists k. split; [destruct k; apply (bool_decide_unpack _); vm_compute; exact I|].
    destruct (dedupe (namesFor k (concat (map flatten nodes)))); [now destruct Hne|].
    reflexivity.
Qed.

(** X18. [categorise] reports every node of the trees, at any depth,
    under the key of its type, and nothing else: the names under a key
    are the names of the nodes whose type maps to it, each once, and no
    key is reported with an empty array. *)
Theorem categorise_reports_every_node_once nodes :
  let entries := concat (map flatten nodes) in
  (forall k names,
      (k, names) ∈ categorise nodes ->
      names <> [] /\ NoDup names
      /\ forall n, n ∈ names
                   <-> exists type, (n, type) ∈ entries /\ categoryMap type = k)
  /\ (forall n type,
        (n, type) ∈ entries ->
        exists names, (categoryMap type, names) ∈ categorise nodes /\ n ∈ names).
Proof.
  intros entries. split.
  - intros k names Hin. apply elem_of_categorise in Hin as [-> Hne].
    split; [exact Hne|]. split; [apply NoDup_dedupeFrom|].
    intros n. unfold dedupe. rewrite elem_of_dedupeFrom, elem_of_namesFor.
    split; [intros [H _]; exact H | intros H; split; [exact H | apply not_elem_of_nil]].
  - intros n type Hin.
    assert (Hn : n ∈ dedupe (namesFor (categoryMap type) entries)).
    { unfold dedupe. rewrite elem_of_dedupeFrom, elem_of_namesFor.
      split; [eauto | apply not_elem_of_nil]. }
    exists (dedupe (namesFor (categoryMap type) entries)).
    split; [|exact Hn]. apply elem_of_categorise. split; [reflexivity|].
    intros Hnil. rewrite Hnil in Hn. inversion Hn.
Qed.

Lemma keys_sublist (g : Bucket.t -> list jsstring) (l : list Bucket.t) :
  map fst (omap (fun k => match g k with
                          | [] => None
                          | names => Some (k, names)
                          end) l) `sublist_of` l.
Proof.
  induction l as [|k l IH]; [constructor|].
  cbn. destruct (g k); cbn.
  - now apply sublist_cons.
  - now apply sublist_skip.
Qed.

(** Two first occurrences, each before the other, are the same one. *)
Lemma first_occurrence_antisym (p q p' q' : list jsstring) (a b : jsstring) :
  p ++ b :: q = p' ++ a :: q' ->
  b ∉ p -> a ∉ p -> a ∉ p' -> b ∉ p' -> a = b.
Proof.
  revert p'. induction p as [|x p IH]; intros [|y p'] Heq Hb Ha Ha' Hb';
    simpl in Heq; injection Heq as Hhead Htail.
  - now symmetry.
  - subst y. exfalso. apply Hb'. left.
  - subst x. exfalso. apply Ha. left.
  - subst y. apply not_elem_of_cons in Hb as [_ Hb], Ha as [_ Ha],
      Ha' as [_ Ha'], Hb' as [_ Hb'].
    exact (IH p' Htail Hb Ha Ha' Hb').
Qed.

(** In what [dedupeFrom] returns, [a] stands before [b] only where [a]
    occurs in the array before any [b]. *)
Lemma dedupeFrom_order seen arr before a between b after :
  dedupeFrom seen arr = before ++ a :: between ++ b :: after ->
  exists p q, arr = p ++ a :: q /\ (a ∉ p) /\ (b ∉ p).
Proof.
  revert seen before. induction arr as [|x rest IH]; intros seen before Heq.
  - simpl in Heq. now destruct before.
  - assert (Hlater : forall seen' before',
              dedupeFrom seen' rest = before' ++ a :: between ++ b :: after ->
              x ∈ seen' ->
              exists p q, x :: rest = p ++ a :: q /\ (a ∉ p) /\ (b ∉ p)).
    { intros seen' before' Heq' Hx.
      assert (Ha : a ∈ dedupeFrom seen' rest).
      { rewrite Heq'. apply elem_of_app. right. left. }
      assert (Hb : b ∈ dedupeFrom seen' rest).
      { rewrite Heq'. apply elem_of_app. right. right.
        apply elem_of_app. right. left. }
      apply elem_of_dedupeFrom in Ha as [_ Ha], Hb as [_ Hb].
      destruct (IH _ _ Heq') as (p & q & -> & Hap & Hbp).
      exists (x :: p), q. split; [reflexivity|].
      split; apply not_elem_of_cons; split; try assumption; intros ->; contradiction. }
    simpl in Heq. destruct (bool_decide_reflect (x ∈ seen)) as [Hin|Hout].
    + exact (Hlater seen before Heq Hin).
    + destruct before as [|y before']; simpl in Heq; injection Heq as Hhead Htail.
      * subst x. exists [], rest. split; [reflexivity|].
        split; apply not_elem_of_nil.
      * subst y. apply (Hlater (x :: seen) before' Htail). left.
Qed.

(** A list without repetition is fixed by its elements and the order of
    their first occurrences in [visited]. *)
Lemma first_occurrence_order_unique (visited l1 l2 : list jsstring) :
  NoDup l1 -> NoDup l2 ->
  (forall n, n ∈ l1 <-> n ∈ l2) ->
  (forall before a between b after,
      l1 = before ++ a :: between ++ b :: after ->
      exists p q, visited = p ++ a :: q /\ (a ∉ p) /\ (b ∉ p)) ->
  (forall before a between b after,
      l2 = before ++ a :: between ++ b :: after ->
      exists p q, visited = p ++ a :: q /\ (a ∉ p) /\ (b ∉ p)) ->
  l1 = l2.
Proof.
  revert l2. induction l1 as [|a r1 IH]; intros l2 Hnd1 Hnd2 Hsame Ho1 Ho2.
  - destruct l2 as [|b t]; [reflexivity|].
    assert (Hb : b ∈ @nil jsstring) by (apply Hsame; left). inversion Hb.
  - assert (Ha : a ∈ l2) by (apply Hsame; left).
    apply list_elem_of_split in Ha as (s & t & ->).
    apply NoDup_cons in Hnd1 as [Har1 Hnd1].
    destruct s as [|b s'].
    + simpl in *. apply NoDup_cons in Hnd2 as [Hat Hnd2]. f_equal.
      apply IH; try assumption.
      * intros n. split; intros Hn.
        -- assert (Hn' : n ∈ a :: t) by (apply Hsame; now right).
           apply elem_of_cons in Hn' as [->|Hn']; [contradiction | assumption].
        -- assert (Hn' : n ∈ a :: r1) by (apply Hsame; now right).
           apply elem_of_cons in Hn' as [->|Hn']; [contradiction | assumption].
      * intros before x between y after ->.
        exact (Ho1 (a :: before) x between y after eq_refl).
      * intros before x between y after ->.
        exact (Ho2 (a :: before) x between y after eq_refl).
    + exfalso. simpl in Hnd2. apply NoDup_cons in Hnd2 as [Hb _].
      assert (Hne : a <> b).
      { intros ->. apply Hb. apply elem_of_app. right. left. }
      assert (Hb1 : b ∈ a :: r1) by (apply Hsame; left).
      apply elem_of_cons in Hb1 as [->|Hb1]; [now apply Hne|].
      apply list_elem_of_split in Hb1 as (u & v & ->).
      destruct (Ho1 [] a u b v eq_refl) as (p' & q' & Hv' & Hap' & Hbp').
      destruct (Ho2 [] b s' a t eq_refl) as (p & q & Hv & Hbp & Hap).
      rewrite Hv in Hv'.
      exact (Hne (first_occurrence_antisym p q p' q' a b Hv' Hbp Hap Hap' Hbp')).
Qed.

(** X19. The keys of a report are distinct and come in the order of
    [ScanResults]. The names under a key are the names visited for that
    key (parents before children), each once, in the order of their first
    occurrences: they are the one list without repetition that holds the
    visited names and in which a name stands before another only where
    it is visited before any visit of the other. Names that are already
    distinct are reported as they were visited. *)
Theorem categorise_keeps_key_and_visit_order nodes :
  let entries := concat (map flatten nodes) in
  map fst (categorise nodes) `sublist_of` Bucket.all
  /\ NoDup (map fst (categorise nodes))
  /\ (forall k names,
        (k, names) ∈ categorise nodes ->
        let visited := namesFor k entries in
        names `sublist_of` visited
        /\ (forall n rest, visited = n :: rest -> exists rest', names = n :: rest')
        /\ (NoDup visited -> names = visited)
        /\ (forall l,
              l = names
              <-> NoDup l
                  /\ (forall n, n ∈ l <-> n ∈ visited)
                  /\ (forall before a between b after,
                        l = before ++ a :: between ++ b :: after ->
                        exists p q,
                          visited = p ++ a :: q /\ (a ∉ p) /\ (b ∉ p)))).
Proof.
  intros entries.
  assert (Hsub : map fst (categorise nodes) `sublist_of` Bucket.all).
  { rewrite categorise_eq. apply keys_sublist. }
  split; [exact Hsub|]. split.
  - eapply sublist_NoDup; [|exact Hsub]. apply (bool_decide_unpack _).
    vm_compute. exact I.
  - intros k names Hin visited. apply elem_of_categorise in Hin as [-> _].
    fold entries. fold visited. split; [apply sublist_dedupeFrom|]. split; [|split].
    + intros n rest ->. unfold dedupe. simpl. eauto.
    + intros Hnd. apply dedupeFrom_NoDup; [exact Hnd|].
      intros x _. apply not_elem_of_nil.
    + assert (Hnd : NoDup (dedupe visited)) by apply NoDup_dedupeFrom.
      assert (Hsame : forall n, n ∈ dedupe visited <-> n ∈ visited).
      { intros n. unfold dedupe. rewrite elem_of_dedupeFrom. split; [now intros []|].
        intros Hn. split; [exact Hn | apply not_elem_of_nil]. }
      assert (Horder : forall before a between b after,
                 dedupe visited = before ++ a :: between ++ b :: after ->
                 exists p q, visited = p ++ a :: q /\ (a ∉ p) /\ (b ∉ p)).
      { intros before a between b after. apply dedupeFrom_order. }
      intros l. split.
      * intros ->. auto.
      * intros (Hndl & Hsamel & Horderl).
        apply (first_occurrence_order_unique visited); try assumption.
        intros n. now rewrite Hsamel, Hsame.
Qed.

Lemma flatten_scan_nodes (matched : list Rule) :
  concat (map flatten (map treeOf (map nodeOf matched)))
  = map (fun r => (rule_name r, rule_type r)) matched.
Proof.
  induction matched as [|r l IH]; [reflexivity|]. simpl. now rewrite IH.
Qed.

(** X20. The report of a scan: a name is reported under a key exactly
    when some rule of the catalog with that name and a type of that key
    matched; two matching rules with the same name and key give one
    entry. *)
Theorem report_of_scan_lists_matched_rules
    ex rules provider rootFiles repoName :
  listFiles provider (js ".") = Ok rootFiles ->
  exists st1 depsMap envVarNames st payload buckets,
    prepare ex provider newScan = (st1, Ok (depsMap, envVarNames))
    /\ analyser ex rules provider newScan = (st, Ok payload)
    /\ results (buildSuccessReport repoName payload) = Some buckets
    /\ repo (buildSuccessReport repoName payload) = repoName
    /\ let matches rule :=
         ruleOutcome provider (allPaths st1) (extensionSet st1)
           (allFileNames st1) depsMap envVarNames rule = Ok true in
       (forall k names n,
           (k, names) ∈ buckets ->
           (n ∈ names
            <-> exists rule, rule ∈ rules /\ matches rule
                             /\ rule_name rule = n
                             /\ categoryMap (rule_type rule) = k))
       /\ (forall rule,
             rule ∈ rules -> matches rule ->
             exists names,
               (categoryMap (rule_type rule), names) ∈ buckets
               /\ rule_name rule ∈ names /\ NoDup names).
Proof.
  intros Hroot.
  destruct (prepare_spec ex provider rootFiles Hroot) as (st1 & Hprep & Hinv & _).
  destruct (evaluateRules_spec provider (dependencyTable ex provider)
              (textsOf provider envFiles extractEnvVarNames) rules [] st1 Hinv)
    as (st2 & Hrun2 & _).
  set (outcome := ruleOutcome provider (allPaths st1) (extensionSet st1)
                    (allFileNames st1) (dependencyTable ex provider)
                    (textsOf provider envFiles extractEnvVarNames)) in *.
  set (matched := List.filter (fun r => isOkTrue (outcome r)) rules) in *.
  exists st1, (dependencyTable ex provider),
    (textsOf provider envFiles extractEnvVarNames), st2,
    {| childs := map nodeOf matched |},
    (categorise (map treeOf (map nodeOf matched))).
  split; [exact Hprep|].
  split; [rewrite analyser_steps, Hprep, Hrun2; reflexivity|].
  split; [reflexivity|]. split; [reflexivity|].
  assert (Hmatched : forall r, r ∈ matched <-> r ∈ rules /\ outcome r = Ok true).
  { intros r. unfold matched. rewrite list_elem_of_In, List.filter_In,
      <- list_elem_of_In. split; intros [Hr Ho]; split; try assumption.
    - destruct (outcome r) as [[|]|]; [reflexivity | discriminate..].
    - now rewrite Ho. }
  assert (Hentries : forall n type,
    (n, type) ∈ concat (map flatten (map treeOf (map nodeOf matched)))
    <-> exists r, r ∈ matched /\ rule_name r = n /\ rule_type r = type).
  { intros n type. rewrite flatten_scan_nodes, list_elem_of_In, in_map_iff. split.
    - intros (r & [= <- <-] & Hr). exists r. now rewrite list_elem_of_In.
    - intros (r & Hr & <- & <-). exists r. now rewrite <- list_elem_of_In. }
  split.
  - intros k names n Hin. apply elem_of_categorise in Hin as [-> _].
    unfold dedupe. rewrite elem_of_dedupeFrom, elem_of_namesFor. split.
    + intros [(type & Hent & Hk) _]. apply Hentries in Hent as (r & Hr & <- & <-).
      apply Hmatched in Hr as [Hr Ho]. exists r. auto.
    + intros (r & Hr & Ho & <- & <-). split; [|apply not_elem_of_nil].
      exists (rule_type r). split; [|reflexivity].
      apply Hentries. exists r. split; [now apply Hmatched | auto].
  - intros rule Hr Ho.
    set (names := dedupe (namesFor (categoryMap (rule_type rule))
                   (concat (map flatten (map treeOf (map nodeOf matched)))))).
    assert (Hn : rule_name rule ∈ names).
    { unfold names, dedupe. rewrite elem_of_dedupeFrom, elem_of_namesFor.
      split; [|apply not_elem_of_nil]. exists (rule_type rule).
      split; [|reflexivity]. apply Hentries. exists rule.
      split; [now apply Hmatched | auto]. }
    exists names. split; [|split; [exact Hn | apply NoDup_dedupeFrom]].
    apply elem_of_categorise. split; [reflexivity|].
    intros Hnil. rewrite Hnil in Hn. inversion Hn.
Qed.

(** ** Input parser *)

Lemma splitOn_nonempty sep s : splitOn sep s <> [].
Proof.
  destruct s as [|c r]; simpl; [discriminate|].
  destruct (sep c); [discriminate|]. destruct (splitOn sep r); discriminate.
Qed.

Lemma splitOn_pieces sep s piece :
  piece ∈ splitOn sep s -> forall c, c ∈ piece -> sep c = false.
Proof.
  revert piece. induction s as [|x r IH]; intros piece Hin c Hc; simpl in Hin.
  - apply list_elem_of_singleton in Hin as ->. inversion Hc.
  - destruct (sep x) eqn:Hx.
    + apply elem_of_cons in Hin as [->|Hin]; [inversion Hc | eauto].
    + destruct (splitOn sep r) as [|p ps] eqn:Hs.
      { now destruct (splitOn_nonempty sep r). }
      apply elem_of_cons in Hin as [->|Hin].
      * apply elem_of_cons in Hc as [->|Hc]; [exact Hx|].
        apply (IH p); [left | exact Hc].
      * apply (IH piece); [now right | exact Hc].
Qed.

Lemma pop_elem pieces : pieces <> [] -> pop pieces ∈ pieces.
Proof.
  intros Hne. unfold pop. induction pieces as [|p ps IH]; [now destruct Hne|].
  destruct ps as [|q ps]; [left|]. right. apply IH. discriminate.
Qed.

(** Splitting composes at a separator. *)
Lemma splitOn_at_separator sep b x r :
  sep x = true -> splitOn sep (b ++ x :: r) = splitOn sep b ++ splitOn sep r.
Proof.
  intros Hx. induction b as [|c b IH]; simpl.
  - now rewrite Hx.
  - rewrite IH. destruct (sep c); [reflexivity|].
    destruct (splitOn sep b) as [|p ps] eqn:Hs;
      [now destruct (splitOn_nonempty sep b) | reflexivity].
Qed.

Lemma splitOn_no_separator sep name :
  (forall c, c ∈ name -> sep c = false) -> splitOn sep name = [name].
Proof.
  induction name as [|c r IH]; intros Hname; [reflexivity|]. simpl.
  rewrite (Hname c) by left. rewrite IH; [reflexivity|].
  intros d Hd. apply Hname. now right.
Qed.

Lemma pop_app pieces last : pop (pieces ++ [last]) = last.
Proof. unfold pop. apply last_last. Qed.

Lemma pop_splitOn_last sep pre name :
  (forall c, c ∈ name -> sep c = false) ->
  (pre = [] \/ exists b x, pre = b ++ [x] /\ sep x = true) ->
  pop (splitOn sep (pre ++ name)) = name.
Proof.
  intros Hname [->|(b & x & -> & Hx)].
  - simpl. now rewrite splitOn_no_separator.
  - rewrite <- app_assoc. simpl.
    rewrite splitOn_at_separator by assumption.
    rewrite (splitOn_no_separator sep name) by assumption.
    apply pop_app.
Qed.

Lemma stripTrailingSlashes_app x slashes :
  (x = [] \/ exists y c, x = y ++ [c] /\ c <> 47) ->
  forallb (fun d => d =? 47) slashes = true ->
  stripTrailingSlashes (x ++ slashes) = x.
Proof.
  intros Hx Hs.
  assert (Hall : stripTrailingSlashes slashes = []).
  { destruct slashes as [|c r]; [reflexivity|]. simpl in *.
    apply andb_true_iff in Hs as [-> ->]. reflexivity. }
  destruct Hx as [->|(y & c & -> & Hc)]; [exact Hall|].
  rewrite <- app_assoc. simpl.
  induction y as [|d y IH]; simpl.
  - destruct (N.eqb_spec c 47); [contradiction|]. simpl.
    destruct slashes as [|e r]; [reflexivity|]. simpl in *.
    apply andb_true_iff in Hs as [-> ->]. reflexivity.
  - rewrite IH. rewrite forallb_app. simpl.
    destruct (N.eqb_spec c 47); [contradiction|].
    now rewrite andb_false_r, andb_false_r.
Qed.

Lemma stripGitSuffix_app x : stripGitSuffix (x ++ js ".git") = x.
Proof.
  induction x as [|c x IH]; [reflexivity|].
  cbn [app stripGitSuffix]. rewrite IH.
  rewrite bool_decide_eq_false_2; [reflexivity|].
  intros H. apply (f_equal length) in H. simpl in H.
  rewrite length_app in H. simpl in H. lia.
Qed.

Lemma stripGitSuffix_id s :
  (forall x, s <> x ++ js ".git") -> stripGitSuffix s = s.
Proof.
  induction s as [|c r IH]; intros Hs; [reflexivity|].
  cbn [stripGitSuffix]. rewrite bool_decide_eq_false_2.
  - f_equal. apply IH. intros x ->. exact (Hs (c :: x) eq_refl).
  - intros H. exact (Hs [] H).
Qed.

(** X21. [nameFromUrl] always returns a usable name: it is never empty
    and never holds a [/]. *)
Theorem nameFromUrl_is_never_empty_nor_a_path url :
  nameFromUrl url <> [] /\ (47 ∉ nameFromUrl url).
Proof.
  unfold nameFromUrl.
  set (pieces := splitOn (fun c => c =? 47)
                   (stripGitSuffix (stripTrailingSlashes url))).
  destruct (truthy (pop pieces)) eqn:Ht.
  - split; [destruct (pop pieces); [discriminate | discriminate]|].
    intros Hin.
    pose proof (splitOn_pieces _ _ _ (pop_elem pieces (splitOn_nonempty _ _))
                  47 Hin) as H.
    discriminate.
  - split; [discriminate|]. apply (bool_decide_unpack _). vm_compute. exact I.
Qed.

(** X22. [nameFromUrl] gives the last path segment, without one final
    [.git] and whatever the number of trailing [/]. When nothing is left
    of that segment it gives [unknown]. *)
Theorem nameFromUrl_is_the_last_segment pre name slashes :
  (pre = [] \/ exists b, pre = b ++ [47]) ->
  (47 ∉ name) ->
  forallb (fun d => d =? 47) slashes = true ->
  (name <> [] -> nameFromUrl (pre ++ name ++ js ".git" ++ slashes) = name)
  /\ (name <> [] -> (forall x, name <> x ++ js ".git") ->
      nameFromUrl (pre ++ name ++ slashes) = name)
  /\ nameFromUrl (pre ++ js ".git" ++ slashes) = js "unknown".
Proof.
  intros Hpre Hname Hslashes.
  assert (Hsep : forall c, c ∈ name -> (c =? 47) = false).
  { intros c Hc. destruct (N.eqb_spec c 47) as [->|]; [contradiction | reflexivity]. }
  assert (Hpre' : pre = [] \/ exists b x, pre = b ++ [x] /\ (x =? 47) = true).
  { destruct Hpre as [->|(b & ->)]; [now left|]. right. exists b, 47. auto. }
  assert (Hgit : forall z, stripTrailingSlashes ((z ++ js ".git") ++ slashes)
                           = z ++ js ".git").
  { intros z. apply stripTrailingSlashes_app; [|exact Hslashes].
    right. exists (z ++ js ".gi"), 116. split; [|discriminate].
    rewrite <- app_assoc. reflexivity. }
  split; [|split].
  - intros Hne. unfold nameFromUrl.
    replace (pre ++ name ++ js ".git" ++ slashes)
      with (((pre ++ name) ++ js ".git") ++ slashes)
      by now rewrite <- !app_assoc.
    rewrite Hgit, stripGitSuffix_app, pop_splitOn_last by assumption.
    destruct name; [now destruct Hne | reflexivity].
  - intros Hne Hnogit. unfold nameFromUrl.
    assert (Hlast : pre ++ name = []
                    \/ exists y c, pre ++ name = y ++ [c] /\ c <> 47).
    { right. destruct (exists_last Hne) as (y & c & ->).
      exists (pre ++ y), c. split; [now rewrite <- app_assoc|].
      intros ->. apply Hname, elem_of_app. right. left. }
    assert (Hkeep : forall x, pre ++ name <> x ++ js ".git").
    { intros x Heq. apply app_eq_inv in Heq as [(k & Hk1 & Hk2)|(k & Hk1 & Hk2)].
      - destruct Hpre as [->|(b & ->)].
        + symmetry in Hk1. apply app_eq_nil in Hk1 as [-> ->].
          exact (Hnogit [] (eq_sym Hk2)).
        + destruct (decide (k = [])) as [->|Hk].
          * exact (Hnogit [] (eq_sym Hk2)).
          * destruct (exists_last Hk) as (k' & c & ->).
            rewrite app_assoc in Hk1. apply app_inj_tail in Hk1 as [_ <-].
            assert (Hin : 47 ∈ js ".git").
            { rewrite Hk2, <- app_assoc. apply elem_of_app. right. left. }
            revert Hin. apply (bool_decide_unpack _). vm_compute. exact I.
      - exact (Hnogit k Hk2). }
    rewrite app_assoc, stripTrailingSlashes_app by assumption.
    rewrite stripGitSuffix_id, pop_splitOn_last by assumption.
    destruct name; [now destruct Hne | reflexivity].
  - unfold nameFromUrl.
    replace (pre ++ js ".git" ++ slashes) with ((pre ++ js ".git") ++ slashes)
      by now rewrite <- !app_assoc.
    rewrite Hgit, stripGitSuffix_app.
    replace pre with (pre ++ []) by apply app_nil_r.
    rewrite pop_splitOn_last; [reflexivity | intros c Hc; inversion Hc | exact Hpre'].
Qed.

(** X23. [parseInputFile] on a file that is not a JSON array: every entry
    comes from one line of the trimmed text, in line order; its url is
    that line trimmed, is not empty, holds no line feed and is not a
    [#] comment; its name is [nameFromUrl] of the url. A text with only
    blank lines and comments gives no entry, and no error. *)
Theorem parseInputFile_plain_text host filePath raw :
  input_pathExists host (input_resolve host filePath) = true ->
  input_readFile host (input_resolve host filePath) = Ok raw ->
  startsWith (trim raw) (js "[") = false ->
  exists entries,
    parseInputFile host filePath = Ok entries
    /\ map entry_url entries
       = List.filter (fun l => truthy l && negb (startsWith l (js "#")))
           (map trim (splitLines (trim raw)))
    /\ (forall e, e ∈ entries ->
          entry_url e <> [] /\ trim (entry_url e) = entry_url e
          /\ (10 ∉ entry_url e)
          /\ startsWith (entry_url e) (js "#") = false
          /\ entry_name e = nameFromUrl (entry_url e))
    /\ ((forall l, l ∈ splitLines (trim raw) ->
                   trim l = [] \/ startsWith (trim l) (js "#") = true) ->
        entries = []).
Proof.
  intros Hex Hread Hjson. unfold parseInputFile.
  rewrite Hex, Hread, Hjson. cbn [negb].
  assert (Hkeep : forall l : jsstring,
            ((0 <? length l)%nat && negb (startsWith l (js "#")))
            = (truthy l && negb (startsWith l (js "#")))).
  { intros [|c r]; reflexivity. }
  eexists. split; [reflexivity|]. split; [|split].
  - rewrite map_map. cbn [entry_url]. rewrite map_id.
    apply List.filter_ext. exact Hkeep.
  - intros e He. apply list_elem_of_In, in_map_iff in He as (url & <- & Hurl).
    apply List.filter_In in Hurl as [Hurl Hk]. rewrite Hkeep in Hk.
    apply andb_true_iff in Hk as [Hne Hhash]. apply negb_true_iff in Hhash.
    apply in_map_iff in Hurl as (l & <- & Hl). cbn [entry_url entry_name].
    split; [destruct (trim l); [discriminate | discriminate]|].
    split; [apply trim_idempotent|]. split; [|auto].
    intros H. apply trim_elem in H.
    apply list_elem_of_In in Hl. exact (splitLines_no_line_feed _ _ Hl H).
  - intros Hblank.
    destruct (List.filter _ (map trim (splitLines (trim raw)))) as [|u us] eqn:Hf;
      [reflexivity|].
    assert (Hu : In u (u :: us)) by now left.
    rewrite <- Hf in Hu. apply List.filter_In in Hu as [Hu Hk].
    rewrite Hkeep in Hk. apply andb_true_iff in Hk as [Hne Hhash].
    apply negb_true_iff in Hhash.
    apply in_map_iff in Hu as (l & <- & Hl). apply list_elem_of_In in Hl.
    destruct (Hblank l Hl) as [Hb|Hb]; [rewrite Hb in Hne; discriminate | congruence].
Qed.

(** ** The further properties on the samples *)

Ltac find_in :=
  apply list_elem_of_In; vm_compute;
  repeat (first [left; reflexivity | right]).

(** The listings of a scan of [sampleRepo]. *)
Lemma sample_scan_listings :
  exists st r,
    analyser silentExtractors sampleCatalog sampleRepo newScan = (st, r)
    /\ listDirsOf (calls st) = [js "."; js "docker"; js "docker/legacy"]
    /\ length (listDirsOf (calls st)) = 3%nat.
Proof.
  destruct (analyser silentExtractors sampleCatalog sampleRepo newScan)
    as [st r] eqn:Hrun.
  exists st, r. split; [reflexivity|].
  destruct (scan_lists_at_most_three_levels silentExtractors sampleCatalog
              sampleRepo _ st r eq_refl Hrun) as [-> ->].
  split; reflexivity.
Defined.

(** The reads of a scan of [sampleRepo]: [package.json], which is not
    there, and [requirements.txt], which is, are each read once. *)
Lemma sample_scan_manifest_reads :
  exists st r,
    analyser silentExtractors sampleCatalog sampleRepo newScan = (st, r)
    /\ readCount (js "package.json") (calls st) = 1%nat
    /\ readCount (js "requirements.txt") (calls st) = 1%nat.
Proof.
  destruct (analyser silentExtractors sampleCatalog sampleRepo newScan)
    as [st r] eqn:Hrun.
  exists st, r. split; [reflexivity|].
  destruct (scan_reads_each_manifest_once silentExtractors sampleCatalog
              sampleRepo _ st r eq_refl Hrun) as (_ & _ & Honce).
  split; apply Honce; find_in.
Defined.

(** The scan of [sampleRepo] asks whether [tsconfig.json] exists: it is
    a marker file of a catalog rule and is in neither set. *)
Lemma sample_scan_existence_check :
  let st := (analyser silentExtractors sampleCatalog sampleRepo newScan).1 in
  CallExists (js "tsconfig.json") ∈ calls st
  /\ exists rule fs,
       rule ∈ sampleCatalog /\ rule_match rule ≫= files = Some fs
       /\ js "tsconfig.json" ∈ fs
       /\ (js "tsconfig.json" ∉ allFileNames st)
       /\ (js "tsconfig.json" ∉ allPaths st).
Proof.
  intros st.
  assert (Hin : CallExists (js "tsconfig.json") ∈ calls st) by find_in.
  split; [exact Hin|].
  destruct (scan_calls_are_confined silentExtractors sampleCatalog sampleRepo
              _ st (analyser silentExtractors sampleCatalog sampleRepo newScan).2
              (CallExists (js "tsconfig.json")) eq_refl)
    as [(dir & Hc & _)|[(p & Hc & _)|(f & rule & fs & Hc & Hrest)]].
  - subst st. now destruct (analyser _ _ _ _).
  - exact Hin.
  - discriminate Hc.
  - discriminate Hc.
  - injection Hc as <-. exists rule, fs. exact Hrest.
Defined.

(** A scan of [lockedRepo] rejects after its first call. *)
Lemma locked_scan_rejects :
  listFiles lockedRepo (js ".") = Throw (js "EACCES")
  /\ exists st,
       analyser silentExtractors sampleCatalog lockedRepo newScan
       = (st, Throw (js "EACCES"))
       /\ calls st = [CallListFiles (js ".")]
       /\ allPaths st = ∅ /\ allFileNames st = ∅ /\ extensionSet st = ∅
       /\ contentCache st = ∅
       /\ warnings st = [].
Proof.
  split; [reflexivity|].
  apply (scan_rejects_when_root_listing_fails silentExtractors sampleCatalog
           lockedRepo (js "EACCES") eq_refl).
Defined.

(** The path set of [sampleRepo] holds [docker/legacy/old.py], listed
    under the path of a second-level directory. *)
Lemma sample_path_set :
  exists st payload,
    analyser silentExtractors sampleCatalog sampleRepo newScan = (st, Ok payload)
    /\ js "docker/legacy/old.py" ∈ allPaths st
    /\ js "app.tsx" ∈ allPaths st.
Proof.
  destruct (analyser silentExtractors sampleCatalog sampleRepo newScan)
    as [st r] eqn:Hrun.
  assert (Hr : r = Ok {| childs := [nodeOf typescriptRule; nodeOf djangoRule;
                                    nodeOf dockerRule; nodeOf postgresqlRule] |}).
  { change r with (st, r).2. rewrite <- Hrun. vm_compute. reflexivity. }
  subst r. eexists st, _. split; [reflexivity|].
  pose proof (path_set_is_three_levels silentExtractors sampleCatalog
                sampleRepo _ st _ eq_refl Hrun) as Hiff.
  split; apply Hiff.
  - right. right.
    exists (directory "docker" "docker"), (directory "docker/legacy" "legacy"),
      (file "docker/legacy/old.py" "old.py").
    conjs; try reflexivity; find_in.
  - left. exists (file "app.tsx" "app.tsx"). split; [find_in | reflexivity].
Defined.

(** Two halves of the sample catalog on [sampleRepo]. *)
Lemma sample_catalogs_compose :
  listFiles sampleRepo (js ".")
  = Ok [directory "docker" "docker"; file "app.tsx" "app.tsx";
        file "requirements.txt" "requirements.txt"]
  /\ exists st st1 st2 payload1 payload2,
       analyser silentExtractors [typescriptRule; djangoRule; angularRule]
         sampleRepo newScan = (st1, Ok payload1)
       /\ analyser silentExtractors [dockerRule; postgresqlRule; vacuousRule]
            sampleRepo newScan = (st2, Ok payload2)
       /\ analyser silentExtractors
            ([typescriptRule; djangoRule; angularRule]
             ++ [dockerRule; postgresqlRule; vacuousRule])
            sampleRepo newScan
          = (st, Ok {| childs := childs payload1 ++ childs payload2 |})
       /\ warnings st = warnings st1 ++ warnings st2.
Proof.
  split; [reflexivity|].
  apply (catalogs_compose silentExtractors sampleRepo _
           [typescriptRule; djangoRule; angularRule]
           [dockerRule; postgresqlRule; vacuousRule] eq_refl).
Defined.

(** The Docker rule against an empty index and [sampleRepo], where no
    [Dockerfile] exists at the root: no match; with [Dockerfile] in the
    name set: a match. *)
Lemma sample_marker_rule :
  (evaluateRule dockerRule ∅ ∅ ∅ (readCached sampleRepo) sampleRepo
     (fun _ => []) [] newScan).2 = Ok false
  /\ (evaluateRule dockerRule ∅ ∅ {[js "Dockerfile"]} (readCached sampleRepo)
        sampleRepo (fun _ => []) [] newScan).2 = Ok true.
Proof.
  assert (Hanswers : forall f : jsstring,
             f ∈ [js "Dockerfile"; js "docker-compose.yml"] ->
             exists b, exists_ sampleRepo f = Ok b).
  { intros f _. eexists. reflexivity. }
  split.
  - destruct (marker_rule_matches_index_or_provider sampleRepo dockerRule
                [js "Dockerfile"; js "docker-compose.yml"] ∅ ∅ ∅
                (fun _ => []) [] newScan eq_refl eq_refl eq_refl Hanswers)
      as (st' & hit & -> & Hhit & _).
    cbn. f_equal. destruct hit; [exfalso|reflexivity].
    destruct (proj1 Hhit eq_refl) as (f & Hf & [Hn|[Hp|Hx]]).
    + set_solver.
    + set_solver.
    + in_cases Hf; subst f; discriminate Hx.
  - destruct (marker_rule_matches_index_or_provider sampleRepo dockerRule
                [js "Dockerfile"; js "docker-compose.yml"] ∅ ∅
                {[js "Dockerfile"]}
                (fun _ => []) [] newScan eq_refl eq_refl eq_refl Hanswers)
      as (st' & hit & -> & Hhit & _).
    cbn. f_equal. apply Hhit. exists (js "Dockerfile").
    split; [find_in | left; set_solver].
Defined.

(** The Spring rule on [mavenRepo]: [pom.xml] holds [spring-boot]. *)
Lemma maven_content_rule :
  (evaluateRule springRule ∅ ∅ ∅ (readCached mavenRepo) mavenRepo
     (fun _ => []) [] newScan).2 = Ok true.
Proof.
  destruct (content_rule_matches_readable_text mavenRepo springRule _ ∅ ∅ ∅
              (fun _ => []) [] newScan eq_refl eq_refl eq_refl
              (cacheInv_newScan mavenRepo))
    as (st' & hit & -> & Hhit).
  cbn. f_equal. apply Hhit.
  exists {| cp_file := js "pom.xml";
            cp_patterns := [Str (js "spring-boot"); Str (js "spring-framework")] |},
    (js "<artifactId>spring-boot-starter</artifactId>"), (Str (js "spring-boot")).
  split; [find_in|]. split; [reflexivity|]. split; [find_in|].
  exists (js "<artifactId>"), (js "-starter</artifactId>"). reflexivity.
Defined.

(** A scan of [/repo] on [sampleHost] logs nothing. *)
Lemma disk_scan_of_sampleHost_is_silent :
  warnings (analyser silentExtractors sampleCatalog
              (FSProvider sampleHost (js "/repo")) newScan).1 = [].
Proof.
  apply (disk_scan_never_warns sampleHost (js "/repo") silentExtractors
           sampleCatalog _
           (analyser silentExtractors sampleCatalog
              (FSProvider sampleHost (js "/repo")) newScan).2).
  now destruct (analyser _ _ _ _).
Defined.

(** The name set of [/repo] on [sampleHost] holds [util.py], which does
    not begin with a dot. *)
Lemma disk_index_of_sampleHost :
  exists st payload,
    analyser silentExtractors sampleCatalog
      (FSProvider sampleHost (js "/repo")) newScan = (st, Ok payload)
    /\ js "util.py" ∈ allFileNames st
    /\ startsWith (js "util.py") (js ".") = false.
Proof.
  destruct (analyser silentExtractors sampleCatalog
              (FSProvider sampleHost (js "/repo")) newScan)
    as [st r] eqn:Hrun.
  assert (Hr : r = Ok {| childs := [nodeOf postgresqlRule] |}).
  { change r with (st, r).2. rewrite <- Hrun. vm_compute. reflexivity. }
  assert (Hin : js "util.py" ∈ allFileNames st).
  { change st with (st, r).1. rewrite <- Hrun. compute_decide. }
  subst r. eexists st, _. split; [reflexivity|].
  split; [exact Hin|].
  exact (disk_index_holds_no_hidden_name sampleHost (js "/repo")
           silentExtractors sampleCatalog st _ (js "util.py") Hrun Hin).
Defined.

(** The name [django] of the requirements file of [sampleRepo]. *)
Lemma sample_requirement_name_is_clean :
  js "django"
    ∈ extractPythonDeps (js "django>=4.2  # web" ++ [10] ++ js "-r base.txt" ++ [10])
  /\ trim (js "django") = js "django"
  /\ (10 ∉ js "django").
Proof.
  assert (Hin : js "django"
                  ∈ extractPythonDeps
                      (js "django>=4.2  # web" ++ [10] ++ js "-r base.txt" ++ [10]))
    by find_in.
  split; [exact Hin|].
  destruct (extractPythonDeps_names_are_clean _ _ Hin) as (_ & Htrim & _ & Hlf & _).
  split; [exact Htrim | exact Hlf].
Defined.

(** The report of a scan of [sampleRepo]. *)
Lemma sample_report :
  listFiles sampleRepo (js ".")
  = Ok [directory "docker" "docker"; file "app.tsx" "app.tsx";
        file "requirements.txt" "requirements.txt"]
  /\ exists st payload buckets,
       analyser silentExtractors sampleCatalog sampleRepo newScan
       = (st, Ok payload)
       /\ results (buildSuccessReport (js "sample") payload) = Some buckets
       /\ exists names,
            (Bucket.frameworks, names) ∈ buckets /\ js "Django" ∈ names
            /\ NoDup names.
Proof.
  split; [reflexivity|].
  destruct (report_of_scan_lists_matched_rules silentExtractors sampleCatalog
              sampleRepo _ (js "sample") eq_refl)
    as (st1 & d & e & st & payload & buckets & Hprep & Hrun & Hres & _ & _ & Hall).
  exists st, payload, buckets. split; [exact Hrun|]. split; [exact Hres|].
  apply (Hall djangoRule); [find_in|].
  apply prepared_is in Hprep as (-> & -> & ->).
  vm_compute. reflexivity.
Defined.

(** A clone URL with [.git] and a trailing slash. *)
Lemma nameFromUrl_of_clone_url :
  nameFromUrl (js "https://github.com/org/repo.git/") = js "repo"
  /\ nameFromUrl (js "https://github.com/org/repo//") = js "repo"
  /\ nameFromUrl (js "https://github.com/org/.git/") = js "unknown".
Proof.
  assert (Hpre : js "https://github.com/org/" = []
                 \/ exists b, js "https://github.com/org/" = b ++ [47]).
  { right. exists (js "https://github.com/org"). reflexivity. }
  assert (Hname : 47 ∉ js "repo").
  { intros H. in_cases H; discriminate. }
  destruct (nameFromUrl_is_the_last_segment (js "https://github.com/org/")
              (js "repo") (js "/") Hpre Hname eq_refl) as (Hgit & _ & Hnone).
  destruct (nameFromUrl_is_the_last_segment (js "https://github.com/org/")
              (js "repo") (js "//") Hpre Hname eq_refl) as (_ & Hplain & _).
  split; [|split].
  - apply Hgit. discriminate.
  - apply Hplain; [discriminate|].
    intros [|c x] Hx; [discriminate Hx|].
    apply (f_equal (@length N)) in Hx.
    rewrite length_app in Hx. simpl in Hx. lia.
  - exact Hnone.
Defined.

(** The entries of [repos.txt] on [sampleInput]: the comment and the
    blank line give none. *)
Lemma sample_input_entries :
  exists entries,
    parseInputFile sampleInput (js "repos.txt") = Ok entries
    /\ map entry_url entries
       = [js "https://github.com/org/repo.git"; js "https://github.com/org/other/"]
    /\ forall e, e ∈ entries -> entry_name e = nameFromUrl (entry_url e).
Proof.
  destruct (parseInputFile_plain_text sampleInput (js "repos.txt") _
              eq_refl eq_refl eq_refl)
    as (entries & Hrun & Hurls & Hclean & _).
  exists entries. split; [exact Hrun|]. split.
  - rewrite Hurls. reflexivity.
  - intros e He. apply (Hclean e He).
Defined.
